(** * Shallow embedding of parts of OrioleDB: the file-backed buffer cache
    (src/utils/o_buffers.c), the fast-path downlink search
    (src/btree/fastpath.c), the bottom-up B-tree builder (src/btree/build.c),
    the index-build sort comparator (src/tuple/sort.c) and the tuple
    attribute accessor o_fastgetattr (include/tuple/format.h). *)

From Stdlib Require Import ZArith List Bool Lia String Floats QArith.
Import ListNotations.

Open Scope Z_scope.

(** Generic list helpers used by the models below. *)
Fixpoint replace_nth {A} (l : list A) (n : nat) (x : A) : list A :=
  match l, n with
  | [], _ => []
  | _ :: t, O => x :: t
  | h :: t, S n' => h :: replace_nth t n' x
  end.

(* ===================================================================== *)
(** * Buffer cache: src/utils/o_buffers.c *)
(* ===================================================================== *)

Module OBuffers.

Definition ORIOLEDB_BLCKSZ : Z := 8192.
Definition O_BUFFERS_PER_GROUP : Z := 4.
Definition OBuffersMaxTags : Z := 4.

(** Byte-addressed contents (of a buffer or of a file).  A file is a total
    function: bytes never written read as zero, which is what OFileRead
    followed by the zero-fill of read_buffer yields past EOF. *)
Definition Bytes := Z -> Z.

Definition zero_bytes : Bytes := fun _ => 0.

(** A file name: [pg_snprintf(filenameTemplate[tag], fileNum >> 32,
    (uint32) fileNum)], with the suffix ".N" appended when [fnVersion = N > 0].
    The per-tag templates describe disjoint file spaces, so a name is
    identified by the triple. *)
Record FileName := mkFileName { fnTag : Z; fnNum : Z; fnVersion : Z }.

Definition FileName_eqb (a b : FileName) : bool :=
  (fnTag a =? fnTag b) && (fnNum a =? fnNum b) && (fnVersion a =? fnVersion b).

(** OBuffer *)
Record OBuffer := mkOBuffer {
  blockNum : Z;
  shadowBlockNum : Z;
  tag : Z;
  shadowTag : Z;
  usageCount : Z;
  dirty : bool;
  data : Bytes
}.

(** OBuffersTransformCallback: returns its boolean result together with the
    buffer contents it leaves behind. *)
Definition OBuffersTransformCallback :=
  Bytes -> Z -> Z -> Z -> bool * Bytes.

(** The fields of OBuffersDesc initialised by the user. *)
Record OBuffersDesc := mkOBuffersDesc {
  singleFileSize : Z;
  buffersCount : Z;
  version : Z -> Z;
  transformCallback : Z -> option OBuffersTransformCallback
}.

Definition groupsCount (desc : OBuffersDesc) : Z :=
  (buffersCount desc + O_BUFFERS_PER_GROUP - 1) / O_BUFFERS_PER_GROUP.

(** The mutable state: the shared buffer groups, the per-process fields of
    OBuffersDesc (the cached open file), and the file system.  The file
    system has a directory mapping names to inodes and the inodes' contents;
    an open descriptor refers to an inode, so it keeps reaching the same
    inode after its name is unlinked.  [unlinked] records the unlink(2)
    calls in the order they are made. *)
Record OBuffersState := mkState {
  groups : list (list OBuffer);
  curFile : Z;
  curFileName : FileName;
  curFileTag : Z;
  curFileNum : Z;
  curFileVersion : Z;
  dir : FileName -> option Z;
  inodes : Z -> Bytes;
  nextInode : Z;
  unlinked : list FileName
}.

Definition set_groups (s : OBuffersState) g : OBuffersState :=
  mkState g (curFile s) (curFileName s) (curFileTag s) (curFileNum s)
    (curFileVersion s) (dir s) (inodes s) (nextInode s) (unlinked s).

Definition set_fs (s : OBuffersState) d ino next ul : OBuffersState :=
  mkState (groups s) (curFile s) (curFileName s) (curFileTag s) (curFileNum s)
    (curFileVersion s) d ino next ul.

Definition set_cur (s : OBuffersState) f name t n v : OBuffersState :=
  mkState (groups s) f name t n v (dir s) (inodes s) (nextInode s) (unlinked s).

(** A small state and error monad: PANIC (ereport(PANIC, ...)) aborts. *)
Inductive Result (A : Type) :=
| Ok (a : A) (s : OBuffersState)
| Panic (msg : string).
Arguments Ok {A}.
Arguments Panic {A}.

Definition M (A : Type) := OBuffersState -> Result A.

Definition ret {A} (a : A) : M A := fun s => Ok a s.
Definition bind {A B} (m : M A) (k : A -> M B) : M B :=
  fun s => match m s with Ok a s' => k a s' | Panic msg => Panic msg end.
Definition get : M OBuffersState := fun s => Ok s s.
Definition put (s : OBuffersState) : M unit := fun _ => Ok tt s.
Definition panic {A} (msg : string) : M A := fun _ => Panic msg.

Notation "x <- m ;; k" := (bind m (fun x => k))
  (at level 61, m at next level, right associativity).
Notation "m ;;; k" := (bind m (fun _ => k))
  (at level 61, right associativity).

(** File-system primitives. *)

(** PathNameOpenFile(name, O_RDWR | O_CREAT | PG_BINARY): an existing name is
    opened; an absent one is created empty.  The result is the descriptor
    (here: the inode it refers to). *)
Definition PathNameOpenFile (name : FileName) : M Z :=
  fun s =>
    match dir s name with
    | Some ino => Ok ino s
    | None =>
      let ino := nextInode s in
      Ok ino (set_fs s (fun n => if FileName_eqb n name then Some ino else dir s n)
                (fun i => if i =? ino then zero_bytes else inodes s i)
                (ino + 1) (unlinked s))
    end.

(** unlink(name); the result is ignored by the caller. *)
Definition unlink (name : FileName) : M unit :=
  fun s =>
    Ok tt (set_fs s (fun n => if FileName_eqb n name then None else dir s n)
             (inodes s) (nextInode s) (unlinked s ++ [name])).

(** OFileWrite(fd, src, len, off): writes [len] bytes. *)
Definition OFileWrite (fd : Z) (src : Bytes) (len off : Z) : M Z :=
  fun s =>
    let old := inodes s fd in
    Ok len (set_fs s (dir s)
              (fun i => if i =? fd then
                          (fun x => if (off <=? x) && (x <? off + len)
                                    then src (x - off) else old x)
                        else inodes s i)
              (nextInode s) (unlinked s)).

(** OFileRead(fd, len, off): the bytes read (holes and bytes past EOF read
    as zero, which is also what the zero-fill of read_buffer produces). *)
Definition OFileRead (fd : Z) (off : Z) : M Bytes :=
  fun s => Ok (fun x => inodes s fd (off + x)) s.

Section WithDesc.

Variable desc : OBuffersDesc.

(** The loop of open_file over versions [v], [v-1], ..., [0]. *)
Fixpoint open_file_versions (tg fileNum : Z) (v : nat) : M bool :=
  let name := mkFileName tg fileNum (Z.of_nat v) in
  fd <- PathNameOpenFile name ;;
  s <- get ;;
  put (set_cur s fd name (curFileTag s) (curFileNum s) (curFileVersion s)) ;;;
  if fd >=? 0 then
    (s <- get ;;
     put (set_cur s (curFile s) (curFileName s) (curFileTag s) (curFileNum s)
            (Z.of_nat v)) ;;;
     ret true)
  else
    match v with
    | O => ret false
    | S v' => open_file_versions tg fileNum v'
    end.

Definition open_file (tg fileNum : Z) : M unit :=
  s <- get ;;
  if (curFile s >=? 0) && (curFileNum s =? fileNum) && (curFileTag s =? tg)
  then ret tt
  else
    (* FileClose(desc->curFile) only releases the descriptor *)
    found <- open_file_versions tg fileNum (Z.to_nat (version desc tg)) ;;
    s <- get ;;
    put (set_cur s (curFile s) (curFileName s) tg fileNum (curFileVersion s)) ;;;
    if negb found || (curFile s <? 0)
    then panic "could not open buffer file"
    else ret tt.

Fixpoint unlink_versions (tg fileNum : Z) (v : nat) : M unit :=
  unlink (mkFileName tg fileNum (Z.of_nat v)) ;;;
  match v with
  | O => ret tt
  | S v' => unlink_versions tg fileNum v'
  end.

Definition unlink_file (tg fileNum : Z) : M unit :=
  unlink_versions tg fileNum (Z.to_nat (version desc tg)).

Definition blocks_per_file : Z := singleFileSize desc / ORIOLEDB_BLCKSZ.

Definition write_buffer_data (buf : Bytes) (tg blkno : Z) : M unit :=
  open_file tg (blkno / blocks_per_file) ;;;
  s <- get ;;
  result <- OFileWrite (curFile s) buf ORIOLEDB_BLCKSZ
              ((blkno * ORIOLEDB_BLCKSZ) mod singleFileSize desc) ;;
  if negb (result =? ORIOLEDB_BLCKSZ)
  then panic "could not write buffer to file"
  else ret tt.

Definition write_buffer (buffer : OBuffer) : M unit :=
  write_buffer_data (data buffer) (tag buffer) (blockNum buffer).

(** read_buffer: returns the buffer with its new contents. *)
Definition read_buffer (buffer : OBuffer) : M OBuffer :=
  open_file (tag buffer) (blockNum buffer / blocks_per_file) ;;;
  s <- get ;;
  let file_version := curFileVersion s in
  bytes <- OFileRead (curFile s)
             ((blockNum buffer * ORIOLEDB_BLCKSZ) mod singleFileSize desc) ;;
  let newdata := fun x => if (0 <=? x) && (x <? ORIOLEDB_BLCKSZ)
                          then bytes x else data buffer x in
  let buffer' := mkOBuffer (blockNum buffer) (shadowBlockNum buffer)
                   (tag buffer) (shadowTag buffer) (usageCount buffer)
                   (dirty buffer) newdata in
  if file_version <? version desc (tag buffer) then
    match transformCallback desc (tag buffer) with
    | Some cb =>
      let (ok, transformed) :=
        cb newdata (tag buffer) file_version (version desc (tag buffer)) in
      if ok
      then ret (mkOBuffer (blockNum buffer) (shadowBlockNum buffer)
                  (tag buffer) (shadowTag buffer) (usageCount buffer)
                  (dirty buffer) transformed)
      else panic "failed to transform buffer data"
    | None => ret buffer'
    end
  else ret buffer'.

End WithDesc.

(** The usage counter is a uint32. *)
Definition uint32_inc (u : Z) : Z := (u + 1) mod 2 ^ 32.

Definition with_usage (b : OBuffer) (u : Z) : OBuffer :=
  mkOBuffer (blockNum b) (shadowBlockNum b) (tag b) (shadowTag b) u
    (dirty b) (data b).

Definition buffer_matches (b : OBuffer) (tg blkno : Z) : bool :=
  (blockNum b =? blkno) && (tag b =? tg).

Definition empty_buffer : OBuffer := mkOBuffer (-1) (-1) 0 0 0 false zero_bytes.

(** The first loop of get_buffer, under the shared group lock. *)
Fixpoint find_buffer (grp : list OBuffer) (tg blkno : Z) (i : nat) : option nat :=
  match grp with
  | [] => None
  | b :: rest => if buffer_matches b tg blkno then Some i
                 else find_buffer rest tg blkno (S i)
  end.

(** The second loop of get_buffer, under the exclusive group lock: recheck,
    victim choice and halving of the usage counters.  The result is the
    recheck hit (if any), the victim index and the group after the loop.
    In a single thread the wait on an in-progress load of a shadow match
    returns at once, so it has no effect here. *)
Fixpoint victim_scan (tg blkno : Z) (grp : list OBuffer) (i victim : nat)
  (victimUsageCount : Z) : (option nat * nat) * list OBuffer :=
  match grp with
  | [] => ((None, victim), [])
  | b :: rest =>
    if buffer_matches b tg blkno
    then ((Some i, victim), with_usage b (uint32_inc (usageCount b)) :: rest)
    else
      let '(victim', vuc') :=
        if (i =? 0)%nat || (usageCount b <? victimUsageCount)
        then (i, usageCount b) else (victim, victimUsageCount) in
      let '(r, rest') := victim_scan tg blkno rest (S i) victim' vuc' in
      (r, with_usage b (usageCount b / 2) :: rest')
  end.

Definition store_buffer (g j : nat) (b : OBuffer) : M unit :=
  s <- get ;;
  put (set_groups s (replace_nth (groups s) g
                       (replace_nth (nth g (groups s) []) j b))).

Definition load_buffer (g j : nat) : M OBuffer :=
  s <- get ;;
  ret (nth j (nth g (groups s) []) empty_buffer).

Section WithDesc2.

Variable desc : OBuffersDesc.

(** get_buffer: the result is the (group, slot) of the buffer that now holds
    the block. *)
Definition get_buffer (tg blkno : Z) (write : bool) : M (nat * nat) :=
  s <- get ;;
  let g := Z.to_nat (Z.rem blkno (groupsCount desc)) in
  let grp := nth g (groups s) [] in
  match find_buffer grp tg blkno 0 with
  | Some j =>
    let b := nth j grp empty_buffer in
    store_buffer g j (with_usage b (uint32_inc (usageCount b))) ;;;
    ret (g, j)
  | None =>
    let '((hit, victim), grp') := victim_scan tg blkno grp 0 0 0 in
    put (set_groups s (replace_nth (groups s) g grp')) ;;;
    match hit with
    | Some j => ret (g, j)
    | None =>
      let buffer := nth victim grp' empty_buffer in
      let buffer' := mkOBuffer blkno (blockNum buffer) tg (tag buffer) 1 false
                       (data buffer) in
      store_buffer g victim buffer' ;;;
      (if dirty buffer
       then write_buffer_data desc (data buffer) (tag buffer) (blockNum buffer)
       else ret tt) ;;;
      loaded <- read_buffer desc buffer' ;;
      store_buffer g victim
        (mkOBuffer (blockNum loaded) (-1) (tag loaded) (shadowTag loaded)
           (usageCount loaded) (dirty loaded) (data loaded)) ;;;
      ret (g, victim)
    end
  end.

(** The loop of o_buffers_rw over the blocks of the range; [buf] is the
    caller's buffer, addressed from its start, and [ptr] the position in it. *)
Fixpoint rw_blocks (tg offset size : Z) (write : bool)
  (firstBlockNum lastBlockNum : Z) (n : nat) (blkno ptr : Z) (buf : Bytes)
  : M Bytes :=
  match n with
  | O => ret buf
  | S n' =>
    gj <- get_buffer tg blkno write ;;
    let '(g, j) := gj in
    let '(copySize, copyOffset) :=
      if firstBlockNum =? lastBlockNum
      then (size, offset mod ORIOLEDB_BLCKSZ)
      else if blkno =? firstBlockNum
      then (ORIOLEDB_BLCKSZ - offset mod ORIOLEDB_BLCKSZ, offset mod ORIOLEDB_BLCKSZ)
      else if blkno =? lastBlockNum
      then ((offset + size - 1) mod ORIOLEDB_BLCKSZ + 1, 0)
      else (ORIOLEDB_BLCKSZ, 0) in
    buffer <- load_buffer g j ;;
    (if write then
       store_buffer g j
         (mkOBuffer (blockNum buffer) (shadowBlockNum buffer) (tag buffer)
            (shadowTag buffer) (usageCount buffer) true
            (fun x => if (copyOffset <=? x) && (x <? copyOffset + copySize)
                      then buf (ptr + (x - copyOffset)) else data buffer x)) ;;;
       rw_blocks tg offset size write firstBlockNum lastBlockNum n'
         (blkno + 1) (ptr + copySize) buf
     else
       let buf' := fun x => if (ptr <=? x) && (x <? ptr + copySize)
                            then data buffer (copyOffset + (x - ptr)) else buf x in
       rw_blocks tg offset size write firstBlockNum lastBlockNum n'
         (blkno + 1) (ptr + copySize) buf')
  end.

Definition o_buffers_rw (buf : Bytes) (tg offset size : Z) (write : bool) : M Bytes :=
  let firstBlockNum := offset / ORIOLEDB_BLCKSZ in
  let lastBlockNum := (offset + size - 1) / ORIOLEDB_BLCKSZ in
  rw_blocks tg offset size write firstBlockNum lastBlockNum
    (Z.to_nat (lastBlockNum - firstBlockNum + 1)) firstBlockNum 0 buf.

(** o_buffers_read returns the caller's buffer [dst] after the copy. *)
Definition o_buffers_read (dst : Bytes) (tg offset size : Z) : M Bytes :=
  o_buffers_rw dst tg offset size false.

Definition o_buffers_write (src : Bytes) (tg offset size : Z) : M unit :=
  o_buffers_rw src tg offset size true ;;; ret tt.

Definition wipe_buffer (tg firstBufferNumber lastBufferNumber : Z) (b : OBuffer)
  : OBuffer :=
  if dirty b && (tag b =? tg) && (firstBufferNumber <=? blockNum b)
     && (blockNum b <=? lastBufferNumber)
  then mkOBuffer (-1) (shadowBlockNum b) 0 (shadowTag b) (usageCount b) false
         (data b)
  else b.

Definition o_buffers_wipe (tg firstBufferNumber lastBufferNumber : Z) : M unit :=
  s <- get ;;
  put (set_groups s (map (map (wipe_buffer tg firstBufferNumber lastBufferNumber))
                       (groups s))).

Fixpoint unlink_files_loop (tg : Z) (n : nat) (fileNumber : Z) : M unit :=
  match n with
  | O => ret tt
  | S n' => unlink_file desc tg fileNumber ;;;
            unlink_files_loop tg n' (fileNumber + 1)
  end.

Definition o_buffers_unlink_files_range (tg firstFileNumber lastFileNumber : Z)
  : M unit :=
  o_buffers_wipe tg (firstFileNumber * blocks_per_file desc)
    ((lastFileNumber + 1) * blocks_per_file desc - 1) ;;;
  unlink_files_loop tg (Z.to_nat (lastFileNumber - firstFileNumber + 1))
    firstFileNumber.

(** o_buffers_shmem_init with [found = false], over a file system given by
    its directory, inodes and next free inode. *)
Definition o_buffers_shmem_init (d : FileName -> option Z) (ino : Z -> Bytes)
  (next : Z) : OBuffersState :=
  mkState (repeat (repeat empty_buffer (Z.to_nat O_BUFFERS_PER_GROUP))
             (Z.to_nat (groupsCount desc)))
    (-1) (mkFileName 0 0 0) 0 0 0 d ino next [].

End WithDesc2.

End OBuffers.

(* ===================================================================== *)
(** * Flushing and syncing the buffer cache: src/utils/o_buffers.c *)
(* ===================================================================== *)

Module OBuffersSync.
Import OBuffers.

(** FileSync(file, wait_event_info): fsync(2) of the file.  The model keeps
    no distinction between written and durable bytes, so it leaves the
    state as it is. *)
Definition FileSync (fd : Z) : M unit := ret tt.

(** The test of o_buffers_flush and o_buffers_wipe on one buffer. *)
Definition flush_cond (tg firstBufferNumber lastBufferNumber : Z) (b : OBuffer) : bool :=
  dirty b && (tag b =? tg) && (blockNum b >=? firstBufferNumber)
  && (blockNum b <=? lastBufferNumber).

(** [buffer->dirty = false]. *)
Definition set_clean (b : OBuffer) : OBuffer :=
  mkOBuffer (blockNum b) (shadowBlockNum b) (tag b) (shadowTag b) (usageCount b)
    false (data b).

Section WithDesc3.

Variable desc : OBuffersDesc.

(** The inner loop of o_buffers_flush over the buffers [j .. j + n - 1] of
    group [i]. *)
Fixpoint flush_slots (tg firstBufferNumber lastBufferNumber : Z) (i j n : nat)
  : M unit :=
  match n with
  | O => ret tt
  | S n' =>
    buffer <- load_buffer i j ;;
    (if flush_cond tg firstBufferNumber lastBufferNumber buffer
     then write_buffer desc buffer ;;; store_buffer i j (set_clean buffer)
     else ret tt) ;;;
    flush_slots tg firstBufferNumber lastBufferNumber i (S j) n'
  end.

(** The outer loop over the groups [i .. i + n - 1]. *)
Fixpoint flush_groups (tg firstBufferNumber lastBufferNumber : Z) (i n : nat)
  : M unit :=
  match n with
  | O => ret tt
  | S n' =>
    flush_slots tg firstBufferNumber lastBufferNumber i 0
      (Z.to_nat O_BUFFERS_PER_GROUP) ;;;
    flush_groups tg firstBufferNumber lastBufferNumber (S i) n'
  end.

Definition o_buffers_flush (tg firstBufferNumber lastBufferNumber : Z) : M unit :=
  flush_groups tg firstBufferNumber lastBufferNumber 0 (Z.to_nat (groupsCount desc)).

(** The loop of o_buffers_sync over the files [fileNumber ..]. *)
Fixpoint sync_files (tg : Z) (n : nat) (fileNumber : Z) : M unit :=
  match n with
  | O => ret tt
  | S n' =>
    open_file desc tg fileNumber ;;;
    s <- get ;;
    FileSync (curFile s) ;;;
    sync_files tg n' (fileNumber + 1)
  end.

(** o_buffers_sync; the int64 divisions and remainders truncate. *)
Definition o_buffers_sync (tg fromOffset toOffset : Z) : M unit :=
  let firstPageNumber := Z.quot fromOffset ORIOLEDB_BLCKSZ in
  let lastPageNumber :=
    if Z.rem toOffset ORIOLEDB_BLCKSZ =? 0
    then Z.quot toOffset ORIOLEDB_BLCKSZ - 1
    else Z.quot toOffset ORIOLEDB_BLCKSZ in
  o_buffers_flush tg firstPageNumber lastPageNumber ;;;
  let firstFileNumber := Z.quot fromOffset (singleFileSize desc) in
  let lastFileNumber :=
    if Z.rem toOffset (singleFileSize desc) =? 0
    then Z.quot toOffset (singleFileSize desc) - 1
    else Z.quot toOffset (singleFileSize desc) in
  sync_files tg (Z.to_nat (lastFileNumber - firstFileNumber + 1)) firstFileNumber.

End WithDesc3.

End OBuffersSync.


(* ===================================================================== *)
(** * Fast-path downlink search: src/btree/fastpath.c *)
(* ===================================================================== *)

Module Fastpath.

(** Key values, as the page stores them and as a [Datum] carries them.  A
    TID datum is a pointer in C; here it is the TID it points to. *)
Inductive Value :=
| VInt (z : Z)
| VFloat (f : float)
| VTid (blk off : Z).

Definition Datum := Value.

(** The in-memory page as the search routines read it: the key value stored
    at each byte offset from the page header. *)
Definition PageMem := Z -> Value.

Definition read_int (mem : PageMem) (a : Z) : Z :=
  match mem a with VInt z => z | _ => 0 end.
Definition read_float (mem : PageMem) (a : Z) : float :=
  match mem a with VFloat f => f | _ => PrimFloat.zero end.
Definition read_tid (mem : PageMem) (a : Z) : Z * Z :=
  match mem a with VTid b o => (b, o) | _ => (0, 0) end.

Definition DatumGetInt (d : Datum) : Z :=
  match d with VInt z => z | _ => 0 end.
Definition DatumGetFloat (d : Datum) : float :=
  match d with VFloat f => f | _ => PrimFloat.zero end.
Definition DatumGetItemPointer (d : Datum) : Z * Z :=
  match d with VTid b o => (b, o) | _ => (0, 0) end.

(** ** The stride searches *)

(** One binary-search loop of the [*_array_search] routines:
    [go_right value] is the test that moves [low] past [mid] ([value < key]
    in the first loop, [value <= key] in the second).  Every iteration
    shrinks [high - low], so [Z.to_nat (high - low)] iterations suffice. *)
Fixpoint bsearch_loop {V} (read : Z -> V) (go_right : V -> bool) (p stride : Z)
  (fuel : nat) (low high : Z) : Z :=
  match fuel with
  | O => low
  | S fuel' =>
    if low <? high then
      let mid := low + (high - low) / 2 in
      if go_right (read (p + mid * stride))
      then bsearch_loop read go_right p stride fuel' (mid + 1) high
      else bsearch_loop read go_right p stride fuel' low mid
    else low
  end.

(** The common body of the six routines: the first loop from [*lower] to
    [*upper] gives the new [*lower]; the second loop, from that value to the
    old [*upper], gives the new [*upper]. *)
Definition stride_search {V} (read : Z -> V) (lt le : V -> bool)
  (p stride lower upper : Z) : Z * Z :=
  let low := bsearch_loop read lt p stride (Z.to_nat (upper - lower)) lower upper in
  let up := bsearch_loop read le p stride (Z.to_nat (upper - low)) low upper in
  (low, up).

(** [func(p, stride, &lower, &upper, keyDatum)], returning the new
    [(lower, upper)]. *)
Definition ArraySearchFunc :=
  PageMem -> Z -> Z -> Z -> Z -> Datum -> Z * Z.

Definition int4_array_search : ArraySearchFunc :=
  fun mem p stride lower upper keyDatum =>
    let key := DatumGetInt keyDatum in
    stride_search (read_int mem) (fun v => v <? key) (fun v => v <=? key)
      p stride lower upper.

Definition int8_array_search : ArraySearchFunc :=
  fun mem p stride lower upper keyDatum =>
    let key := DatumGetInt keyDatum in
    stride_search (read_int mem) (fun v => v <? key) (fun v => v <=? key)
      p stride lower upper.

(** Oids are unsigned; their values here are the non-negative integers. *)
Definition oid_array_search : ArraySearchFunc :=
  fun mem p stride lower upper keyDatum =>
    let key := DatumGetInt keyDatum in
    stride_search (read_int mem) (fun v => v <? key) (fun v => v <=? key)
      p stride lower upper.

(** C's [<] and [<=] on floating-point values, which are false whenever an
    operand is NaN; a float4 compares as the double it widens to. *)
Definition float4_array_search : ArraySearchFunc :=
  fun mem p stride lower upper keyDatum =>
    let key := DatumGetFloat keyDatum in
    stride_search (read_float mem) (fun v => PrimFloat.ltb v key)
      (fun v => PrimFloat.leb v key) p stride lower upper.

Definition float8_array_search : ArraySearchFunc :=
  fun mem p stride lower upper keyDatum =>
    let key := DatumGetFloat keyDatum in
    stride_search (read_float mem) (fun v => PrimFloat.ltb v key)
      (fun v => PrimFloat.leb v key) p stride lower upper.

Definition tid_cmp (arg1 arg2 : Z * Z) : Z :=
  let '(b1, o1) := arg1 in
  let '(b2, o2) := arg2 in
  if b1 <? b2 then -1
  else if b2 <? b1 then 1
  else if o1 <? o2 then -1
  else if o2 <? o1 then 1
  else 0.

Definition tid_array_search : ArraySearchFunc :=
  fun mem p stride lower upper keyDatum =>
    let key := DatumGetItemPointer keyDatum in
    stride_search (read_tid mem) (fun v => tid_cmp v key <? 0)
      (fun v => tid_cmp v key <=? 0) p stride lower upper.

(** ** Catalog constants *)

Definition InvalidOid : Z := 0.
Definition BTREE_AM_OID : Z := 403.
Definition INT8OID : Z := 20.
Definition INT4OID : Z := 23.
Definition OIDOID : Z := 26.
Definition TIDOID : Z := 27.
Definition FLOAT4OID : Z := 700.
Definition FLOAT8OID : Z := 701.
Definition INT4_BTREE_OPS_OID : Z := 1978.
Definition OID_BTREE_OPS_OID : Z := 1981.
Definition FLOAT8_BTREE_OPS_OID : Z := 3123.
Definition INT8_BTREE_OPS_OID : Z := 3124.

Definition ALIGNOF_SHORT : Z := 2.
Definition ALIGNOF_INT : Z := 4.
Definition ALIGNOF_DOUBLE : Z := 8.
Definition MAXIMUM_ALIGNOF : Z := 8.

Definition TYPEALIGN (a x : Z) : Z := (x + a - 1) / a * a.
Definition MAXALIGN (x : Z) : Z := TYPEALIGN MAXIMUM_ALIGNOF x.

Definition sizeof_LocationIndex : Z := 2.
Definition sizeof_BTreeNonLeafTuphdr : Z := 8.

Definition FASTPATH_FIND_DOWNLINK_MAX_KEYS : Z := 4.
Definition FASTPATH_FIND_DOWNLINK_FLAG_MINUS_INF : Z := 1.
Definition FASTPATH_FIND_DOWNLINK_FLAG_PLUS_INF : Z := 2.

Definition OInvalidInMemoryBlkno : Z := -1.

Record ArraySearchDesc := mkArraySearchDesc {
  typeid : Z;
  opcid : Z;
  typlen : Z;
  align : Z;
  func : ArraySearchFunc
}.

Definition arraySearchDescs : list ArraySearchDesc := [
  mkArraySearchDesc OIDOID OID_BTREE_OPS_OID 4 ALIGNOF_INT oid_array_search;
  mkArraySearchDesc INT4OID INT4_BTREE_OPS_OID 4 ALIGNOF_INT int4_array_search;
  mkArraySearchDesc INT8OID INT8_BTREE_OPS_OID 8 ALIGNOF_DOUBLE int8_array_search;
  mkArraySearchDesc FLOAT4OID InvalidOid 4 ALIGNOF_INT float4_array_search;
  mkArraySearchDesc FLOAT8OID FLOAT8_BTREE_OPS_OID 8 ALIGNOF_DOUBLE float8_array_search;
  mkArraySearchDesc TIDOID InvalidOid 6 ALIGNOF_SHORT tid_array_search
].

(** ** Index descriptor and search keys *)

Inductive OIndexType :=
| oIndexToast | oIndexBridge | oIndexPrimary | oIndexUnique | oIndexRegular.

Record OIndexField := mkOIndexField { opclass : Z; nullfirst : bool }.

Definition default_field : OIndexField := mkOIndexField InvalidOid false.

(** The parts of [OIndexDescr] the fast path reads; the non-leaf tuple
    descriptor is the list of its attributes' type oids. *)
Record OIndexDescr := mkOIndexDescr {
  descType : OIndexType;
  nonLeafTupdesc_atttypid : list Z;
  nonLeafSpec_natts : Z;
  nonLeafSpec_len : Z;
  nKeyFields : Z;
  nUniqueFields : Z;
  fields : list OIndexField
}.

Definition nonLeafTupdesc_natts (id : OIndexDescr) : Z :=
  Z.of_nat (List.length (nonLeafTupdesc_atttypid id)).

Inductive BTreeKeyType :=
| BTreeKeyNone | BTreeKeyLeafTuple | BTreeKeyNonLeafKey | BTreeKeyBound
| BTreeKeyUniqueLowerBound | BTreeKeyUniqueUpperBound | BTreeKeyPageHiKey
| BTreeKeyRightmost.

Record OBTreeValueBound := mkValueBound {
  vbValue : Datum;
  vbType : Z;
  vbUnbounded : bool;   (** [flags & O_VALUE_BOUND_UNBOUNDED] *)
  vbLower : bool        (** [flags & O_VALUE_BOUND_LOWER] *)
}.

(** The [void *key] argument: an [OBTreeKeyBound] for the bound key types, a
    tuple for the tuple key types (given by its key attributes: key
    attribute [i] is what [o_fastgetattr] returns at
    [OIndexKeyAttnumToTupleAttnum(keyType, id, i)]), nothing otherwise. *)
Inductive SearchKey :=
| KeyBound (keys : list OBTreeValueBound)
| KeyTuple (getattr : Z -> Datum * bool)
| KeyNoKey.

Record FastpathFindDownlinkMeta := mkMeta {
  enabled : bool;
  inclusive : bool;
  numKeys : Z;
  meta_length : Z;   (** [meta->length] *)
  offsets : list Z;
  funcs : list ArraySearchFunc;
  values : list Datum;
  flags : list Z;
  cacheValid : bool;
  cachedBlkno : Z;
  cachedChangeCount : Z;
  cachedChunkIndex : Z
}.

Definition meta_disable (m : FastpathFindDownlinkMeta) : FastpathFindDownlinkMeta :=
  mkMeta false (inclusive m) (numKeys m) (meta_length m) (offsets m) (funcs m)
    (values m) (flags m) (cacheValid m) (cachedBlkno m) (cachedChangeCount m)
    (cachedChunkIndex m).

Definition meta_set_cache (m : FastpathFindDownlinkMeta) (blkno cc ci : Z)
  : FastpathFindDownlinkMeta :=
  mkMeta (enabled m) (inclusive m) (numKeys m) (meta_length m) (offsets m)
    (funcs m) (values m) (flags m) true blkno cc ci.

Section Catalog.

(** The catalog lookup [GetDefaultOpClass(typeid, amoid)]. *)
Variable GetDefaultOpClass : Z -> Z -> Z.

(** The opclass a descriptor carries once [find_array_search_desc_by_typeid]
    has filled an [InvalidOid] entry from the catalog. *)
Definition resolved_opcid (d : ArraySearchDesc) : Z :=
  if opcid d =? InvalidOid then GetDefaultOpClass (typeid d) BTREE_AM_OID
  else opcid d.

Definition find_array_search_desc_by_typeid (t : Z) : option ArraySearchDesc :=
  match find (fun d => typeid d =? t) arraySearchDescs with
  | Some d => Some (mkArraySearchDesc (typeid d) (resolved_opcid d) (typlen d)
                      (align d) (func d))
  | None => None
  end.

(** The loop of [can_fastpath_find_downlink] over [i < meta->numKeys], from
    [i] with [n] iterations left; it returns the offsets, the functions and
    the types it fills in.  Every iteration looks up the type of attribute
    0, [typ0], as the source does. *)
Fixpoint fastpath_keys_loop (typ0 : Z) (flds : list OIndexField) (i n : nat)
  (offset : Z) : option (list Z * list ArraySearchFunc * list Z) :=
  match n with
  | O => Some ([], [], [])
  | S n' =>
    match find_array_search_desc_by_typeid typ0 with
    | None => None
    | Some d =>
      if negb (opcid d =? opclass (nth i flds default_field)) then None
      else
        let off := TYPEALIGN (align d) offset in
        match fastpath_keys_loop typ0 flds (S i) n' (off + typlen d) with
        | None => None
        | Some (offs, fs, tys) => Some (off :: offs, func d :: fs, typeid d :: tys)
        end
    end
  end.

End Catalog.

(** The bound branch of [find_downlink_get_keys]: [types] is cut to
    [numValues], and the loop runs to [Min(numValues, bound->nkeys)]. *)
Fixpoint bound_get_keys (types : list Z) (keys : list OBTreeValueBound)
  : option (list Datum * list Z) :=
  match types, keys with
  | t :: ts, k :: ks =>
    if negb (vbType k =? t) then None
    else
      match bound_get_keys ts ks with
      | None => None
      | Some (vs, fs) =>
        let '(f, v) :=
          if vbUnbounded k
          then ((if vbLower k then FASTPATH_FIND_DOWNLINK_FLAG_MINUS_INF
                 else FASTPATH_FIND_DOWNLINK_FLAG_PLUS_INF), VInt 0)
          else (0, vbValue k) in
        Some (v :: vs, f :: fs)
      end
  | _, _ => Some ([], [])
  end.

(** [find_downlink_get_keys]: [None] where the source returns false,
    otherwise [*inclusive], [values] and [flags]. *)
Definition find_downlink_get_keys (id : OIndexDescr) (key : SearchKey)
  (keyType : BTreeKeyType) (numValues : Z) (types : list Z)
  : option (bool * list Datum * list Z) :=
  let n := Z.to_nat numValues in
  match keyType with
  | BTreeKeyNone =>
    Some (false, repeat (VInt 0) n, repeat FASTPATH_FIND_DOWNLINK_FLAG_MINUS_INF n)
  | BTreeKeyRightmost =>
    Some (false, repeat (VInt 0) n, repeat FASTPATH_FIND_DOWNLINK_FLAG_PLUS_INF n)
  | BTreeKeyBound | BTreeKeyUniqueLowerBound | BTreeKeyUniqueUpperBound =>
    let keys := match key with KeyBound ks => ks | _ => [] end in
    match bound_get_keys (firstn n types) keys with
    | None => None
    | Some (vs, fs) => Some (false, vs, fs)
    end
  | _ =>
    let getattr := match key with
                   | KeyTuple g => g
                   | _ => fun _ => (VInt 0, true)
                   end in
    let inc := match keyType with BTreeKeyPageHiKey => true | _ => false end in
    let one i :=
      let '(v, isnull) := getattr (Z.of_nat i + 1) in
      (v, if isnull
          then (if nullfirst (nth i (fields id) default_field)
                then FASTPATH_FIND_DOWNLINK_FLAG_MINUS_INF
                else FASTPATH_FIND_DOWNLINK_FLAG_PLUS_INF)
          else 0) in
    Some (inc, map (fun i => fst (one i)) (seq 0 n),
          map (fun i => snd (one i)) (seq 0 n))
  end.

(** The choice of [meta->numKeys]. *)
Definition fastpath_num_keys (id : OIndexDescr) (keyType : BTreeKeyType) : Z :=
  match keyType with
  | BTreeKeyUniqueLowerBound | BTreeKeyUniqueUpperBound => nUniqueFields id
  | _ =>
    match descType id with
    | oIndexToast | oIndexBridge => nonLeafSpec_natts id
    | _ => nKeyFields id
    end
  end.

(** [can_fastpath_find_downlink]: [isFetch] is [BTREE_PAGE_FIND_IS(context,
    FETCH)] and [isSysTree] is [IS_SYS_TREE_OIDS(desc->oids)].  The result
    is the updated [*meta]; where the source only clears [meta->enabled],
    the other fields are left as they were. *)
Definition can_fastpath_find_downlink (GetDefaultOpClass : Z -> Z -> Z)
  (isFetch isSysTree : bool) (id : OIndexDescr) (key : SearchKey)
  (keyType : BTreeKeyType) (meta : FastpathFindDownlinkMeta)
  : FastpathFindDownlinkMeta :=
  if negb isFetch || isSysTree then meta_disable meta
  else if (nonLeafTupdesc_natts id >=? FASTPATH_FIND_DOWNLINK_MAX_KEYS)
          || negb (nonLeafSpec_natts id =? nonLeafTupdesc_natts id)
  then meta_disable meta
  else
    let nk := fastpath_num_keys id keyType in
    let typ0 := nth 0 (nonLeafTupdesc_atttypid id) InvalidOid in
    match fastpath_keys_loop GetDefaultOpClass typ0 (fields id) 0 (Z.to_nat nk) 0 with
    | None => meta_disable meta
    | Some (offs, fs, tys) =>
      match find_downlink_get_keys id key keyType nk tys with
      | None => meta_disable meta
      | Some (inc, vals, fls) =>
        mkMeta true inc nk (MAXALIGN (nonLeafSpec_len id)) offs fs vals fls
          false OInvalidInMemoryBlkno 0 0
      end
    end.

(** ** Pages *)

(** A chunk descriptor; [chunkLocation] and [hikeyLocation] are the byte
    offsets the source computes with [SHORT_GET_LOCATION] from
    [shortLocation] and [hikeyShortLocation]. *)
Record BTreePageChunkDesc := mkChunkDesc {
  chunkLocation : Z;
  offset : Z;
  chunkKeysFixed : bool;
  hikeyLocation : Z
}.

Definition default_chunk_desc : BTreePageChunkDesc := mkChunkDesc 0 0 false 0.

(** The fields of a page the fast path reads.  [changeCount] is
    [state & PAGE_STATE_CHANGE_COUNT_MASK], [readBlocked] is
    [O_PAGE_STATE_READ_IS_BLOCKED(state)]; [mem] holds the page's key
    values by byte offset. *)
Record BTreePageHeader := mkPage {
  changeCount : Z;
  readBlocked : bool;
  hikeysFixed : bool;
  rightmost : bool;
  chunksCount : Z;
  dataSize : Z;
  itemsCount : Z;
  hikeysEnd : Z;
  chunkDesc : list BTreePageChunkDesc;
  mem : PageMem
}.

Definition chunk_desc (hdr : BTreePageHeader) (i : Z) : BTreePageChunkDesc :=
  nth (Z.to_nat i) (chunkDesc hdr) default_chunk_desc.

Record BTreePageItemLocator := mkLocator {
  locChunk : Z;
  locChunkItemsCount : Z;
  locChunkSize : Z;
  locItemOffset : Z;
  locChunkOffset : Z
}.

Inductive OBTreeFastPathFindResult :=
| OBTreeFastPathFindOK
| OBTreeFastPathFindRetry
| OBTreeFastPathFindFailure
| OBTreeFastPathFindSlowpath.

Definition no_search : ArraySearchFunc := fun _ _ _ lower upper _ => (lower, upper).

(** The search loop over the keys, shared by [fastpath_find_chunk] and
    [fastpath_find_downlink]: [for (i = 0; lower < upper && i < numKeys; i++)],
    from key [i] with [n] keys left. *)
Fixpoint keys_search (mem : PageMem) (base stride : Z) (m : FastpathFindDownlinkMeta)
  (i n : nat) (lower upper : Z) : Z * Z :=
  match n with
  | O => (lower, upper)
  | S n' =>
    if lower <? upper then
      let fl := nth i (flags m) 0 in
      let '(lo, up) :=
        if fl =? 0
        then nth i (funcs m) no_search mem (base + nth i (offsets m) 0) stride
               lower upper (nth i (values m) (VInt 0))
        else if negb (Z.land fl FASTPATH_FIND_DOWNLINK_FLAG_MINUS_INF =? 0)
        then (lower, lower)
        else if negb (Z.land fl FASTPATH_FIND_DOWNLINK_FLAG_PLUS_INF =? 0)
        then (upper, upper)
        else (lower, upper) in
      keys_search mem base stride m (S i) n' lo up
    else (lower, upper)
  end.

Definition page_changed (hdr : BTreePageHeader) (imageChangeCount : Z) : bool :=
  readBlocked hdr || negb (changeCount hdr =? imageChangeCount).

Definition fastpath_find_chunk (img hdr : BTreePageHeader)
  (meta : FastpathFindDownlinkMeta) : OBTreeFastPathFindResult * Z :=
  let imageChangeCount := changeCount img in
  if negb (hikeysFixed img) then (OBTreeFastPathFindSlowpath, 0)
  else
    let count := if rightmost img then chunksCount img - 1 else chunksCount img in
    let off := hikeyLocation (chunk_desc hdr 0) in
    if negb (hikeysEnd img - off =? count * meta_length meta)
    then (OBTreeFastPathFindSlowpath, 0)
    else
      let '(lower, upper) :=
        keys_search (mem hdr) off (meta_length meta) meta 0
          (Z.to_nat (numKeys meta)) 0 count in
      let chunkIndex := if inclusive meta then lower else upper in
      if chunkIndex >=? count then (OBTreeFastPathFindSlowpath, chunkIndex)
      else if page_changed hdr imageChangeCount
      then (OBTreeFastPathFindRetry, chunkIndex)
      else (OBTreeFastPathFindOK, chunkIndex).

(** The location, size and item count of chunk [ci] (the two branches on
    [chunkIndex < imgHdr->chunksCount - 1]). *)
Definition chunk_geometry (img hdr : BTreePageHeader) (ci : Z) : Z * Z * Z :=
  let d := chunk_desc hdr ci in
  if ci <? chunksCount img - 1 then
    let d' := chunk_desc hdr (ci + 1) in
    (chunkLocation d, chunkLocation d' - chunkLocation d, offset d' - offset d)
  else (chunkLocation d, dataSize img - chunkLocation d, itemsCount img - offset d).

(** [count] and [base] of chunk [ci]: chunk 0 starts with the
    minus-infinity header, which is not part of its key array. *)
Definition chunk_base (ci chunk chunkItemsCount : Z) : Z * Z :=
  if ci =? 0
  then (chunkItemsCount - 1,
        chunk + MAXALIGN (sizeof_LocationIndex * chunkItemsCount)
        + MAXALIGN sizeof_BTreeNonLeafTuphdr)
  else (chunkItemsCount,
        chunk + MAXALIGN (sizeof_LocationIndex * chunkItemsCount)).

Definition chunk_size_ok (m : FastpathFindDownlinkMeta)
  (chunkSize chunkItemsCount count : Z) : bool :=
  chunkSize =? MAXALIGN (sizeof_LocationIndex * chunkItemsCount)
               + MAXALIGN sizeof_BTreeNonLeafTuphdr * chunkItemsCount
               + meta_length m * count.

(** The address of the [BTreeNonLeafTuphdr] of item [k] of a key array
    at [base]. *)
Definition item_tuphdr (m : FastpathFindDownlinkMeta) (base k : Z) : Z :=
  base + (MAXALIGN sizeof_BTreeNonLeafTuphdr + meta_length m) * k.

(** [fastpath_find_downlink]: the result code, the updated [*meta], and,
    when the source fills them in, [*loc] and the address of the header it
    copies into [*tuphdrPtr].  The page state is read twice in the source;
    in this sequential model both reads see [hdr]. *)
Definition fastpath_find_downlink (img hdr : BTreePageHeader) (blkno : Z)
  (meta : FastpathFindDownlinkMeta)
  : OBTreeFastPathFindResult * FastpathFindDownlinkMeta
    * option (BTreePageItemLocator * Z) :=
  let imageChangeCount := changeCount img in
  let found :=
    if cacheValid meta && (cachedBlkno meta =? blkno)
       && (cachedChangeCount meta =? imageChangeCount)
    then (OBTreeFastPathFindOK, cachedChunkIndex meta, meta)
    else
      let '(r, ci) := fastpath_find_chunk img hdr meta in
      match r with
      | OBTreeFastPathFindOK => (r, ci, meta_set_cache meta blkno imageChangeCount ci)
      | _ => (r, ci, meta)
      end in
  let '(result, chunkIndex, meta) := found in
  match result with
  | OBTreeFastPathFindOK =>
    if negb (chunkKeysFixed (chunk_desc hdr chunkIndex))
    then (OBTreeFastPathFindSlowpath, meta, None)
    else
      let '(chunk, chunkSize, chunkItemsCount) := chunk_geometry img hdr chunkIndex in
      let '(count, base) := chunk_base chunkIndex chunk chunkItemsCount in
      if negb (chunk_size_ok meta chunkSize chunkItemsCount count)
      then (OBTreeFastPathFindSlowpath, meta, None)
      else
        let '(lower, upper) :=
          keys_search (mem hdr) (base + MAXALIGN sizeof_BTreeNonLeafTuphdr)
            (MAXALIGN sizeof_BTreeNonLeafTuphdr + meta_length meta) meta 0
            (Z.to_nat (numKeys meta)) 0 count in
        let itemIndex := if inclusive meta then lower else upper in
        if page_changed hdr imageChangeCount
        then (OBTreeFastPathFindRetry, meta, None)
        else
          let sel :=
            if chunkIndex =? 0 then
              Some (mkLocator chunk chunkItemsCount chunkSize itemIndex chunkIndex,
                    if itemIndex =? 0
                    then base - MAXALIGN sizeof_BTreeNonLeafTuphdr
                    else item_tuphdr meta base (itemIndex - 1))
            else if itemIndex >? 0 then
              Some (mkLocator chunk chunkItemsCount chunkSize (itemIndex - 1) chunkIndex,
                    item_tuphdr meta base (itemIndex - 1))
            else
              let ci := chunkIndex - 1 in
              if negb (chunkKeysFixed (chunk_desc hdr ci)) then None
              else
                let '(chunk', chunkSize', chunkItemsCount') := chunk_geometry img hdr ci in
                let '(count', base') := chunk_base ci chunk' chunkItemsCount' in
                if negb (chunk_size_ok meta chunkSize' chunkItemsCount' count')
                then None
                else
                  let itemIndex' := chunkItemsCount' - 1 in
                  Some (mkLocator chunk' chunkItemsCount' chunkSize' itemIndex' ci,
                        if (ci =? 0) && (itemIndex' =? 0)
                        then base' - MAXALIGN sizeof_BTreeNonLeafTuphdr
                        else item_tuphdr meta base' (count' - 1)) in
          match sel with
          | None => (OBTreeFastPathFindSlowpath, meta, None)
          | Some lt =>
            if page_changed hdr imageChangeCount
            then (OBTreeFastPathFindRetry, meta, Some lt)
            else (OBTreeFastPathFindOK, meta, Some lt)
          end
  | r => (r, meta, None)
  end.

End Fastpath.


(* ===================================================================== *)
(** * Bottom-up B-tree build: src/btree/build.c *)
(* ===================================================================== *)

Module Build.

Definition ORIOLEDB_BLCKSZ : Z := 8192.
Definition ORIOLEDB_MAX_DEPTH : Z := 32.
Definition MAXALIGN (x : Z) : Z := (x + 7) / 8 * 8.
Definition sizeof_BTreeLeafTuphdr : Z := 16.
Definition sizeof_BTreeNonLeafTuphdr : Z := 8.

(** [size_t] arithmetic (the free-space test mixes [MAXALIGN], a [size_t],
    into its left-hand side). *)
Definition SIZE_T_MOD : Z := 2 ^ 64.
Definition UINT32_MOD : Z := 2 ^ 32.

(** The header copied in front of an item: a leaf tuple header or a
    non-leaf one carrying the downlink. *)
Inductive TupleHeader :=
| LeafTuphdr
| NonLeafTuphdr (downlink : Z).

Section Pages.

Variables Page OTuple SplitItems : Type.

(** An item to place: [tuple], [tuplesize], [tupleheader], [header_size]. *)
Record Item := mkItem {
  itemTuple : OTuple;
  itemSize : Z;
  itemHeader : TupleHeader;
  itemHeaderSize : Z
}.

(** The page-level routines the builder calls, which live outside
    build.c: tuple length, free space, the fit test, item insertion, the
    header updates of the pages it splits, creates and writes, the split
    items, the split-location oracle (with its target fill ratio), the
    redistribution of a split page, hikey extraction, chunk splitting and
    the page write. *)
Record PageOps := mkPageOps {
  o_btree_len : OTuple -> Z;
  empty_key : OTuple;
  init_stack_page : Z -> Page;
  BTREE_PAGE_FREE_SPACE : Page -> Z;
  page_locator_fits_item : Page -> Z -> bool;
  page_insert_item : Page -> Item -> Page;
  init_new_page : Z -> Page;
  mark_split_page : Z -> Page -> Page;
  make_split_items : Page -> Item -> SplitItems * Z;
  btree_page_split_location : SplitItems -> Z -> Q -> Z;
  split_pages : Page -> Page -> SplitItems -> Z -> Item -> Page * Page;
  mark_new_root : Z -> Page -> Page -> Page * Page;
  set_n_ondisk : Page -> Page;
  page_hikey : Page -> OTuple * Z;
  split_page_by_chunks : Page -> Page;
  mark_root_page : Z -> Page -> Page;
  perform_page_io_build : Page -> Z
}.

End Pages.

Arguments o_btree_len {Page OTuple SplitItems}.
Arguments empty_key {Page OTuple SplitItems}.
Arguments init_stack_page {Page OTuple SplitItems}.
Arguments BTREE_PAGE_FREE_SPACE {Page OTuple SplitItems}.
Arguments page_locator_fits_item {Page OTuple SplitItems}.
Arguments page_insert_item {Page OTuple SplitItems}.
Arguments init_new_page {Page OTuple SplitItems}.
Arguments mark_split_page {Page OTuple SplitItems}.
Arguments make_split_items {Page OTuple SplitItems}.
Arguments btree_page_split_location {Page OTuple SplitItems}.
Arguments split_pages {Page OTuple SplitItems}.
Arguments mark_new_root {Page OTuple SplitItems}.
Arguments set_n_ondisk {Page OTuple SplitItems}.
Arguments page_hikey {Page OTuple SplitItems}.
Arguments split_page_by_chunks {Page OTuple SplitItems}.
Arguments mark_root_page {Page OTuple SplitItems}.
Arguments perform_page_io_build {Page OTuple SplitItems}.
Arguments mkItem {OTuple}.
Arguments itemTuple {OTuple}.
Arguments itemSize {OTuple}.
Arguments itemHeader {OTuple}.
Arguments itemHeaderSize {OTuple}.

(** What the builder does that the claims observe: each call of the
    split-location oracle, with the level split and the fill ratio passed,
    and each page written by [perform_page_io_build], with its stack level
    and the downlink returned. *)
Inductive BuildEvent :=
| EvSplitLocation (level : Z) (ratio : Q)
| EvPageWrite (level : Z) (downlink : Z).

Record BuildHeader := mkBuildHeader {
  rootDownlink : Z;
  hdrLeafPagesNum : Z
}.

Section Builder.

Variables Page OTuple SplitItems : Type.
Variable ops : PageOps Page OTuple SplitItems.
(** [desc->fillfactor]. *)
Variable fillfactor : Z.

Record StackItem := mkStackItem {
  img : Page;
  key : OTuple;
  keysize : Z
}.

(** [OBTreeBuildState] with the [leafPagesNum] field of its meta page; the
    other meta-page counters are not modelled. *)
Record BuildState := mkBuildState {
  stack : list StackItem;
  root_level : Z;
  leafPagesNum : Z;
  trace : list BuildEvent
}.

Definition default_item : StackItem :=
  mkStackItem (init_stack_page ops 0) (empty_key ops) 0.

Definition stack_get (st : BuildState) (level : Z) : StackItem :=
  nth (Z.to_nat level) (stack st) default_item.

Definition stack_set (st : BuildState) (level : Z) (it : StackItem) : BuildState :=
  mkBuildState (replace_nth (stack st) (Z.to_nat level) it) (root_level st)
    (leafPagesNum st) (trace st).

Definition set_root_level (st : BuildState) (r : Z) : BuildState :=
  mkBuildState (stack st) r (leafPagesNum st) (trace st).

Definition emit (st : BuildState) (e : BuildEvent) : BuildState :=
  mkBuildState (stack st) (root_level st) (leafPagesNum st) (trace st ++ [e]).

(** [pg_atomic_add_fetch_u32(&metaPageBlkno->leafPagesNum, 1)]. *)
Definition inc_leafPagesNum (st : BuildState) : BuildState :=
  mkBuildState (stack st) (root_level st) ((leafPagesNum st + 1) mod UINT32_MOD)
    (trace st).

(** [downlink = perform_page_io_build(desc, page, ...)]. *)
Definition write_page (st : BuildState) (level : Z) (page : Page) : Z * BuildState :=
  let downlink := perform_page_io_build ops page in
  (downlink, emit st (EvPageWrite level downlink)).

(** [stack_page_split]: the oracle is called with the literal 0.9; the
    result is the reorganised left page and the filled new page. *)
Definition stack_page_split (st : BuildState) (level : Z) (it : Item OTuple)
  (img0 new_page : Page) : Page * Page * BuildState :=
  let '(items, off) := make_split_items ops img0 it in
  let left_count := btree_page_split_location ops items off (9 # 10) in
  let st := emit st (EvSplitLocation level (9 # 10)) in
  let '(lpage, rpage) := split_pages ops img0 new_page items left_count it in
  (lpage, rpage, st).

(** The free-space test of [put_item_to_stack]. *)
Definition split_not_forced (page : Page) (it : Item OTuple) : bool :=
  (ORIOLEDB_BLCKSZ * (100 - fillfactor) / 100) mod SIZE_T_MOD <=?
  (BTREE_PAGE_FREE_SPACE ops page - MAXALIGN (itemSize it)
   - itemHeaderSize it) mod SIZE_T_MOD.

(** [put_item_to_stack] and [put_downlink_to_stack]; [fuel] bounds the
    levels left before [ORIOLEDB_MAX_DEPTH], where the source asserts, and
    [None] stands for that assertion failing. *)
Fixpoint put_item_to_stack (fuel : nat) (level : Z) (it : Item OTuple)
  (st : BuildState) : option BuildState :=
  match fuel with
  | O => None
  | S fuel' =>
    let cur := stack_get st level in
    let fit := if split_not_forced (img cur) it
               then page_locator_fits_item ops (img cur)
                      (MAXALIGN (itemSize it) + itemHeaderSize it)
               else false in
    if fit then
      Some (stack_set st level
              (mkStackItem (page_insert_item ops (img cur) it) (key cur)
                 (keysize cur)))
    else
      let new_page := init_new_page ops level in
      let header := mark_split_page ops level (img cur) in
      let '(lpage, rpage, st) := stack_page_split st level it header new_page in
      let '(lpage, st) :=
        if level =? root_level st then
          let '(parent, lpage) :=
            mark_new_root ops level (img (stack_get st (level + 1))) lpage in
          let p := stack_get st (level + 1) in
          (lpage, set_root_level
                   (stack_set st (level + 1) (mkStackItem parent (key p) (keysize p)))
                   (level + 1))
        else (lpage, st) in
      let lpage := if level =? 0 then lpage else set_n_ondisk ops lpage in
      let '(downlink, st) := write_page st level lpage in
      let st := if level =? 0 then inc_leafPagesNum st else st in
      let '(hk, hks) := page_hikey ops lpage in
      let st := stack_set st level (mkStackItem rpage hk hks) in
      put_item_to_stack fuel' (level + 1)
        (mkItem (key cur) (keysize cur) (NonLeafTuphdr downlink)
           sizeof_BTreeNonLeafTuphdr) st
  end.

Definition depth_fuel (level : Z) : nat := Z.to_nat (ORIOLEDB_MAX_DEPTH - level).

Definition put_downlink_to_stack (level downlink : Z) (k : OTuple) (ks : Z)
  (st : BuildState) : option BuildState :=
  put_item_to_stack (depth_fuel level) level
    (mkItem k ks (NonLeafTuphdr downlink) sizeof_BTreeNonLeafTuphdr) st.

Definition put_tuple_to_stack (t : OTuple) (st : BuildState) : option BuildState :=
  put_item_to_stack (depth_fuel 0) 0
    (mkItem t (o_btree_len ops t) LeafTuphdr sizeof_BTreeLeafTuphdr) st.

Definition btree_build_state_start : BuildState :=
  mkBuildState
    (map (fun i => mkStackItem (init_stack_page ops (Z.of_nat i))
                     (empty_key ops) 0)
       (seq 0 (Z.to_nat ORIOLEDB_MAX_DEPTH)))
    0 0 [].

Definition btree_build_state_add_tuple (st : option BuildState) (t : OTuple)
  : option BuildState :=
  match st with
  | Some s => put_tuple_to_stack t s
  | None => None
  end.

(** The loop of [btree_build_state_finish] over [i < saved_root_level],
    from [i] with [n] iterations left. *)
Fixpoint finish_loop (i : Z) (n : nat) (st : BuildState) : option BuildState :=
  match n with
  | O => Some st
  | S n' =>
    let cur := stack_get st i in
    let page := if i =? 0 then img cur else set_n_ondisk ops (img cur) in
    let page := split_page_by_chunks ops page in
    let st := stack_set st i (mkStackItem page (key cur) (keysize cur)) in
    let '(downlink, st) := write_page st i page in
    let st := if i =? 0 then inc_leafPagesNum st else st in
    match put_downlink_to_stack (i + 1) downlink (key cur) (keysize cur) st with
    | None => None
    | Some st => finish_loop (i + 1) n' st
    end
  end.

Definition btree_build_state_finish (st : BuildState)
  : option (BuildState * BuildHeader) :=
  match finish_loop 0 (Z.to_nat (root_level st)) st with
  | None => None
  | Some st =>
    let root := stack_get st (root_level st) in
    let page := mark_root_page ops (root_level st) (img root) in
    let page := split_page_by_chunks ops page in
    let st := stack_set st (root_level st) (mkStackItem page (key root) (keysize root)) in
    let '(downlink, st) := write_page st (root_level st) page in
    let st := if root_level st =? 0 then inc_leafPagesNum st else st in
    Some (st, mkBuildHeader downlink (leafPagesNum st))
  end.

(** [btree_write_index_data] over the sorted tuples. *)
Definition btree_write_index_data (tuples : list OTuple)
  : option (BuildState * BuildHeader) :=
  match fold_left btree_build_state_add_tuple tuples (Some btree_build_state_start) with
  | Some st => btree_build_state_finish st
  | None => None
  end.

End Builder.

Arguments mkStackItem {Page OTuple}.
Arguments img {Page OTuple}.
Arguments key {Page OTuple}.
Arguments keysize {Page OTuple}.
Arguments mkBuildState {Page OTuple}.
Arguments stack {Page OTuple}.
Arguments root_level {Page OTuple}.
Arguments leafPagesNum {Page OTuple}.
Arguments trace {Page OTuple}.
Arguments stack_set {Page OTuple}.
Arguments set_root_level {Page OTuple}.
Arguments emit {Page OTuple}.
Arguments inc_leafPagesNum {Page OTuple}.
Arguments default_item {Page OTuple SplitItems}.
Arguments stack_get {Page OTuple SplitItems}.
Arguments write_page {Page OTuple SplitItems}.
Arguments stack_page_split {Page OTuple SplitItems}.
Arguments split_not_forced {Page OTuple SplitItems}.
Arguments put_item_to_stack {Page OTuple SplitItems}.
Arguments put_downlink_to_stack {Page OTuple SplitItems}.
Arguments put_tuple_to_stack {Page OTuple SplitItems}.
Arguments btree_build_state_start {Page OTuple SplitItems}.
Arguments btree_build_state_add_tuple {Page OTuple SplitItems}.
Arguments finish_loop {Page OTuple SplitItems}.
Arguments btree_build_state_finish {Page OTuple SplitItems}.
Arguments btree_write_index_data {Page OTuple SplitItems}.

End Build.

(* ===================================================================== *)
(** * Index-build sort comparator: src/tuple/sort.c *)
(* ===================================================================== *)

Module Sort.

Definition Datum := Z.

(** The fields of [SortSupportData] the comparator reads.  [comparator],
    [abbrev_converter] (whether one is installed) and
    [abbrev_full_comparator] are what the sort-support setup installs. *)
Record SortSupport := mkSortSupport {
  ssup_nulls_first : bool;
  ssup_reverse : bool;
  ssup_attno : Z;
  comparator : Datum -> Datum -> Z;
  abbrev_converter : bool;
  abbrev_full_comparator : Datum -> Datum -> Z
}.

(** A [palloc0]'ed entry, left so for ignored columns. *)
Definition zero_sort_support : SortSupport :=
  mkSortSupport false false 0 (fun _ _ => 0) false (fun _ _ => 0).

(** PostgreSQL's [INVERT_COMPARE_RESULT]. *)
Definition INVERT_COMPARE_RESULT (c : Z) : Z := if c <? 0 then 1 else - c.

(** The body shared by PostgreSQL's [ApplySortComparator] and
    [ApplySortAbbrevFullComparator] (sortsupport.h). *)
Definition apply_sort_cmp (cmp : Datum -> Datum -> Z) (datum1 : Datum) (isNull1 : bool)
  (datum2 : Datum) (isNull2 : bool) (ssup : SortSupport) : Z :=
  if isNull1 then
    (if isNull2 then 0 else if ssup_nulls_first ssup then -1 else 1)
  else if isNull2 then
    (if ssup_nulls_first ssup then 1 else -1)
  else
    let c := cmp datum1 datum2 in
    if ssup_reverse ssup then INVERT_COMPARE_RESULT c else c.

Definition ApplySortComparator (datum1 : Datum) (isNull1 : bool) (datum2 : Datum)
  (isNull2 : bool) (ssup : SortSupport) : Z :=
  apply_sort_cmp (comparator ssup) datum1 isNull1 datum2 isNull2 ssup.

Definition ApplySortAbbrevFullComparator (datum1 : Datum) (isNull1 : bool)
  (datum2 : Datum) (isNull2 : bool) (ssup : SortSupport) : Z :=
  apply_sort_cmp (abbrev_full_comparator ssup) datum1 isNull1 datum2 isNull2 ssup.

(** A leaf tuple, given by what [o_fastgetattr] returns for each attribute
    number: the datum and the null flag. *)
Definition OTuple := Z -> Datum * bool.

Record SortTuple := mkSortTuple {
  datum1 : Datum;
  isnull1 : bool;
  tuple : OTuple
}.

(** The index fields as the sort setup reads them; [fcomparator],
    [fabbrev] and [fabbrev_full] stand for what
    [o_finish_sort_support_function] installs for the field. *)
Record OIndexField := mkOIndexField {
  nullfirst : bool;
  ascending : bool;
  fcomparator : Datum -> Datum -> Z;
  fabbrev : bool;
  fabbrev_full : Datum -> Datum -> Z
}.

Definition default_field : OIndexField :=
  mkOIndexField false true (fun _ _ => 0) false (fun _ _ => 0).

(** The parts of [OIndexDescr] the sort reads; [OIgnoreColumn] and
    [OIndexKeyAttnumToTupleAttnum(BTreeKeyLeafTuple, idx, _)] are given as
    functions of the descriptor. *)
Record OIndexDescr := mkOIndexDescr {
  name : string;
  unique : bool;
  nKeyFields : Z;
  nFields : Z;
  fields : list OIndexField;
  OIgnoreColumn : Z -> bool;
  leaf_tuple_attnum : Z -> Z
}.

(** The state the comparator reads: [base->sortKeys], [base->nKeys] and the
    [OIndexBuildSortArg]. *)
Record Tuplesortstate := mkTuplesortstate {
  sortKeys : list SortSupport;
  nKeys : Z;
  arg_id : OIndexDescr;
  enforceUnique : bool
}.

Definition sort_key (st : Tuplesortstate) (k : nat) : SortSupport :=
  nth k (sortKeys st) zero_sort_support.

Definition tuplesort_begin_orioledb_index (idx : OIndexDescr) : Tuplesortstate :=
  let sort_fields := if unique idx then nKeyFields idx else nFields idx in
  let setup i :=
    let zi := Z.of_nat i in
    if OIgnoreColumn idx zi then zero_sort_support
    else
      let f := nth i (fields idx) default_field in
      mkSortSupport (nullfirst f) (negb (ascending f)) (leaf_tuple_attnum idx (zi + 1))
        (fcomparator f) (fabbrev f) (fabbrev_full f) in
  mkTuplesortstate (map setup (seq 0 (Z.to_nat sort_fields))) sort_fields idx (unique idx).

(** The comparator's outcome: a comparison result, or the
    [ERRCODE_UNIQUE_VIOLATION] error "could not create unique index" naming
    the index. *)
Inductive CompareResult :=
| CmpReturn (c : Z)
| CmpUniqueViolation (index_name : string).

(** The loop over [nkey = 1 .. nKeys - 1], from [nkey] with [n] keys
    left: [inl compare] where it returns, [inr equal_hasnull] where it
    completes. *)
Fixpoint compare_keys (st : Tuplesortstate) (ltup rtup : OTuple) (nkey n : nat)
  (equal_hasnull : bool) : Z + bool :=
  match n with
  | O => inr equal_hasnull
  | S n' =>
    if negb (OIgnoreColumn (arg_id st) (Z.of_nat nkey)) then
      let sk := sort_key st nkey in
      let '(d1, n1) := ltup (ssup_attno sk) in
      let '(d2, n2) := rtup (ssup_attno sk) in
      let compare := ApplySortComparator d1 n1 d2 n2 sk in
      if negb (compare =? 0) then inl compare
      else compare_keys st ltup rtup (S nkey) n' (equal_hasnull || n1)
    else compare_keys st ltup rtup (S nkey) n' equal_hasnull
  end.

Definition comparetup_orioledb_index (a b : SortTuple) (st : Tuplesortstate)
  : CompareResult :=
  let sk0 := sort_key st 0 in
  let compare := ApplySortComparator (datum1 a) (isnull1 a) (datum1 b) (isnull1 b) sk0 in
  if negb (compare =? 0) then CmpReturn compare
  else
    let full :=
      if abbrev_converter sk0 then
        let '(d1, n1) := tuple a (ssup_attno sk0) in
        let '(d2, n2) := tuple b (ssup_attno sk0) in
        ApplySortAbbrevFullComparator d1 n1 d2 n2 sk0
      else 0 in
    if negb (full =? 0) then CmpReturn full
    else
      match compare_keys st (tuple a) (tuple b) 1 (Z.to_nat (nKeys st - 1)) (isnull1 a) with
      | inl c => CmpReturn c
      | inr equal_hasnull =>
        if enforceUnique st && negb equal_hasnull
        then CmpUniqueViolation (name (arg_id st))
        else CmpReturn 0
      end.

End Sort.

(* ===================================================================== *)
(** * Tuple attribute accessor: include/tuple/format.h *)
(* ===================================================================== *)

Module Format.

Definition Datum := Z.

Definition O_TUPLE_FLAGS_FIXED_FORMAT : Z := 1.

(** [MAXALIGN(sizeof(OTupleHeaderData))] with 8-byte maximum alignment. *)
Definition SizeOfOTupleHeader : Z := 8.

Record OTupleFixedFormatSpec := mkOTupleFixedFormatSpec {
  spec_natts : Z;
  spec_len : Z
}.

(** The fields of [FormData_pg_attribute] the accessor reads. *)
Record FormData_pg_attribute := mkAttr {
  attlen : Z;
  attbyval : bool;
  attcacheoff : Z
}.

Definition TupleDesc := list FormData_pg_attribute.

Definition default_attr : FormData_pg_attribute := mkAttr 0 false (-1).

Definition TupleDescAttr (desc : TupleDesc) (i : Z) : FormData_pg_attribute :=
  nth (Z.to_nat i) desc default_attr.

(** An [OTuple]: its format flags, the address of its data, the bytes of
    memory, the datum [fetchatt] reads for an attribute at an address,
    and the [hasnulls] and [natts] fields of the [OTupleHeaderData] a
    variable-format tuple starts with.  [walk] is the datum the sequential
    tuple reader yields for an attribute number. *)
Record OTuple := mkOTuple {
  formatFlags : Z;
  data : Z;
  byte_at : Z -> Z;
  fetchatt : FormData_pg_attribute -> Z -> Datum;
  hdr_hasnulls : bool;
  hdr_natts : Z;
  walk : Z -> Datum
}.

(** PostgreSQL's [att_isnull(ATT, BITS)]:
    [!((BITS)[(ATT) >> 3] & (1 << ((ATT) & 0x07)))]. *)
Definition att_isnull (att : Z) (tup : OTuple) (bits : Z) : bool :=
  Z.land (byte_at tup (bits + Z.shiftr att 3)) (Z.shiftl 1 (Z.land att 7)) =? 0.

(** Modelled from the spec: [o_toast_nocachegetattr] (src/tuple/format.c,
    not in this tree) walks the fields with the tuple reader.  Fixed-format
    tuples never carry nulls, so an attribute below [spec->natts] is read
    as a value and one at or past it is null; a variable-format tuple's
    attribute is null past the header's [natts] or where its null bitmap
    says so. *)
Definition o_toast_nocachegetattr (tup : OTuple) (attnum : Z) (tupleDesc : TupleDesc)
  (spec : OTupleFixedFormatSpec) : Datum * bool :=
  if negb (Z.land (formatFlags tup) O_TUPLE_FLAGS_FIXED_FORMAT =? 0) then
    (if attnum - 1 <? spec_natts spec then (walk tup attnum, false) else (0, true))
  else if attnum - 1 >=? hdr_natts tup then (0, true)
  else if hdr_hasnulls tup && att_isnull (attnum - 1) tup (data tup + SizeOfOTupleHeader)
  then (0, true)
  else (walk tup attnum, false).

(** The [o_fastgetattr] macro, returning the datum and [*isnull]
    ([*isnull] starts false; [AssertMacro(attnum > 0)] is left out). *)
Definition o_fastgetattr (tup : OTuple) (attnum : Z) (tupleDesc : TupleDesc)
  (spec : OTupleFixedFormatSpec) : Datum * bool :=
  let att := TupleDescAttr tupleDesc (attnum - 1) in
  if negb (Z.land (formatFlags tup) O_TUPLE_FLAGS_FIXED_FORMAT =? 0) then
    if attnum - 1 <? spec_natts spec then
      if attcacheoff att >=? 0 then
        (fetchatt tup att (data tup + attcacheoff att), false)
      else o_toast_nocachegetattr tup attnum tupleDesc spec
    else (0, true)
  else if negb (hdr_hasnulls tup) then
    if attcacheoff att >=? 0 then
      (fetchatt tup att (data tup + SizeOfOTupleHeader + attcacheoff att), false)
    else o_toast_nocachegetattr tup attnum tupleDesc spec
  else if att_isnull (attnum - 1) tup (data tup + SizeOfOTupleHeader) then (0, true)
  else o_toast_nocachegetattr tup attnum tupleDesc spec.

End Format.

(* ===================================================================== *)
(** * Facts about the buffer cache *)
(* ===================================================================== *)

Module OBuffersFacts.
Import OBuffers.

(** ** Write, unlink and the cached descriptor *)

(** 8 blocks per file, one group of four buffers, tag 0 unversioned. *)
Definition rt_desc : OBuffersDesc :=
  mkOBuffersDesc (8 * ORIOLEDB_BLCKSZ) 4 (fun _ => 0) (fun _ => None).

Definition rt_init : OBuffersState :=
  o_buffers_shmem_init rt_desc (fun _ => None) (fun _ => zero_bytes) 0.

Definition rt_src : Bytes := fun _ => 1.

(** A read of block 0 leaves file 0 of tag 0 as the cached open file; the
    file is then unlinked. *)
Definition rt_prefix : M unit :=
  o_buffers_read rt_desc zero_bytes 0 0 1 ;;;
  o_buffers_unlink_files_range rt_desc 0 0 0.

(** ** Version fallback *)

(** Tag 0 is configured at version 2 with a callback that zeroes byte 0; on
    disk only "T.1" (file 0, version 1) exists, filled with the byte 5. *)
Definition vu_desc : OBuffersDesc :=
  mkOBuffersDesc (2 * ORIOLEDB_BLCKSZ) 4 (fun t => if t =? 0 then 2 else 0)
    (fun t => if t =? 0
              then Some (fun (b : Bytes) _ _ _ =>
                           (true, fun x => if x =? 0 then 0 else b x))
              else None).

Definition vu_file_v1 : Bytes := fun _ => 5.

Definition vu_init : OBuffersState :=
  o_buffers_shmem_init vu_desc
    (fun n => if FileName_eqb n (mkFileName 0 0 1) then Some 0 else None)
    (fun _ => vu_file_v1) 1.

(** ** Unlinking a range of files *)

Definition ul_desc : OBuffersDesc :=
  mkOBuffersDesc (2 * ORIOLEDB_BLCKSZ) 4 (fun t => if t =? 0 then 1 else 0)
    (fun _ => None).

Definition ul_init : OBuffersState :=
  o_buffers_shmem_init ul_desc (fun _ => None) (fun _ => zero_bytes) 0.

(** A cache over [ul_init] holding, of tag 0, dirty block 8 and clean
    block 9 (file 4) and dirty block 2 (file 1); a file of [ul_desc] holds
    two blocks. *)
Definition ul_dirty : OBuffersState :=
  set_groups ul_init
    [[mkOBuffer 8 (-1) 0 0 1 true (fun _ => 1);
      mkOBuffer 2 (-1) 0 0 1 true (fun _ => 1);
      mkOBuffer 9 (-1) 0 0 1 false (fun _ => 1);
      empty_buffer]].

(** The names unlink_files_range removes, in the order it removes them:
    files [first..last], each from version [version[tag]] down to 0. *)
Definition unlink_order (desc : OBuffersDesc) (tg first last : Z) : list FileName :=
  flat_map (fun i =>
              map (fun k => mkFileName tg (first + Z.of_nat i) (Z.of_nat k))
                (rev (seq 0 (S (Z.to_nat (version desc tg))))))
    (seq 0 (Z.to_nat (last - first + 1))).

(** The effect of the wipe on one buffer, stated by file number. *)
Definition wiped_by_files (desc : OBuffersDesc) (tg first last : Z) (b : OBuffer)
  : OBuffer :=
  if dirty b && (tag b =? tg) && (first <=? blockNum b / blocks_per_file desc)
     && (blockNum b / blocks_per_file desc <=? last)
  then mkOBuffer (-1) (shadowBlockNum b) 0 (shadowTag b) (usageCount b) false
         (data b)
  else b.


(** ** Lemmas on unlink_files_range *)

Definition version_names (tg f : Z) (v : nat) : list FileName :=
  map (fun k => mkFileName tg f (Z.of_nat k)) (rev (seq 0 (S v))).

Definition in_versions (tg f : Z) (v : nat) (n : FileName) : bool :=
  (fnTag n =? tg) && (fnNum n =? f) && (0 <=? fnVersion n)
  && (fnVersion n <=? Z.of_nat v).

Lemma version_names_S tg f v :
  version_names tg f (S v) = mkFileName tg f (Z.of_nat (S v)) :: version_names tg f v.
Proof.
  unfold version_names. rewrite (seq_S (S v)), rev_app_distr. reflexivity.
Qed.

Lemma set_fs_set_fs s d1 i1 n1 u1 d2 i2 n2 u2 :
  set_fs (set_fs s d1 i1 n1 u1) d2 i2 n2 u2 = set_fs s d2 i2 n2 u2.
Proof. destruct s; reflexivity. Qed.

Lemma set_fs_fields s d i n u :
  dir (set_fs s d i n u) = d /\ inodes (set_fs s d i n u) = i /\
  nextInode (set_fs s d i n u) = n /\ unlinked (set_fs s d i n u) = u /\
  groups (set_fs s d i n u) = groups s.
Proof. destruct s; repeat split. Qed.

Ltac zbool :=
  repeat match goal with
  | |- context [Z.eqb ?a ?b] => destruct (Z.eqb_spec a b)
  | |- context [Z.leb ?a ?b] => destruct (Z.leb_spec a b)
  | |- context [Z.ltb ?a ?b] => destruct (Z.ltb_spec a b)
  end; simpl; try reflexivity; try lia.

Lemma unlink_versions_effect tg f v : forall s,
  exists d',
    unlink_versions tg f v s =
      Ok tt (set_fs s d' (inodes s) (nextInode s)
               (unlinked s ++ version_names tg f v)) /\
    forall n, d' n = if in_versions tg f v n then None else dir s n.
Proof.
  induction v as [|v IH]; intro s.
  - eexists. split.
    + reflexivity.
    + intro n. unfold in_versions, FileName_eqb; simpl.
      destruct n as [t m w]; simpl. zbool.
  - simpl. unfold bind at 1. unfold unlink at 1.
    set (s1 := set_fs s _ _ _ _).
    destruct (IH s1) as [d' [Hrun Hd]].
    exists d'. split.
    + rewrite Hrun, version_names_S. unfold s1. rewrite set_fs_set_fs.
      destruct s. cbn -[version_names]. rewrite <- app_assoc. reflexivity.
    + intro n. rewrite Hd. unfold s1. simpl.
      unfold in_versions, FileName_eqb. destruct n as [t m w]; simpl.
      zbool.
Qed.

Lemma flat_map_seq_shift {B} (g : nat -> list B) k n :
  flat_map g (seq (S k) n) = flat_map (fun i => g (S i)) (seq k n).
Proof.
  revert k. induction n as [|n IH]; intro k; [reflexivity|].
  simpl. rewrite IH. reflexivity.
Qed.

Lemma unlink_files_loop_effect desc tg n : forall first s,
  exists d',
    unlink_files_loop desc tg n first s =
      Ok tt (set_fs s d' (inodes s) (nextInode s)
               (unlinked s ++
                flat_map (fun i => version_names tg (first + Z.of_nat i)
                                     (Z.to_nat (version desc tg))) (seq 0 n))) /\
    forall nm, d' nm =
      if (fnTag nm =? tg) && (first <=? fnNum nm) && (fnNum nm <? first + Z.of_nat n)
         && (0 <=? fnVersion nm)
         && (fnVersion nm <=? Z.of_nat (Z.to_nat (version desc tg)))
      then None else dir s nm.
Proof.
  induction n as [|n IH]; intros first s.
  - exists (dir s). split.
    + simpl. rewrite app_nil_r. destruct s; reflexivity.
    + intro nm. destruct nm as [t m w]; simpl. zbool.
  - cbn [unlink_files_loop]. unfold bind at 1. unfold unlink_file.
    destruct (unlink_versions_effect tg first (Z.to_nat (version desc tg)) s)
      as [d1 [H1 Hd1]].
    rewrite H1.
    destruct (IH (first + 1) (set_fs s d1 (inodes s) (nextInode s)
       (unlinked s ++ version_names tg first (Z.to_nat (version desc tg)))))
      as [d2 [H2 Hd2]].
    exists d2. split.
    + rewrite H2, set_fs_set_fs.
      destruct (set_fs_fields s d1 (inodes s) (nextInode s)
        (unlinked s ++ version_names tg first (Z.to_nat (version desc tg))))
        as [_ [Hi [Hn [Hu _]]]].
      rewrite Hi, Hn, Hu.
      assert (E : flat_map (fun i => version_names tg (first + Z.of_nat i)
                                      (Z.to_nat (version desc tg))) (seq 0 (S n))
                  = version_names tg first (Z.to_nat (version desc tg)) ++
                    flat_map (fun i => version_names tg (first + 1 + Z.of_nat i)
                                         (Z.to_nat (version desc tg))) (seq 0 n)).
      { cbn [seq flat_map]. rewrite Z.add_0_r, flat_map_seq_shift. f_equal.
        apply flat_map_ext. intro i. f_equal. lia. }
      rewrite E, <- app_assoc. reflexivity.
    + intro nm. rewrite Hd2. simpl. rewrite Hd1.
      unfold in_versions. destruct nm as [t m w]; simpl. zbool.
Qed.

Lemma mul_le_div a b k : 0 < k -> (a * k <=? b) = (a <=? b / k).
Proof.
  intro Hk. pose proof (Z.div_mod b k ltac:(lia)).
  pose proof (Z.mod_pos_bound b k Hk).
  destruct (Z.leb_spec (a * k) b), (Z.leb_spec a (b / k)); try reflexivity; nia.
Qed.

Lemma le_mul_pred_div b l k : 0 < k -> (b <=? (l + 1) * k - 1) = (b / k <=? l).
Proof.
  intro Hk. pose proof (Z.div_mod b k ltac:(lia)).
  pose proof (Z.mod_pos_bound b k Hk).
  destruct (Z.leb_spec b ((l + 1) * k - 1)), (Z.leb_spec (b / k) l);
    try reflexivity; nia.
Qed.

(** C1 (code_bug witness).  After the cached file of tag 0 is unlinked, a
    write of nine blocks over it followed by a read of the same range does
    not give back the written bytes: byte 0 reads 0 where 1 was written. *)
Theorem rw_roundtrip_lost_after_unlink :
  match (rt_prefix ;;; o_buffers_write rt_desc rt_src 0 0 (9 * ORIOLEDB_BLCKSZ) ;;;
         o_buffers_read rt_desc zero_bytes 0 0 (9 * ORIOLEDB_BLCKSZ)) rt_init with
  | Ok dst _ => dst 0 = 0 /\ rt_src 0 = 1
  | Panic _ => False
  end.
Proof. vm_compute. split; reflexivity. Qed.

(** C2 (code_bug witness).  With "T.2" absent and "T.1" present, open_file
    creates and opens "T.2" (version 2 is recorded), and the read returns
    the empty new file's zero bytes instead of the bytes of "T.1". *)
Theorem open_file_creates_current_version :
  match o_buffers_read vu_desc zero_bytes 0 0 2 vu_init with
  | Ok dst s =>
    curFileVersion s = 2 /\ curFileName s = mkFileName 0 0 2 /\
    dst 1 = 0 /\ vu_file_v1 1 = 5
  | Panic _ => False
  end.
Proof. vm_compute. repeat split; reflexivity. Qed.

(** C9 (counterexample).  A clean resident block of file 4 (block 8) is
    still resident after unlink_files_range(tag 0, 3, 5). *)
Lemma unlink_files_range_keeps_clean_block :
  match (o_buffers_read ul_desc zero_bytes 0 (8 * ORIOLEDB_BLCKSZ) 1 ;;;
         o_buffers_unlink_files_range ul_desc 0 3 5) ul_init with
  | Ok _ s => existsb (fun b => (tag b =? 0) && (blockNum b =? 8))
                (List.concat (groups s)) = true
  | Panic _ => False
  end.
Proof. vm_compute. reflexivity. Qed.

(** C9 (amended).  o_buffers_unlink_files_range(tag, first, last) turns every
    buffer that is dirty, has that tag and holds a block of files
    first..last into an empty buffer (block -1, tag 0, clean) without
    writing it (no file's contents change), leaves every other buffer as it
    was (clean buffers of the range included), then unlinks every version
    of files first..last, each file from version[tag] down to the
    unversioned name. *)
Theorem unlink_files_range_effect (desc : OBuffersDesc) (tg first last : Z)
  (s : OBuffersState)
  (Hbpf : 0 < blocks_per_file desc) (Hver : 0 <= version desc tg) :
  exists s',
    o_buffers_unlink_files_range desc tg first last s = Ok tt s' /\
    groups s' = map (map (wiped_by_files desc tg first last)) (groups s) /\
    unlinked s' = unlinked s ++ unlink_order desc tg first last /\
    (forall n, dir s' n =
      if (fnTag n =? tg) && (first <=? fnNum n) && (fnNum n <=? last)
         && (0 <=? fnVersion n) && (fnVersion n <=? version desc tg)
      then None else dir s n) /\
    inodes s' = inodes s.
Proof.
  unfold o_buffers_unlink_files_range, o_buffers_wipe, bind, get, put.
  cbv beta iota.
  set (s0 := set_groups s _).
  destruct (unlink_files_loop_effect desc tg (Z.to_nat (last - first + 1)) first s0)
    as [d' [Hrun Hd]].
  rewrite Hrun. eexists. split; [reflexivity|].
  destruct (set_fs_fields s0 d' (inodes s0) (nextInode s0)
    (unlinked s0 ++ flat_map (fun i => version_names tg (first + Z.of_nat i)
      (Z.to_nat (version desc tg))) (seq 0 (Z.to_nat (last - first + 1)))))
    as [Hdir [Hino [_ [Hul Hgr]]]].
  split; [|split; [|split]].
  - rewrite Hgr. unfold s0. destruct s; simpl.
    apply map_ext. intro grp. apply map_ext. intro b.
    unfold wipe_buffer, wiped_by_files.
    rewrite (mul_le_div first (blockNum b) _ Hbpf).
    rewrite (le_mul_pred_div (blockNum b) last _ Hbpf).
    reflexivity.
  - rewrite Hul. unfold s0. destruct s; reflexivity.
  - intro n. rewrite Hdir, Hd. unfold s0. destruct s; simpl.
    rewrite (Z2Nat.id (version desc tg) Hver).
    assert (E : Z.of_nat (Z.to_nat (last - first + 1)) = Z.max 0 (last - first + 1))
      by lia.
    rewrite E. destruct n as [t m w]; simpl. zbool.
  - rewrite Hino. unfold s0. destruct s; reflexivity.
Qed.

Lemma unlink_files_range_effect_witness :
  exists s',
    o_buffers_unlink_files_range ul_desc 0 3 5 ul_dirty = Ok tt s' /\
    map (map blockNum) (groups s') = [[-1; 2; 9; -1]] /\
    map (map dirty) (groups s') = [[false; true; false; false]] /\
    inodes s' = inodes ul_dirty.
Proof.
  destruct (unlink_files_range_effect ul_desc 0 3 5 ul_dirty
              ltac:(vm_compute; reflexivity) ltac:(vm_compute; discriminate))
    as [s' [E [Hg [_ [_ Hi]]]]].
  exists s'. split; [exact E|]. rewrite Hg.
  split; [vm_compute; reflexivity|]. split; [vm_compute; reflexivity|]. exact Hi.
Defined.

End OBuffersFacts.


(* ===================================================================== *)
(** * Facts about the fast path *)
(* ===================================================================== *)

Module FastpathFacts.
Import Fastpath.

(** PostgreSQL's default btree opclasses for float4 and tid, the two
    entries of [arraySearchDescs] filled from the catalog. *)
Definition pg_default_opclass (t am : Z) : Z :=
  if (t =? FLOAT4OID) && (am =? BTREE_AM_OID) then 1970
  else if (t =? TIDOID) && (am =? BTREE_AM_OID) then 2789
  else InvalidOid.

Definition DATEOID : Z := 1082.
Definition DATE_BTREE_OPS_OID : Z := 3122.

Definition meta0 : FastpathFindDownlinkMeta :=
  mkMeta false false 0 0 [] [] [] [] false OInvalidInMemoryBlkno 0 0.

(** ** A unique secondary index on an int4 column: the non-leaf tuple holds
    the int4 key and a date primary-key column; a unique-bound search
    compares only the unique field. *)
Definition uq_index : OIndexDescr :=
  mkOIndexDescr oIndexUnique [INT4OID; DATEOID] 2 8 2 1
    [mkOIndexField INT4_BTREE_OPS_OID false;
     mkOIndexField DATE_BTREE_OPS_OID false].

Definition uq_key : SearchKey :=
  KeyBound [mkValueBound (VInt 5) INT4OID false false].

(** ** An index on two int8 columns, searched with a non-leaf key. *)
Definition i8_index : OIndexDescr :=
  mkOIndexDescr oIndexRegular [INT8OID; INT8OID] 2 16 2 2
    [mkOIndexField INT8_BTREE_OPS_OID false;
     mkOIndexField INT8_BTREE_OPS_OID true].

Definition i8_key : SearchKey :=
  KeyTuple (fun i => if i =? 1 then (VInt 7, false) else (VInt 0, true)).

(** ** A non-leaf page of an int4 index with one chunk: the chunk starts at
    byte 64 with the minus-infinity item followed by the items with keys
    10, 20, 30, 40; the chunk's hikey is 50. *)
Definition int4_index : OIndexDescr :=
  mkOIndexDescr oIndexRegular [INT4OID] 1 4 1 1
    [mkOIndexField INT4_BTREE_OPS_OID false].

Definition int4_page : BTreePageHeader :=
  mkPage 7 false true false 1 (64 + 88) 5 208
    [mkChunkDesc 64 0 true 200]
    (fun a => if a =? 96 then VInt 10
              else if a =? 112 then VInt 20
              else if a =? 128 then VInt 30
              else if a =? 144 then VInt 40
              else if a =? 200 then VInt 50
              else VInt 0).

Definition int4_meta (k : Z) : FastpathFindDownlinkMeta :=
  can_fastpath_find_downlink pg_default_opclass true false int4_index
    (KeyBound [mkValueBound (VInt k) INT4OID false false]) BTreeKeyBound meta0.

(** The base of the key array of chunk 0 of [int4_page]. *)
Definition int4_base : Z := 88.

(** ** PostgreSQL's btree order on float8 ([float8_cmp_internal]): NaN is
    equal to NaN and greater than every other value. *)
Definition float8_cmp_internal (a b : float) : Z :=
  if PrimFloat.is_nan a then (if PrimFloat.is_nan b then 0 else 1)
  else if PrimFloat.is_nan b then -1
  else if PrimFloat.ltb a b then -1
  else if PrimFloat.ltb b a then 1
  else 0.

(** A float8 array [1.0, NaN] at stride 8, ascending under
    [float8_cmp_internal]. *)
Definition nan_mem : PageMem :=
  fun a => if a =? 0 then VFloat PrimFloat.one else VFloat PrimFloat.nan.

(** ** Lemmas *)

Lemma find_desc_in gdo t d :
  find_array_search_desc_by_typeid gdo t = Some d ->
  exists d0, In d0 arraySearchDescs /\ typeid d0 = t /\ typeid d = typeid d0 /\
             opcid d = resolved_opcid gdo d0.
Proof.
  unfold find_array_search_desc_by_typeid.
  destruct (find (fun d => typeid d =? t) arraySearchDescs) as [d0|] eqn:E;
    [|discriminate].
  intro H. injection H as <-.
  apply find_some in E as [Hin Ht]. apply Z.eqb_eq in Ht.
  exists d0. repeat split; assumption.
Qed.

Lemma fastpath_keys_loop_spec gdo typ0 flds n : forall i off offs fs tys,
  fastpath_keys_loop gdo typ0 flds i n off = Some (offs, fs, tys) ->
  List.length tys = n /\
  Forall (fun t => exists d, In d arraySearchDescs /\ typeid d = t) tys /\
  forall j, (j < n)%nat ->
    exists d, In d arraySearchDescs /\
              resolved_opcid gdo d = opclass (nth (i + j) flds default_field).
Proof.
  induction n as [|n IH]; intros i off offs fs tys H.
  - injection H as <- <- <-. repeat split; [constructor|]. intros j Hj; lia.
  - simpl in H.
    destruct (find_array_search_desc_by_typeid gdo typ0) as [d|] eqn:Ed;
      [|discriminate].
    destruct (opcid d =? opclass (nth i flds default_field)) eqn:Eo;
      [|discriminate].
    simpl in H.
    destruct (fastpath_keys_loop gdo typ0 flds (S i) n
                (TYPEALIGN (align d) off + typlen d)) as [[[offs' fs'] tys']|] eqn:Er;
      [|discriminate].
    injection H as <- <- <-.
    destruct (IH _ _ _ _ _ Er) as [Hl [Hf Hj]].
    destruct (find_desc_in gdo typ0 d Ed) as [d0 [Hin [Ht [Htd Hop]]]].
    apply Z.eqb_eq in Eo.
    split; [simpl; congruence|]. split.
    + constructor; [exists d0; split; [assumption | congruence] | assumption].
    + intros j Hjn. destruct j as [|j].
      * exists d0. split; [assumption|]. rewrite Nat.add_0_r. congruence.
      * destruct (Hj j ltac:(lia)) as [d1 [Hin1 Ho1]].
        exists d1. split; [assumption|]. rewrite Ho1. f_equal. f_equal. lia.
Qed.

(** ** Claims *)

(** C3 (counterexample).  For the unique-bound search of [uq_index] the
    fast path is enabled although the second attribute (a date column) has
    an opclass no supported descriptor carries: the loop only checks the
    first [meta->numKeys] fields. *)
Lemma can_fastpath_unsupported_trailing_attribute :
  enabled (can_fastpath_find_downlink pg_default_opclass true false uq_index
             uq_key BTreeKeyUniqueLowerBound meta0) = true /\
  existsb (fun d => resolved_opcid pg_default_opclass d =? DATE_BTREE_OPS_OID)
    arraySearchDescs = false.
Proof. vm_compute. split; reflexivity. Qed.

(** C3 (amended).  can_fastpath_find_downlink enables the fast path only if
    the search is a FETCH descent on a non-system tree, the non-leaf tuple
    descriptor has at most FASTPATH_FIND_DOWNLINK_MAX_KEYS (4) attributes,
    nonLeafSpec.natts equals that count, meta->numKeys is nUniqueFields for
    the unique-bound key types, nKeyFields for other key types unless the
    index is a TOAST or bridge index, nonLeafSpec.natts for those, each of
    the first numKeys fields has the opclass of a supported descriptor, and
    the search key decomposes for types of supported descriptors. *)
Theorem can_fastpath_enabled_requires gdo isFetch isSysTree id key keyType meta :
  enabled (can_fastpath_find_downlink gdo isFetch isSysTree id key keyType meta)
    = true ->
  isFetch = true /\ isSysTree = false /\
  nonLeafTupdesc_natts id <= FASTPATH_FIND_DOWNLINK_MAX_KEYS /\
  nonLeafSpec_natts id = nonLeafTupdesc_natts id /\
  numKeys (can_fastpath_find_downlink gdo isFetch isSysTree id key keyType meta)
    = fastpath_num_keys id keyType /\
  (forall i, 0 <= i < fastpath_num_keys id keyType ->
     exists d, In d arraySearchDescs /\
               resolved_opcid gdo d = opclass (nth (Z.to_nat i) (fields id) default_field)) /\
  exists types,
    List.length types = Z.to_nat (fastpath_num_keys id keyType) /\
    Forall (fun t => exists d, In d arraySearchDescs /\ typeid d = t) types /\
    find_downlink_get_keys id key keyType (fastpath_num_keys id keyType) types <> None.
Proof.
  unfold can_fastpath_find_downlink.
  destruct (negb isFetch || isSysTree) eqn:E1; [intro H; discriminate H|].
  apply orb_false_iff in E1 as [E1 E2]. apply negb_false_iff in E1.
  destruct ((nonLeafTupdesc_natts id >=? FASTPATH_FIND_DOWNLINK_MAX_KEYS)
            || negb (nonLeafSpec_natts id =? nonLeafTupdesc_natts id)) eqn:E3;
    [intro H; discriminate H|].
  apply orb_false_iff in E3 as [E3 E4]. apply negb_false_iff in E4.
  rewrite Z.geb_leb in E3. apply Z.leb_gt in E3. apply Z.eqb_eq in E4.
  destruct (fastpath_keys_loop gdo (nth 0 (nonLeafTupdesc_atttypid id) InvalidOid)
              (fields id) 0 (Z.to_nat (fastpath_num_keys id keyType)) 0)
    as [[[offs fs] tys]|] eqn:E5; [|intro H; discriminate H].
  destruct (find_downlink_get_keys id key keyType (fastpath_num_keys id keyType) tys)
    as [[[inc vals] fls]|] eqn:E6; [|intro H; discriminate H].
  intros _.
  destruct (fastpath_keys_loop_spec _ _ _ _ _ _ _ _ _ E5) as [Hl [Hf Hj]].
  split; [assumption|]. split; [assumption|]. split; [lia|]. split; [assumption|].
  split; [reflexivity|]. split.
  - intros i Hi. destruct (Hj (Z.to_nat i) ltac:(lia)) as [d [Hin Ho]].
    exists d. split; [assumption|]. rewrite Ho. reflexivity.
  - exists tys. split; [assumption|]. split; [assumption|]. rewrite E6. discriminate.
Qed.

Lemma can_fastpath_enabled_requires_witness :
  enabled (can_fastpath_find_downlink pg_default_opclass true false i8_index
             i8_key BTreeKeyNonLeafKey meta0) = true /\
  nonLeafTupdesc_natts i8_index <= FASTPATH_FIND_DOWNLINK_MAX_KEYS.
Proof.
  split; [vm_compute; reflexivity|].
  apply (can_fastpath_enabled_requires pg_default_opclass true false i8_index
           i8_key BTreeKeyNonLeafKey meta0).
  vm_compute. reflexivity.
Defined.

(** C4 (counterexample).  An exclusive search for 20 over the keys
    10, 20, 30, 40 ends with lower = 1 and upper = 2, and the downlink
    returned is the item with key 20 (item 1 = upper - 1), not item
    lower - 1 = 0 (key 10). *)
Lemma fastpath_exclusive_equal_key_selects_upper :
  inclusive (int4_meta 20) = false /\
  int4_array_search (mem int4_page) (int4_base + 8) 16 0 4 (VInt 20) = (1, 2) /\
  match fastpath_find_downlink int4_page int4_page 3 (int4_meta 20) with
  | (OBTreeFastPathFindOK, m, Some (loc, th)) =>
      th = item_tuphdr m int4_base 1 /\ read_int (mem int4_page) (th + 8) = 20 /\
      th <> item_tuphdr m int4_base (1 - 1)
  | _ => False
  end.
Proof. vm_compute. repeat split; discriminate || reflexivity. Qed.

(** C4 (amended).  Whenever fastpath_find_downlink returns OK with its
    header and locator filled in for an exclusive search, the chunk index
    ci is such that, with count and base the key array of chunk ci and
    (lower, upper) the result of the search loop over it, the downlink is
    the item at index upper - 1 of that array (the rightmost key <= the
    search key) when upper <> 0 in chunk 0 or upper > 0 in a later chunk;
    when upper = 0 in chunk 0 it is the minus-infinity downlink stored
    before the item array; and when upper <= 0 in a chunk ci > 0 it is the
    last item of chunk ci - 1, which is keys-fixed and passes the size
    check (otherwise the result is Slowpath). *)
Theorem fastpath_find_downlink_exclusive img hdr blkno meta m' loc th :
  fastpath_find_downlink img hdr blkno meta =
    (OBTreeFastPathFindOK, m', Some (loc, th)) ->
  inclusive meta = false ->
  exists ci chunk chunkSize cic count base lower upper,
    chunkKeysFixed (chunk_desc hdr ci) = true /\
    chunk_geometry img hdr ci = (chunk, chunkSize, cic) /\
    chunk_base ci chunk cic = (count, base) /\
    chunk_size_ok m' chunkSize cic count = true /\
    keys_search (mem hdr) (base + MAXALIGN sizeof_BTreeNonLeafTuphdr)
      (MAXALIGN sizeof_BTreeNonLeafTuphdr + meta_length m') m' 0
      (Z.to_nat (numKeys m')) 0 count = (lower, upper) /\
    ( ((ci = 0 /\ upper <> 0) \/ (ci <> 0 /\ 0 < upper)) /\
      th = item_tuphdr m' base (upper - 1) /\ locChunkOffset loc = ci /\
      locItemOffset loc = (if ci =? 0 then upper else upper - 1)
    \/ ci = 0 /\ upper = 0 /\ th = base - MAXALIGN sizeof_BTreeNonLeafTuphdr /\
      locChunkOffset loc = 0 /\ locItemOffset loc = 0
    \/ ci <> 0 /\ upper <= 0 /\ chunkKeysFixed (chunk_desc hdr (ci - 1)) = true /\
      exists chunk' chunkSize' cic' count' base',
        chunk_geometry img hdr (ci - 1) = (chunk', chunkSize', cic') /\
        chunk_base (ci - 1) chunk' cic' = (count', base') /\
        chunk_size_ok m' chunkSize' cic' count' = true /\
        locChunkOffset loc = ci - 1 /\ locItemOffset loc = cic' - 1 /\
        th = (if (ci - 1 =? 0) && (cic' - 1 =? 0)
              then base' - MAXALIGN sizeof_BTreeNonLeafTuphdr
              else item_tuphdr m' base' (count' - 1))).
Proof.
  intros H Hinc.
  unfold fastpath_find_downlink in H.
  set (found := if cacheValid meta && _ && _ then _ else _) in H.
  assert (Hm : inclusive (let '(_, _, m) := found in m) = false /\
               numKeys (let '(_, _, m) := found in m) = numKeys meta).
  { unfold found. destruct (cacheValid meta && _ && _); [auto|].
    destruct (fastpath_find_chunk img hdr meta) as [r ci].
    destruct r; simpl; auto. }
  clearbody found. destruct found as [[result ci] m].
  simpl in Hm. destruct Hm as [Hinc' _].
  destruct result; try discriminate.
  destruct (chunkKeysFixed (chunk_desc hdr ci)) eqn:Efix; [|discriminate].
  cbv beta iota zeta in H.
  destruct (chunk_geometry img hdr ci) as [[chunk chunkSize] cic] eqn:Eg.
  destruct (chunk_base ci chunk cic) as [count base] eqn:Eb.
  destruct (chunk_size_ok m chunkSize cic count) eqn:Eok; [|discriminate].
  cbv beta iota zeta in H.
  destruct (keys_search (mem hdr) (base + MAXALIGN sizeof_BTreeNonLeafTuphdr)
              (MAXALIGN sizeof_BTreeNonLeafTuphdr + meta_length m) m 0
              (Z.to_nat (numKeys m)) 0 count) as [lower upper] eqn:Es.
  rewrite Hinc' in H.
  destruct (page_changed hdr (changeCount img)) eqn:Ech; [discriminate|].
  destruct (ci =? 0) eqn:Eci.
  - apply Z.eqb_eq in Eci. subst ci.
    destruct (upper =? 0) eqn:Eu; cbv beta iota zeta in H; injection H as <- <- <-;
      exists 0, chunk, chunkSize, cic, count, base, lower, upper;
      do 5 (split; [assumption|]).
    + apply Z.eqb_eq in Eu. subst upper. right. left. repeat split.
    + apply Z.eqb_neq in Eu. left. repeat split; auto.
  - apply Z.eqb_neq in Eci.
    destruct (upper >? 0) eqn:Eu.
    + cbv beta iota zeta in H. injection H as <- <- <-. apply Z.gtb_lt in Eu.
      exists ci, chunk, chunkSize, cic, count, base, lower, upper.
      do 5 (split; [assumption|]).
      left. repeat split; auto.
      simpl. apply Z.eqb_neq in Eci. rewrite Eci. reflexivity.
    + rewrite Z.gtb_ltb in Eu. apply Z.ltb_ge in Eu.
      destruct (chunkKeysFixed (chunk_desc hdr (ci - 1))) eqn:Efix';
        [|discriminate].
      cbv beta iota zeta in H.
      destruct (chunk_geometry img hdr (ci - 1)) as [[chunk' chunkSize'] cic'] eqn:Eg'.
      destruct (chunk_base (ci - 1) chunk' cic') as [count' base'] eqn:Eb'.
      destruct (chunk_size_ok m chunkSize' cic' count') eqn:Eok'; [|discriminate].
      cbv beta iota zeta in H. injection H as <- <- <-.
      exists ci, chunk, chunkSize, cic, count, base, lower, upper.
      do 5 (split; [assumption|]).
      right. right. repeat split; auto.
      exists chunk', chunkSize', cic', count', base'. repeat split; auto.
Qed.

Lemma fastpath_find_downlink_exclusive_witness :
  inclusive (int4_meta 25) = false /\
  exists m' loc th,
  fastpath_find_downlink int4_page int4_page 3 (int4_meta 25) =
    (OBTreeFastPathFindOK, m', Some (loc, th)) /\
  locItemOffset loc = 2 /\ th = item_tuphdr m' int4_base 1 /\
  exists ci chunk chunkSize cic count base lower upper,
    chunkKeysFixed (chunk_desc int4_page ci) = true /\
    chunk_geometry int4_page int4_page ci = (chunk, chunkSize, cic) /\
    chunk_base ci chunk cic = (count, base) /\
    chunk_size_ok m' chunkSize cic count = true /\
    keys_search (mem int4_page) (base + MAXALIGN sizeof_BTreeNonLeafTuphdr)
      (MAXALIGN sizeof_BTreeNonLeafTuphdr + meta_length m') m' 0
      (Z.to_nat (numKeys m')) 0 count = (lower, upper) /\
    ( ((ci = 0 /\ upper <> 0) \/ (ci <> 0 /\ 0 < upper)) /\
      th = item_tuphdr m' base (upper - 1) /\ locChunkOffset loc = ci /\
      locItemOffset loc = (if ci =? 0 then upper else upper - 1)
    \/ ci = 0 /\ upper = 0 /\ th = base - MAXALIGN sizeof_BTreeNonLeafTuphdr /\
      locChunkOffset loc = 0 /\ locItemOffset loc = 0
    \/ ci <> 0 /\ upper <= 0 /\ chunkKeysFixed (chunk_desc int4_page (ci - 1)) = true /\
      exists chunk' chunkSize' cic' count' base',
        chunk_geometry int4_page int4_page (ci - 1) = (chunk', chunkSize', cic') /\
        chunk_base (ci - 1) chunk' cic' = (count', base') /\
        chunk_size_ok m' chunkSize' cic' count' = true /\
        locChunkOffset loc = ci - 1 /\ locItemOffset loc = cic' - 1 /\
        th = (if (ci - 1 =? 0) && (cic' - 1 =? 0)
              then base' - MAXALIGN sizeof_BTreeNonLeafTuphdr
              else item_tuphdr m' base' (count' - 1))).
Proof.
  split; [vm_compute; reflexivity|].
  exists (meta_set_cache (int4_meta 25) 3 7 0), (mkLocator 64 5 88 2 0),
    (item_tuphdr (meta_set_cache (int4_meta 25) 3 7 0) int4_base 1).
  split; [vm_compute; reflexivity|].
  split; [vm_compute; reflexivity|].
  split; [reflexivity|].
  apply (fastpath_find_downlink_exclusive int4_page int4_page 3 (int4_meta 25)).
  - vm_compute. reflexivity.
  - vm_compute. reflexivity.
Defined.

(** C5 (code_bug witness).  float8_array_search over the float8 array
    [1.0, NaN], ascending under PostgreSQL's float8 order, with key NaN and
    bounds [0, 2) sets lower = upper = 0, while the elements equal to NaN
    under that order are exactly index 1, so the range should be [1, 2). *)
Theorem float8_array_search_nan_key :
  float8_array_search nan_mem 0 8 0 2 (VFloat PrimFloat.nan) = (0, 0) /\
  float8_cmp_internal (read_float nan_mem 0) (read_float nan_mem 8) = -1 /\
  float8_cmp_internal (read_float nan_mem 0) PrimFloat.nan = -1 /\
  float8_cmp_internal (read_float nan_mem 8) PrimFloat.nan = 0.
Proof. vm_compute. repeat split; reflexivity. Qed.

End FastpathFacts.


(* ===================================================================== *)
(** * Facts about the builder *)
(* ===================================================================== *)

Module BuildFacts.
Import Build.

Section Invariant.

Variables Page OTuple SplitItems : Type.
Variable ops : PageOps Page OTuple SplitItems.
Variable fillfactor : Z.

Definition is_leaf_write (e : BuildEvent) : bool :=
  match e with EvPageWrite l _ => l =? 0 | _ => false end.

(** The number of pages written from stack level 0. *)
Definition leaf_writes (tr : list BuildEvent) : nat :=
  List.length (filter is_leaf_write tr).

Definition split_ratio_ok (e : BuildEvent) : Prop :=
  match e with EvSplitLocation _ r => r = 9 # 10 | _ => True end.

(** The builder's invariant: the counter is the number of leaf-page
    writes (as a [uint32]), and every oracle call so far got 0.9. *)
Definition build_inv (st : BuildState Page OTuple) : Prop :=
  leafPagesNum st = Z.of_nat (leaf_writes (trace st)) mod UINT32_MOD /\
  Forall split_ratio_ok (trace st).

Lemma leaf_writes_app tr e :
  leaf_writes (tr ++ [e]) = (leaf_writes tr + if is_leaf_write e then 1 else 0)%nat.
Proof.
  unfold leaf_writes. rewrite filter_app, length_app.
  simpl. destruct (is_leaf_write e); reflexivity.
Qed.

Lemma build_inv_stack_set st l it :
  build_inv st -> build_inv (stack_set st l it).
Proof. destruct st; auto. Qed.

Lemma build_inv_set_root_level st r :
  build_inv st -> build_inv (set_root_level st r).
Proof. destruct st; auto. Qed.

Lemma build_inv_split st l r :
  build_inv st -> r = 9 # 10 -> build_inv (emit st (EvSplitLocation l r)).
Proof.
  destruct st as [s rl n tr]; unfold build_inv, emit; simpl.
  intros [H1 H2] Hr. rewrite leaf_writes_app. simpl. rewrite Nat.add_0_r.
  split; [assumption|]. apply Forall_app. split; [assumption|].
  constructor; [exact Hr | constructor].
Qed.

Lemma build_inv_write st l page :
  build_inv st ->
  build_inv (let '(_, st') := write_page ops st l page in
             if l =? 0 then inc_leafPagesNum st' else st').
Proof.
  destruct st as [s rl n tr]; unfold build_inv, write_page, emit; simpl.
  intros [H1 H2].
  assert (HF : Forall split_ratio_ok
                 (tr ++ [EvPageWrite l (perform_page_io_build ops page)])).
  { apply Forall_app. split; [assumption|]. repeat constructor. }
  destruct (l =? 0) eqn:El; unfold inc_leafPagesNum; simpl;
    rewrite leaf_writes_app; simpl; rewrite El.
  - split; [|assumption]. rewrite H1, Nat2Z.inj_add, Zplus_mod_idemp_l. reflexivity.
  - rewrite Nat.add_0_r. split; assumption.
Qed.

Lemma put_item_to_stack_inv fuel : forall level it st st',
  build_inv st ->
  put_item_to_stack ops fillfactor fuel level it st = Some st' ->
  build_inv st'.
Proof.
  induction fuel as [|fuel IH]; intros level it st st' Hinv H; [discriminate|].
  cbn [put_item_to_stack] in H.
  set (cur := stack_get ops st level) in H.
  destruct (if split_not_forced ops fillfactor (img cur) it then _ else false).
  - injection H as <-. apply build_inv_stack_set. assumption.
  - unfold stack_page_split in H.
    destruct (make_split_items ops _ it) as [items off].
    set (st1 := emit st _) in H.
    assert (H1 : build_inv st1) by (apply build_inv_split; auto).
    destruct (split_pages ops _ _ items _ it) as [lpage rpage].
    cbv beta iota zeta in H.
    match type of H with
    | context [if level =? root_level st1 then ?a else ?b] =>
      assert (H2 : build_inv (snd (if level =? root_level st1 then a else b)));
      [destruct (level =? root_level st1);
       [destruct (mark_new_root ops _ _ _);
        simpl; apply build_inv_set_root_level, build_inv_stack_set; assumption
       | assumption]|];
      destruct (if level =? root_level st1 then a else b) as [lp st2]
    end.
    simpl in H2.
    pose proof (build_inv_write st2 level
                  (if level =? 0 then lp else set_n_ondisk ops lp) H2) as H3.
    destruct (write_page ops st2 level _) as [downlink st3].
    destruct (page_hikey ops _) as [hk hks].
    eapply IH; [|exact H].
    apply build_inv_stack_set. exact H3.
Qed.

Lemma finish_loop_inv n : forall i st st',
  build_inv st ->
  finish_loop ops fillfactor i n st = Some st' ->
  build_inv st'.
Proof.
  induction n as [|n IH]; intros i st st' Hinv H.
  - injection H as <-. assumption.
  - cbn [finish_loop] in H.
    set (cur := stack_get ops st i) in H.
    set (page := split_page_by_chunks ops _) in H.
    set (st1 := stack_set st i _) in H.
    pose proof (build_inv_write st1 i page
                  (build_inv_stack_set _ _ _ Hinv)) as H1.
    destruct (write_page ops st1 i page) as [downlink st2].
    destruct (put_downlink_to_stack ops fillfactor (i + 1) downlink _ _ _)
      as [st3|] eqn:E; [|discriminate].
    eapply IH; [|exact H].
    eapply put_item_to_stack_inv; [exact H1 | exact E].
Qed.

Lemma fold_add_inv tuples : forall st st',
  build_inv st ->
  fold_left (btree_build_state_add_tuple ops fillfactor) tuples (Some st)
    = Some st' ->
  build_inv st'.
Proof.
  induction tuples as [|t ts IH]; intros st st' Hinv H.
  - injection H as <-. assumption.
  - simpl in H. unfold put_tuple_to_stack in H at 1.
    destruct (put_item_to_stack ops fillfactor _ _ _ st) as [st1|] eqn:E.
    + eapply IH; [|exact H]. eapply put_item_to_stack_inv; [exact Hinv | exact E].
    + exfalso. clear -H. induction ts as [|t' ts IHts]; [discriminate|].
      apply IHts. exact H.
Qed.

Lemma build_inv_start : build_inv (btree_build_state_start ops).
Proof. split; [reflexivity | constructor]. Qed.

Lemma btree_build_inv tuples :
  match btree_write_index_data ops fillfactor tuples with
  | Some (st, h) => hdrLeafPagesNum h = leafPagesNum st /\ build_inv st
  | None => True
  end.
Proof.
  unfold btree_write_index_data.
  destruct (fold_left _ tuples _) as [st|] eqn:E; [|exact I].
  pose proof (fold_add_inv tuples _ _ build_inv_start E) as Hst.
  unfold btree_build_state_finish.
  destruct (finish_loop ops fillfactor 0 _ st) as [st1|] eqn:E1; [|exact I].
  pose proof (finish_loop_inv _ _ _ _ Hst E1) as H1.
  set (root := stack_get ops st1 _).
  set (page := split_page_by_chunks ops _).
  set (st2 := stack_set st1 _ _).
  assert (H2 : build_inv st2) by (apply build_inv_stack_set; assumption).
  pose proof (build_inv_write st2 (root_level st2) page H2) as H3.
  destruct (write_page ops st2 (root_level st2) page) as [downlink st3] eqn:Ew.
  assert (Hrl3 : root_level st3 = root_level st2).
  { unfold write_page in Ew. injection Ew as _ <-. destruct st2; reflexivity. }
  cbv beta iota zeta in H3 |- *. rewrite Hrl3. split; [reflexivity | exact H3].
Qed.

End Invariant.

(** ** A concrete builder: pages as lists of item sizes in an 8192-byte
    block with a 64-byte header, an oracle splitting in the middle. *)

Definition sum_sizes (p : list Z) : Z := fold_right Z.add 0 p.

Definition list_ops : PageOps (list Z) Z (list Z) :=
  mkPageOps (list Z) Z (list Z)
    (fun t => t)
    0
    (fun _ => [])
    (fun p => ORIOLEDB_BLCKSZ - 64 - sum_sizes p)
    (fun p sz => sz <=? ORIOLEDB_BLCKSZ - 64 - sum_sizes p)
    (fun p it => p ++ [MAXALIGN (itemSize it) + itemHeaderSize it])
    (fun _ => [])
    (fun _ p => p)
    (fun p it => (p ++ [MAXALIGN (itemSize it) + itemHeaderSize it],
                  Z.of_nat (List.length p)))
    (fun items _ _ => Z.of_nat (List.length items) / 2)
    (fun _ _ items lc _ => (firstn (Z.to_nat lc) items, skipn (Z.to_nat lc) items))
    (fun _ parent l => (parent, l))
    (fun p => p)
    (fun _ => (0, 8))
    (fun p => p)
    (fun _ p => p)
    (fun p => Z.of_nat (List.length p)).

(** Six 1000-byte tuples: with fillfactor 70 the sixth forces a split of
    the leaf page. *)
Definition six_tuples : list Z := repeat 1000 6.

Definition has_split_with_ratio (tr : list BuildEvent) (q : Q) : bool :=
  existsb (fun e => match e with
                    | EvSplitLocation _ r => Qeq_bool r q
                    | _ => false
                    end) tr.

(** ** Claims *)

(** C6 (counterexample).  A build with fillfactor 70 splits a page, and
    the oracle call records the ratio 9/10, not 70/100. *)
Lemma build_fillfactor70_split_ratio :
  match btree_write_index_data list_ops 70 six_tuples with
  | Some (st, _) =>
      has_split_with_ratio (trace st) (9 # 10) = true /\
      has_split_with_ratio (trace st) (70 # 100) = false
  | None => False
  end.
Proof. vm_compute. split; reflexivity. Qed.

(** C6 (amended).  For every page-level implementation and every
    fillfactor, every call of the split-location oracle made by a bulk
    build that completes passes the target fill ratio 9/10 (the literal
    0.9), whatever the configured fillfactor; the fillfactor only decides
    when a page must be split. *)
Theorem build_split_oracle_ratio Page OTuple SplitItems
  (ops : PageOps Page OTuple SplitItems) (fillfactor : Z) (tuples : list OTuple) :
  match btree_write_index_data ops fillfactor tuples with
  | Some (st, _) =>
      forall level r, In (EvSplitLocation level r) (trace st) -> r = 9 # 10
  | None => True
  end.
Proof.
  pose proof (btree_build_inv _ _ _ ops fillfactor tuples) as H.
  destruct (btree_write_index_data ops fillfactor tuples) as [[st h]|];
    [|exact I].
  destruct H as [_ [_ HF]]. intros level r Hin.
  rewrite Forall_forall in HF. exact (HF _ Hin).
Qed.

(** C7.  When a bulk build completes, the leafPagesNum recorded in the
    header equals the meta-page counter, which equals the number of pages
    written from level 0 (modulo 2^32, the counter being a uint32), and
    exactly that number when it is below 2^32. *)
Theorem build_leafPagesNum_counts_leaf_writes Page OTuple SplitItems
  (ops : PageOps Page OTuple SplitItems) (fillfactor : Z) (tuples : list OTuple) :
  match btree_write_index_data ops fillfactor tuples with
  | Some (st, h) =>
      hdrLeafPagesNum h = leafPagesNum st /\
      leafPagesNum st = Z.of_nat (leaf_writes (trace st)) mod UINT32_MOD /\
      (Z.of_nat (leaf_writes (trace st)) < UINT32_MOD ->
       hdrLeafPagesNum h = Z.of_nat (leaf_writes (trace st)))
  | None => True
  end.
Proof.
  pose proof (btree_build_inv _ _ _ ops fillfactor tuples) as H.
  destruct (btree_write_index_data ops fillfactor tuples) as [[st h]|];
    [|exact I].
  destruct H as [Hh [Hn _]].
  split; [assumption|]. split; [assumption|].
  intro Hlt. rewrite Hh, Hn. apply Z.mod_small. lia.
Qed.

(** The invariant holds after every tuple added, not only at the end. *)
Lemma build_inv_after_each_tuple Page OTuple SplitItems
  (ops : PageOps Page OTuple SplitItems) (fillfactor : Z) (tuples : list OTuple) n st :
  fold_left (btree_build_state_add_tuple ops fillfactor) (firstn n tuples)
    (Some (btree_build_state_start ops)) = Some st ->
  leafPagesNum st = Z.of_nat (leaf_writes (trace st)) mod UINT32_MOD.
Proof.
  intro H. apply (fold_add_inv _ _ _ ops fillfactor _ _ _ (build_inv_start _ _ _ ops)) in H.
  apply H.
Qed.

End BuildFacts.

(* ===================================================================== *)
(** * Facts about the index-build sort comparator *)
(* ===================================================================== *)

Module SortFacts.
Import Sort.

(** The comparison of key column [k] on two leaf tuples, as the loop
    computes it. *)
Definition key_cmp (st : Tuplesortstate) (ltup rtup : OTuple) (k : nat) : Z :=
  let sk := sort_key st k in
  let '(d1, n1) := ltup (ssup_attno sk) in
  let '(d2, n2) := rtup (ssup_attno sk) in
  ApplySortComparator d1 n1 d2 n2 sk.

Definition key_null (st : Tuplesortstate) (ltup : OTuple) (k : nat) : bool :=
  snd (ltup (ssup_attno (sort_key st k))).

(** The columns [nkey .. nkey + n - 1] the loop compares. *)
Definition compared_from (st : Tuplesortstate) (nkey n : nat) : list nat :=
  filter (fun j => negb (OIgnoreColumn (arg_id st) (Z.of_nat j))) (seq nkey n).

Definition compared_cols (st : Tuplesortstate) : list nat :=
  compared_from st 1 (Z.to_nat (nKeys st - 1)).

Definition lead_cmp (st : Tuplesortstate) (a b : SortTuple) : Z :=
  ApplySortComparator (datum1 a) (isnull1 a) (datum1 b) (isnull1 b) (sort_key st 0).

Definition full_cmp (st : Tuplesortstate) (a b : SortTuple) : Z :=
  let sk0 := sort_key st 0 in
  if abbrev_converter sk0 then
    let '(d1, n1) := tuple a (ssup_attno sk0) in
    let '(d2, n2) := tuple b (ssup_attno sk0) in
    ApplySortAbbrevFullComparator d1 n1 d2 n2 sk0
  else 0.

(** All compared key columns equal: the leading key (and its full value
    when abbreviated) and every later key column that is not ignored. *)
Definition keys_equal (st : Tuplesortstate) (a b : SortTuple) : bool :=
  (lead_cmp st a b =? 0) && (full_cmp st a b =? 0) &&
  forallb (fun j => key_cmp st (tuple a) (tuple b) j =? 0) (compared_cols st).

(** A null among the compared key columns of the left tuple. *)
Definition keys_seen_null (st : Tuplesortstate) (a : SortTuple) : bool :=
  isnull1 a || existsb (key_null st (tuple a)) (compared_cols st).

Definition int_cmp (x y : Datum) : Z :=
  match Z.compare x y with Lt => -1 | Eq => 0 | Gt => 1 end.

Definition int_field : OIndexField := mkOIndexField false true int_cmp false (fun _ _ => 0).

(** A unique index on two integer key columns (leaf attributes 1 and 2). *)
Definition uq2_index : OIndexDescr :=
  mkOIndexDescr "uq2" true 2 2 [int_field; int_field] (fun _ => false) (fun i => i).

(** A leaf tuple with leading key [k] and second key column [c]. *)
Definition tup2 (k : Z) (c : option Z) : SortTuple :=
  mkSortTuple k false
    (fun attno => if attno =? 1 then (k, false)
                  else match c with Some v => (v, false) | None => (0, true) end).

Lemma compare_keys_spec (st : Tuplesortstate) (ltup rtup : OTuple) (n : nat) :
  forall nkey h,
    (forallb (fun j => key_cmp st ltup rtup j =? 0) (compared_from st nkey n) = true ->
     compare_keys st ltup rtup nkey n h =
       inr (h || existsb (key_null st ltup) (compared_from st nkey n))) /\
    (forallb (fun j => key_cmp st ltup rtup j =? 0) (compared_from st nkey n) = false ->
     exists c, c <> 0 /\ compare_keys st ltup rtup nkey n h = inl c).
Proof.
  induction n as [|n IH]; intros nkey h.
  - unfold compared_from; simpl. split; [intros _; now rewrite orb_false_r | discriminate].
  - unfold compared_from in *. simpl seq. simpl filter. simpl compare_keys.
    destruct (OIgnoreColumn (arg_id st) (Z.of_nat nkey)) eqn:Eig; simpl negb;
      cbv iota.
    + apply IH.
    + destruct (ltup (ssup_attno (sort_key st nkey))) as [d1 n1] eqn:El.
      destruct (rtup (ssup_attno (sort_key st nkey))) as [d2 n2] eqn:Er.
      assert (Ek : key_cmp st ltup rtup nkey = ApplySortComparator d1 n1 d2 n2 (sort_key st nkey))
        by (unfold key_cmp; rewrite El, Er; reflexivity).
      assert (En : key_null st ltup nkey = n1) by (unfold key_null; rewrite El; reflexivity).
      simpl forallb. simpl existsb. rewrite Ek, En.
      destruct (ApplySortComparator d1 n1 d2 n2 (sort_key st nkey) =? 0) eqn:Ec;
        simpl andb; simpl negb; cbv iota.
      * destruct (IH (S nkey) (h || n1)) as [IH1 IH2]. split.
        -- intro Hf. rewrite (IH1 Hf). f_equal. now rewrite orb_assoc.
        -- exact IH2.
      * split; [discriminate | intros _].
        exists (ApplySortComparator d1 n1 d2 n2 (sort_key st nkey)).
        split; [apply Z.eqb_neq; exact Ec | reflexivity].
Qed.

(** C8 (counterexample): for the unique index [uq2_index] on two integer
    key columns, two tuples with the same non-null leading key and a null
    second key column compare equal and raise no uniqueness violation,
    although all their key columns compare equal and no null is on the
    leading key: a null on a later key column also suppresses the error. *)
Lemma sort_unique_null_second_key_no_error :
  let st := tuplesort_begin_orioledb_index uq2_index in
  let a := tup2 5 None in
  let b := tup2 5 None in
  unique uq2_index = true /\
  isnull1 a = false /\ isnull1 b = false /\ datum1 a = datum1 b /\
  keys_equal st a b = true /\
  comparetup_orioledb_index a b st = CmpReturn 0.
Proof. vm_compute. repeat split. Qed.

(** C8 (amended): for a sort created for a unique index, when all compared
    key columns of the two tuples are equal (the leading key, its full value
    when abbreviated, and every later key column not ignored) the comparator
    raises the uniqueness violation naming the index if no null was seen on
    any of these columns, and returns 0 without raising if one was (on the
    leading key or on a later one); otherwise it returns a nonzero result. *)
Theorem comparetup_unique_violation (idx : OIndexDescr) (Hu : unique idx = true)
  (a b : SortTuple) :
  let st := tuplesort_begin_orioledb_index idx in
  (keys_equal st a b = true ->
   comparetup_orioledb_index a b st =
     if keys_seen_null st a then CmpReturn 0 else CmpUniqueViolation (name idx)) /\
  (keys_equal st a b = false ->
   exists c, c <> 0 /\ comparetup_orioledb_index a b st = CmpReturn c).
Proof.
  cbv zeta.
  remember (tuplesort_begin_orioledb_index idx) as st eqn:Est.
  assert (Hen : enforceUnique st = true) by (rewrite Est; exact Hu).
  assert (Hid : arg_id st = idx) by (rewrite Est; reflexivity).
  unfold keys_equal, keys_seen_null, comparetup_orioledb_index.
  fold (lead_cmp st a b).
  change (if abbrev_converter (sort_key st 0) then
            let '(d1, n1) := tuple a (ssup_attno (sort_key st 0)) in
            let '(d2, n2) := tuple b (ssup_attno (sort_key st 0)) in
            ApplySortAbbrevFullComparator d1 n1 d2 n2 (sort_key st 0)
          else 0) with (full_cmp st a b).
  destruct (compare_keys_spec st (tuple a) (tuple b) (Z.to_nat (nKeys st - 1)) 1 (isnull1 a))
    as [K1 K2].
  unfold compared_cols.
  destruct (lead_cmp st a b =? 0) eqn:E1; simpl andb; simpl negb; cbv iota.
  - destruct (full_cmp st a b =? 0) eqn:E2; simpl andb; simpl negb; cbv iota.
    + destruct (forallb _ _) eqn:E3.
      * split; [intros _ | discriminate].
        rewrite (K1 eq_refl). rewrite Hen, Hid. simpl andb.
        destruct (isnull1 a || _); reflexivity.
      * split; [discriminate | intros _].
        destruct (K2 eq_refl) as [c [Hc ->]]. exists c. split; [exact Hc | reflexivity].
    + split; [discriminate | intros _].
      exists (full_cmp st a b). split; [apply Z.eqb_neq; exact E2 | reflexivity].
  - split; [discriminate | intros _].
    exists (lead_cmp st a b). split; [apply Z.eqb_neq; exact E1 | reflexivity].
Qed.

Lemma comparetup_unique_violation_witness :
  unique uq2_index = true /\
  comparetup_orioledb_index (tup2 5 (Some 7)) (tup2 5 (Some 7))
    (tuplesort_begin_orioledb_index uq2_index) = CmpUniqueViolation "uq2".
Proof.
  split; [reflexivity |].
  pose proof (comparetup_unique_violation uq2_index eq_refl (tup2 5 (Some 7)) (tup2 5 (Some 7)))
    as [H _].
  exact (H eq_refl).
Defined.

End SortFacts.

(* ===================================================================== *)
(** * Facts about o_fastgetattr *)
(* ===================================================================== *)

Module FormatFacts.
Import Format.

(** A fixed-format tuple of two int4 attributes at offsets 0 and 4. *)
Definition fixed_tuple : OTuple :=
  mkOTuple 1 1000 (fun _ => 0) (fun _ addr => addr) false 0 (fun n => 100 + n).

Definition int4_desc : TupleDesc := [mkAttr 4 true 0; mkAttr 4 true 4; mkAttr 4 true (-1)].

Definition two_int4_spec : OTupleFixedFormatSpec := mkOTupleFixedFormatSpec 2 8.

(** C10: on a fixed-format tuple, [o_fastgetattr] with [attnum - 1 >=
    spec->natts] returns [(Datum) NULL] with [*isnull] set, whatever the
    tuple's data, and with [attnum - 1 < spec->natts] it never reports
    null. *)
Theorem o_fastgetattr_fixed_format (tup : OTuple) (attnum : Z) (tupleDesc : TupleDesc)
  (spec : OTupleFixedFormatSpec)
  (Hfixed : Z.land (formatFlags tup) O_TUPLE_FLAGS_FIXED_FORMAT <> 0)
  (Hatt : attnum > 0) :
  (attnum - 1 >= spec_natts spec -> o_fastgetattr tup attnum tupleDesc spec = (0, true)) /\
  (attnum - 1 < spec_natts spec -> snd (o_fastgetattr tup attnum tupleDesc spec) = false).
Proof.
  unfold o_fastgetattr, o_toast_nocachegetattr.
  apply Z.eqb_neq in Hfixed. rewrite Hfixed. simpl negb. cbv iota.
  split; intro H.
  - replace (attnum - 1 <? spec_natts spec) with false by (symmetry; apply Z.ltb_ge; lia).
    reflexivity.
  - replace (attnum - 1 <? spec_natts spec) with true by (symmetry; apply Z.ltb_lt; lia).
    destruct (attcacheoff _ >=? 0); reflexivity.
Qed.

Lemma o_fastgetattr_fixed_format_witness :
  o_fastgetattr fixed_tuple 3 int4_desc two_int4_spec = (0, true) /\
  snd (o_fastgetattr fixed_tuple 2 int4_desc two_int4_spec) = false.
Proof.
  split.
  - apply (proj1 (o_fastgetattr_fixed_format fixed_tuple 3 int4_desc two_int4_spec
                    ltac:(vm_compute; discriminate) ltac:(lia))).
    vm_compute. discriminate.
  - apply (proj2 (o_fastgetattr_fixed_format fixed_tuple 2 int4_desc two_int4_spec
                    ltac:(vm_compute; discriminate) ltac:(lia))).
    vm_compute. reflexivity.
Defined.

End FormatFacts.

(* ===================================================================== *)
(** * More facts about the fast path: the stride searches, the chunk
      search and the chunk cache *)
(* ===================================================================== *)

Module FastpathMoreFacts.
Import Fastpath.

(** The element at index [i] of a stride array at [p]. *)
Definition elem_int (mem : PageMem) (p stride i : Z) : Z := read_int mem (p + i * stride).
Definition elem_tid (mem : PageMem) (p stride i : Z) : Z * Z := read_tid mem (p + i * stride).

(** An int array sorted ascending over [lower, upper). *)
Definition int_sorted (mem : PageMem) (p stride lower upper : Z) : Prop :=
  forall i j, lower <= i /\ i <= j < upper -> elem_int mem p stride i <= elem_int mem p stride j.

(** A TID array sorted ascending under [tid_cmp] over [lower, upper). *)
Definition tid_sorted (mem : PageMem) (p stride lower upper : Z) : Prop :=
  forall i j, lower <= i /\ i <= j < upper ->
    tid_cmp (elem_tid mem p stride i) (elem_tid mem p stride j) <= 0.

(** A search routine that keeps its result inside the bounds it is given. *)
Definition bounds_ok (f : ArraySearchFunc) : Prop :=
  forall mem p stride lower upper key, lower <= upper ->
    let '(lo, up) := f mem p stride lower upper key in lower <= lo /\ lo <= up /\ up <= upper.

(** The routines the descriptor table hands out. *)
Definition array_search_funcs : list ArraySearchFunc := map func arraySearchDescs.

Definition page_count (img : BTreePageHeader) : Z :=
  if rightmost img then chunksCount img - 1 else chunksCount img.

Lemma bsearch_loop_bounds {V} (read : Z -> V) go p stride fuel :
  forall low high, low <= high ->
    low <= bsearch_loop read go p stride fuel low high <= high.
Proof.
  induction fuel as [|fuel IH]; intros low high H; simpl; [lia|].
  destruct (low <? high) eqn:E; [|lia].
  apply Z.ltb_lt in E.
  assert (0 <= (high - low) / 2 < high - low)
    by (split; [apply Z.div_pos | apply Z.div_lt]; lia).
  destruct (go _).
  - pose proof (IH (low + (high - low) / 2 + 1) high ltac:(lia)); lia.
  - pose proof (IH low (low + (high - low) / 2) ltac:(lia)); lia.
Qed.

(** The binary search loop over a predicate that holds on a prefix of
    [low, high): the result is the end of that prefix. *)
Lemma bsearch_loop_spec {V} (read : Z -> V) go p stride fuel :
  forall low high, low <= high -> (Z.to_nat (high - low) <= fuel)%nat ->
    (forall i j, low <= i /\ i <= j < high ->
       go (read (p + j * stride)) = true -> go (read (p + i * stride)) = true) ->
    let r := bsearch_loop read go p stride fuel low high in
    low <= r <= high /\
    (forall i, low <= i < r -> go (read (p + i * stride)) = true) /\
    (forall i, r <= i < high -> go (read (p + i * stride)) = false).
Proof.
  induction fuel as [|fuel IH]; intros low high H Hf Hm; simpl.
  - assert (low = high) by lia. subst. repeat split; intros; lia.
  - destruct (low <? high) eqn:E.
    2:{ apply Z.ltb_ge in E. assert (low = high) by lia. subst.
        repeat split; intros; lia. }
    apply Z.ltb_lt in E.
    set (mid := low + (high - low) / 2).
    assert (Hmid : low <= mid < high).
    { unfold mid. assert (0 <= (high - low) / 2 < high - low)
        by (split; [apply Z.div_pos | apply Z.div_lt]; lia). lia. }
    destruct (go (read (p + mid * stride))) eqn:G.
    + destruct (IH (mid + 1) high ltac:(lia) ltac:(lia)
                  ltac:(intros i j Hij; apply Hm; lia)) as [B [L R]].
      repeat split; try lia.
      * intros i Hi. destruct (Z.le_gt_cases i mid).
        -- apply (Hm i mid); [lia | exact G].
        -- apply L. lia.
      * intros i Hi. apply R. lia.
    + destruct (IH low mid ltac:(lia) ltac:(lia)
                  ltac:(intros i j Hij; apply Hm; lia)) as [B [L R]].
      repeat split; try lia.
      * intros i Hi. apply L. lia.
      * intros i Hi. destruct (Z.lt_ge_cases i mid).
        -- apply R. lia.
        -- destruct (go (read (p + i * stride))) eqn:Gi; [|reflexivity].
           rewrite (Hm mid i ltac:(lia) Gi) in G. discriminate.
Qed.

(** The two loops of a stride search over predicates [lt] and [le] that
    hold on prefixes of the range. *)
Lemma stride_search_spec {V} (read : Z -> V) (lt le : V -> bool) p stride lower upper :
  lower <= upper ->
  (forall i j, lower <= i /\ i <= j < upper ->
     lt (read (p + j * stride)) = true -> lt (read (p + i * stride)) = true) ->
  (forall i j, lower <= i /\ i <= j < upper ->
     le (read (p + j * stride)) = true -> le (read (p + i * stride)) = true) ->
  let '(lo, up) := stride_search read lt le p stride lower upper in
  lower <= lo <= up /\ up <= upper /\
  (forall i, lower <= i < lo -> lt (read (p + i * stride)) = true) /\
  (forall i, lo <= i < upper -> lt (read (p + i * stride)) = false) /\
  (forall i, lo <= i < up -> le (read (p + i * stride)) = true) /\
  (forall i, up <= i < upper -> le (read (p + i * stride)) = false).
Proof.
  intros H Hlt Hle. unfold stride_search.
  destruct (bsearch_loop_spec read lt p stride (Z.to_nat (upper - lower)) lower upper
              H ltac:(lia) Hlt) as [B1 [L1 R1]].
  set (lo := bsearch_loop read lt p stride (Z.to_nat (upper - lower)) lower upper) in *.
  destruct (bsearch_loop_spec read le p stride (Z.to_nat (upper - lo)) lo upper
              ltac:(lia) ltac:(lia) ltac:(intros i j Hij; apply Hle; lia))
    as [B2 [L2 R2]].
  repeat split; try lia; assumption.
Qed.

Lemma stride_search_bounds {V} (read : Z -> V) (lt le : V -> bool) p stride lower upper :
  lower <= upper ->
  let '(lo, up) := stride_search read lt le p stride lower upper in
  lower <= lo /\ lo <= up /\ up <= upper.
Proof.
  intro H. unfold stride_search.
  pose proof (bsearch_loop_bounds read lt p stride (Z.to_nat (upper - lower)) lower upper H).
  set (lo := bsearch_loop read lt p stride (Z.to_nat (upper - lower)) lower upper) in *.
  pose proof (bsearch_loop_bounds read le p stride (Z.to_nat (upper - lo)) lo upper
                ltac:(lia)). lia.
Qed.

(** The shared int body of [int4_array_search], [int8_array_search] and
    [oid_array_search] on a sorted array. *)
Lemma int_stride_search_spec mem p stride lower upper key :
  lower <= upper -> int_sorted mem p stride lower upper ->
  let '(lo, up) := stride_search (read_int mem) (fun v => v <? key) (fun v => v <=? key)
                     p stride lower upper in
  lower <= lo <= up /\ up <= upper /\
  (forall i, lower <= i < lo -> elem_int mem p stride i < key) /\
  (forall i, lo <= i < up -> elem_int mem p stride i = key) /\
  (forall i, up <= i < upper -> key < elem_int mem p stride i).
Proof.
  intros H Hs. unfold int_sorted, elem_int in *.
  pose proof (stride_search_spec (read_int mem) (fun v => v <? key) (fun v => v <=? key)
                p stride lower upper H) as S.
  destruct (stride_search _ _ _ p stride lower upper) as [lo up].
  destruct S as [B1 [B2 [L1 [R1 [L2 R2]]]]].
  - intros i j Hij Hj. apply Z.ltb_lt in Hj. apply Z.ltb_lt.
    specialize (Hs i j Hij). lia.
  - intros i j Hij Hj. apply Z.leb_le in Hj. apply Z.leb_le.
    specialize (Hs i j Hij). lia.
  - repeat split; try lia.
    + intros i Hi. apply Z.ltb_lt. apply L1. lia.
    + intros i Hi. specialize (R1 i ltac:(lia)). specialize (L2 i Hi).
      apply Z.ltb_ge in R1. apply Z.leb_le in L2. lia.
    + intros i Hi. specialize (R2 i Hi). apply Z.leb_gt in R2. lia.
Qed.

Lemma tid_cmp_cases (a b : Z * Z) :
  let '(b1, o1) := a in let '(b2, o2) := b in
  (tid_cmp a b < 0 <-> b1 < b2 \/ (b1 = b2 /\ o1 < o2)) /\
  (tid_cmp a b = 0 <-> b1 = b2 /\ o1 = o2) /\
  (tid_cmp a b > 0 <-> b1 > b2 \/ (b1 = b2 /\ o1 > o2)).
Proof.
  destruct a as [b1 o1], b as [b2 o2]. unfold tid_cmp.
  destruct (b1 <? b2) eqn:E1; [apply Z.ltb_lt in E1 | apply Z.ltb_ge in E1];
  [repeat split; intros; lia|].
  destruct (b2 <? b1) eqn:E2; [apply Z.ltb_lt in E2 | apply Z.ltb_ge in E2];
  [repeat split; intros; lia|].
  destruct (o1 <? o2) eqn:E3; [apply Z.ltb_lt in E3 | apply Z.ltb_ge in E3];
  [repeat split; intros; lia|].
  destruct (o2 <? o1) eqn:E4; [apply Z.ltb_lt in E4 | apply Z.ltb_ge in E4];
  repeat split; intros; lia.
Qed.

Ltac tid_cmp_cases_tac :=
  repeat match goal with
  | |- context [?x <? ?y] =>
    let E := fresh "E" in
    destruct (x <? y) eqn:E; [apply Z.ltb_lt in E | apply Z.ltb_ge in E]
  | H : context [?x <? ?y] |- _ =>
    let E := fresh "E" in
    destruct (x <? y) eqn:E; [apply Z.ltb_lt in E | apply Z.ltb_ge in E]
  end.

Lemma tid_cmp_le_trans a b c :
  tid_cmp a b <= 0 -> tid_cmp b c <= 0 -> tid_cmp a c <= 0.
Proof.
  destruct a as [a1 a2], b as [b1 b2], c as [c1 c2]. unfold tid_cmp.
  intros H1 H2. tid_cmp_cases_tac; lia.
Qed.

Lemma tid_cmp_lt_le_trans a b c :
  tid_cmp a b <= 0 -> tid_cmp b c < 0 -> tid_cmp a c < 0.
Proof.
  destruct a as [a1 a2], b as [b1 b2], c as [c1 c2]. unfold tid_cmp.
  intros H1 H2. tid_cmp_cases_tac; lia.
Qed.

(** X1.  On an int array sorted ascending over [lower, upper), each of
    [int4_array_search], [int8_array_search] and [oid_array_search] with a
    key [key] returns [(lo, up)] with [lower <= lo /\ lo <= up /\ up <= upper], where
    [lo] is the first index whose element is [>= key] and [up] the first
    whose element is [> key]: [lo, up) is exactly the range of elements
    equal to [key]. *)
Theorem int_array_search_equal_range mem p stride lower upper key
  (Hlu : lower <= upper) (Hs : int_sorted mem p stride lower upper) :
  forall f, In f [int4_array_search; int8_array_search; oid_array_search] ->
  let '(lo, up) := f mem p stride lower upper (VInt key) in
  lower <= lo <= up /\ up <= upper /\
  (forall i, lower <= i < lo -> elem_int mem p stride i < key) /\
  (forall i, lo <= i < up -> elem_int mem p stride i = key) /\
  (forall i, up <= i < upper -> key < elem_int mem p stride i).
Proof.
  intros f Hf. simpl in Hf.
  destruct Hf as [<- | [<- | [<- | []]]];
    exact (int_stride_search_spec mem p stride lower upper key Hlu Hs).
Qed.

(** X2.  On a TID array sorted ascending by [tid_cmp] over [lower, upper),
    [tid_array_search] returns [(lo, up)] with [lower <= lo /\ lo <= up /\ up <= upper]:
    the elements before [lo] compare below the key, those in [lo, up) are
    the key itself, and those from [up] on compare above it. *)
Theorem tid_array_search_equal_range mem p stride lower upper blk off
  (Hlu : lower <= upper) (Hs : tid_sorted mem p stride lower upper) :
  let '(lo, up) := tid_array_search mem p stride lower upper (VTid blk off) in
  lower <= lo <= up /\ up <= upper /\
  (forall i, lower <= i < lo -> tid_cmp (elem_tid mem p stride i) (blk, off) < 0) /\
  (forall i, lo <= i < up -> elem_tid mem p stride i = (blk, off)) /\
  (forall i, up <= i < upper -> tid_cmp (elem_tid mem p stride i) (blk, off) > 0).
Proof.
  unfold tid_sorted, elem_tid in *. unfold tid_array_search, DatumGetItemPointer.
  pose proof (stride_search_spec (read_tid mem) (fun v => tid_cmp v (blk, off) <? 0)
                (fun v => tid_cmp v (blk, off) <=? 0) p stride lower upper Hlu) as S.
  destruct (stride_search _ _ _ p stride lower upper) as [lo up].
  destruct S as [B1 [B2 [L1 [R1 [L2 R2]]]]].
  - intros i j Hij Hj. apply Z.ltb_lt in Hj. apply Z.ltb_lt.
    exact (tid_cmp_lt_le_trans _ _ _ (Hs i j Hij) Hj).
  - intros i j Hij Hj. apply Z.leb_le in Hj. apply Z.leb_le.
    exact (tid_cmp_le_trans _ _ _ (Hs i j Hij) Hj).
  - repeat split; try lia.
    + intros i Hi. apply Z.ltb_lt. apply L1. lia.
    + intros i Hi. specialize (R1 i ltac:(lia)). specialize (L2 i Hi).
      apply Z.ltb_ge in R1. apply Z.leb_le in L2.
      pose proof (tid_cmp_cases (read_tid mem (p + i * stride)) (blk, off)) as C.
      destruct (read_tid mem (p + i * stride)) as [b o].
      destruct C as [_ [[E _] _]]. destruct (E ltac:(lia)). subst. reflexivity.
    + intros i Hi. specialize (R2 i Hi). apply Z.leb_gt in R2. lia.
Qed.

(** Keys 10, 20, 30, 40 of the key array of chunk 0 of [int4_page]. *)
Lemma int4_page_sorted : int_sorted (mem FastpathFacts.int4_page) 96 16 0 4.
Proof.
  intros i j Hij. unfold elem_int, read_int.
  assert (i = 0 \/ i = 1 \/ i = 2 \/ i = 3) as Hi by lia.
  assert (j = 0 \/ j = 1 \/ j = 2 \/ j = 3) as Hj by lia.
  destruct Hi as [-> | [-> | [-> | ->]]]; destruct Hj as [-> | [-> | [-> | ->]]];
    vm_compute; try discriminate; lia.
Qed.

Lemma int_array_search_equal_range_witness :
  int4_array_search (mem FastpathFacts.int4_page) 96 16 0 4 (VInt 30) = (2, 3) /\
  forall i, 2 <= i < 3 -> elem_int (mem FastpathFacts.int4_page) 96 16 i = 30.
Proof.
  split; [vm_compute; reflexivity|].
  pose proof (int_array_search_equal_range (mem FastpathFacts.int4_page) 96 16 0 4 30
                ltac:(lia) int4_page_sorted int4_array_search
                ltac:(simpl; left; reflexivity)) as H.
  replace (int4_array_search (mem FastpathFacts.int4_page) 96 16 0 4 (VInt 30))
    with (2, 3) in H by (vm_compute; reflexivity).
  exact (proj1 (proj2 (proj2 (proj2 H)))).
Defined.

(** A TID array (1,1), (1,5), (1,5), (2,0) at stride 6. *)
Definition tid_arr : PageMem :=
  fun a => if a =? 0 then VTid 1 1 else if a =? 6 then VTid 1 5
           else if a =? 12 then VTid 1 5 else VTid 2 0.

Lemma tid_arr_sorted : tid_sorted tid_arr 0 6 0 4.
Proof.
  intros i j Hij. unfold elem_tid, read_tid.
  assert (i = 0 \/ i = 1 \/ i = 2 \/ i = 3) as Hi by lia.
  assert (j = 0 \/ j = 1 \/ j = 2 \/ j = 3) as Hj by lia.
  destruct Hi as [-> | [-> | [-> | ->]]]; destruct Hj as [-> | [-> | [-> | ->]]];
    vm_compute; try discriminate; lia.
Qed.

Lemma tid_array_search_equal_range_witness :
  tid_array_search tid_arr 0 6 0 4 (VTid 1 5) = (1, 3) /\
  forall i, 1 <= i < 3 -> elem_tid tid_arr 0 6 i = (1, 5).
Proof.
  split; [vm_compute; reflexivity|].
  pose proof (tid_array_search_equal_range tid_arr 0 6 0 4 1 5 ltac:(lia) tid_arr_sorted) as H.
  replace (tid_array_search tid_arr 0 6 0 4 (VTid 1 5)) with (1, 3) in H
    by (vm_compute; reflexivity).
  exact (proj1 (proj2 (proj2 (proj2 H)))).
Defined.

Lemma array_search_funcs_bounds_ok f : In f array_search_funcs -> bounds_ok f.
Proof.
  intro Hf. unfold array_search_funcs in Hf. simpl in Hf.
  intros mem p stride lower upper key H.
  destruct Hf as [<- | [<- | [<- | [<- | [<- | [<- | []]]]]]];
    apply stride_search_bounds; exact H.
Qed.

Lemma no_search_bounds_ok : bounds_ok no_search.
Proof. intros mem p stride lower upper key H. simpl. lia. Qed.

Lemma keys_search_bounds mem base stride m :
  Forall (fun f => In f array_search_funcs) (funcs m) ->
  forall n i lower upper,
  let '(lo, up) := keys_search mem base stride m i n lower upper in
  (lower <= upper -> lower <= lo /\ lo <= up /\ up <= upper) /\
  (upper < lower -> lo = lower /\ up = upper).
Proof.
  intros HF. induction n as [|n IH]; intros i lower upper; simpl.
  - split; intros; lia.
  - destruct (lower <? upper) eqn:E; [apply Z.ltb_lt in E | apply Z.ltb_ge in E].
    2:{ split; intros; lia. }
    assert (Hf : bounds_ok (nth i (funcs m) no_search)).
    { destruct (Nat.lt_ge_cases i (List.length (funcs m))).
      - apply array_search_funcs_bounds_ok.
        rewrite Forall_forall in HF. apply HF, nth_In. assumption.
      - rewrite nth_overflow by assumption. apply no_search_bounds_ok. }
    assert (Hstep : forall lo up,
      (if nth i (flags m) 0 =? 0
       then nth i (funcs m) no_search mem (base + nth i (offsets m) 0) stride
              lower upper (nth i (values m) (VInt 0))
       else if negb (Z.land (nth i (flags m) 0) FASTPATH_FIND_DOWNLINK_FLAG_MINUS_INF =? 0)
       then (lower, lower)
       else if negb (Z.land (nth i (flags m) 0) FASTPATH_FIND_DOWNLINK_FLAG_PLUS_INF =? 0)
       then (upper, upper)
       else (lower, upper)) = (lo, up) -> lower <= lo /\ lo <= up /\ up <= upper).
    { intros lo up Heq.
      destruct (nth i (flags m) 0 =? 0).
      - specialize (Hf mem (base + nth i (offsets m) 0) stride lower upper
                      (nth i (values m) (VInt 0)) ltac:(lia)).
        rewrite Heq in Hf. exact Hf.
      - destruct (negb _); [injection Heq; intros; subst; lia|].
        destruct (negb _); injection Heq; intros; subst; lia. }
    destruct (if nth i (flags m) 0 =? 0 then _ else _) as [lo up] eqn:Eq.
    specialize (Hstep lo up eq_refl).
    specialize (IH (S i) lo up).
    destruct (keys_search mem base stride m (S i) n lo up) as [lo' up'].
    destruct IH as [IH1 _]. split; intros; [specialize (IH1 ltac:(lia)); lia | lia].
Qed.

(** X3.  [fastpath_find_chunk] answers [OBTreeFastPathFindOK] with chunk
    index [ci] only when the page image has fixed-size hikeys whose area
    holds exactly [count] hikeys of [meta->length] bytes ([count] being the
    number of chunks, one less on the rightmost page), [0 <= ci < count],
    and the page is neither read-blocked nor changed since the image was
    taken, provided the search functions of [meta] are among the table's
    routines. *)
Theorem fastpath_find_chunk_ok img hdr meta ci
  (HF : Forall (fun f => In f array_search_funcs) (funcs meta))
  (Hok : fastpath_find_chunk img hdr meta = (OBTreeFastPathFindOK, ci)) :
  hikeysFixed img = true /\
  hikeysEnd img - hikeyLocation (chunk_desc hdr 0) = page_count img * meta_length meta /\
  0 <= ci < page_count img /\
  readBlocked hdr = false /\ changeCount hdr = changeCount img.
Proof.
  unfold fastpath_find_chunk in Hok. unfold page_count.
  destruct (hikeysFixed img); [|discriminate]. cbv beta iota in Hok.
  set (count := if rightmost img then chunksCount img - 1 else chunksCount img) in *.
  destruct (hikeysEnd img - hikeyLocation (chunk_desc hdr 0) =? count * meta_length meta)
    eqn:Eh; [|discriminate]. apply Z.eqb_eq in Eh. cbv beta iota in Hok.
  pose proof (keys_search_bounds (mem hdr) (hikeyLocation (chunk_desc hdr 0))
                (meta_length meta) meta HF (Z.to_nat (numKeys meta)) 0 0 count) as B.
  destruct (keys_search _ _ _ _ _ _ _ _) as [lower upper].
  destruct B as [Hci Hci'].
  set (c := if inclusive meta then lower else upper) in *.
  destruct (c >=? count) eqn:Ec; [discriminate|].
  rewrite Z.geb_leb in Ec. apply Z.leb_gt in Ec.
  destruct (page_changed hdr (changeCount img)) eqn:Ep; [discriminate|].
  injection Hok; intros; subst ci.
  unfold page_changed in Ep. apply orb_false_iff in Ep. destruct Ep as [Ep1 Ep2].
  apply negb_false_iff, Z.eqb_eq in Ep2.
  repeat split; auto; try lia.
  destruct (Z_le_gt_dec 0 count);
    [specialize (Hci ltac:(lia)) | specialize (Hci' ltac:(lia))];
    unfold c in *; destruct (inclusive meta); lia.
Qed.

Lemma fastpath_find_chunk_ok_witness :
  fastpath_find_chunk FastpathFacts.int4_page FastpathFacts.int4_page
    (FastpathFacts.int4_meta 20) = (OBTreeFastPathFindOK, 0) /\
  0 <= 0 < page_count FastpathFacts.int4_page.
Proof.
  assert (E : fastpath_find_chunk FastpathFacts.int4_page FastpathFacts.int4_page
                (FastpathFacts.int4_meta 20) = (OBTreeFastPathFindOK, 0))
    by (vm_compute; reflexivity).
  split; [exact E|].
  refine (proj1 (proj2 (proj2 (fastpath_find_chunk_ok FastpathFacts.int4_page
            FastpathFacts.int4_page (FastpathFacts.int4_meta 20) 0 _ E)))).
  change (funcs (FastpathFacts.int4_meta 20)) with [int4_array_search].
  constructor; [|constructor]. simpl. right. left. reflexivity.
Defined.

Ltac destruct_matches :=
  repeat match goal with
  | |- context [match ?x with _ => _ end] => destruct x eqn:?
  | H : context [match ?x with _ => _ end] |- _ => destruct x eqn:?
  end.

Lemma fastpath_find_chunk_retry img hdr meta ci :
  fastpath_find_chunk img hdr meta = (OBTreeFastPathFindRetry, ci) ->
  page_changed hdr (changeCount img) = true.
Proof.
  unfold fastpath_find_chunk. intro H. destruct_matches; congruence.
Qed.

Lemma fastpath_find_downlink_meta img hdr blkno meta :
  snd (fst (fastpath_find_downlink img hdr blkno meta)) =
  if cacheValid meta && (cachedBlkno meta =? blkno)
     && (cachedChangeCount meta =? changeCount img)
  then meta
  else match fastpath_find_chunk img hdr meta with
       | (OBTreeFastPathFindOK, ci) => meta_set_cache meta blkno (changeCount img) ci
       | _ => meta
       end.
Proof.
  unfold fastpath_find_downlink. destruct_matches; simpl; congruence.
Qed.

(** X4.  [fastpath_find_downlink] answers [OBTreeFastPathFindOK] only with
    a located downlink and when the page is neither read-blocked nor
    changed since the image was taken, and [OBTreeFastPathFindRetry] only
    when it is; this holds on a chunk-cache hit as well as on a miss. *)
Theorem fastpath_find_downlink_ok_retry img hdr blkno meta :
  let '(r, _, sel) := fastpath_find_downlink img hdr blkno meta in
  (r = OBTreeFastPathFindOK -> page_changed hdr (changeCount img) = false /\ sel <> None) /\
  (r = OBTreeFastPathFindRetry -> page_changed hdr (changeCount img) = true).
Proof.
  unfold fastpath_find_downlink.
  destruct (cacheValid meta && _ && _).
  - destruct_matches; split; intro; try discriminate; try split; congruence.
  - destruct (fastpath_find_chunk img hdr meta) as [r0 ci] eqn:Efc.
    destruct r0.
    + destruct_matches; split; intro; try discriminate; try split; congruence.
    + split; intro; [discriminate|]. exact (fastpath_find_chunk_retry _ _ _ _ Efc).
    + split; intro; discriminate.
    + split; intro; discriminate.
Qed.

(** X5.  Calling [fastpath_find_downlink] again on the same page and block
    with the [meta] it returned (whose chunk cache it may have filled) gives
    the same result, the same [meta] and the same location: the cached
    chunk index stands for the chunk search it replaces. *)
Theorem fastpath_find_downlink_cache_repeat img hdr blkno meta :
  let '(r, m', sel) := fastpath_find_downlink img hdr blkno meta in
  fastpath_find_downlink img hdr blkno m' = (r, m', sel).
Proof.
  pose proof (fastpath_find_downlink_meta img hdr blkno meta) as Hm.
  destruct (fastpath_find_downlink img hdr blkno meta) as [[r m'] sel] eqn:E.
  simpl in Hm. subst m'.
  destruct (cacheValid meta && (cachedBlkno meta =? blkno)
            && (cachedChangeCount meta =? changeCount img)) eqn:Ehit; [exact E|].
  destruct (fastpath_find_chunk img hdr meta) as [r0 ci] eqn:Efc.
  destruct r0; try exact E.
  rewrite <- E. unfold fastpath_find_downlink.
  rewrite Ehit, Efc.
  change (cacheValid (meta_set_cache meta blkno (changeCount img) ci)) with true.
  change (cachedBlkno (meta_set_cache meta blkno (changeCount img) ci)) with blkno.
  change (cachedChangeCount (meta_set_cache meta blkno (changeCount img) ci))
    with (changeCount img).
  change (cachedChunkIndex (meta_set_cache meta blkno (changeCount img) ci)) with ci.
  rewrite !Z.eqb_refl. reflexivity.
Qed.

End FastpathMoreFacts.


(* ===================================================================== *)
(** * More facts about the buffer cache *)
(* ===================================================================== *)

Module OBuffersMoreFacts.
Import OBuffers OBuffersSync.

(** Every descriptor the file system hands out is non-negative. *)
Definition fs_ok (s : OBuffersState) : Prop :=
  0 <= nextInode s /\ forall n ino, dir s n = Some ino -> 0 <= ino.

(** An open cached file was opened at the tag's current version. *)
Definition cur_ok (desc : OBuffersDesc) (s : OBuffersState) : Prop :=
  0 <= curFile s -> curFileVersion s = version desc (curFileTag s).

(** [groupsCount] groups of [O_BUFFERS_PER_GROUP] buffers. *)
Definition groups_ok (desc : OBuffersDesc) (s : OBuffersState) : Prop :=
  List.length (groups s) = Z.to_nat (groupsCount desc) /\
  Forall (fun g => List.length g = Z.to_nat O_BUFFERS_PER_GROUP) (groups s).

Lemma bind_ok {A B} (m : M A) (k : A -> M B) s a s' :
  m s = Ok a s' -> bind m k s = k a s'.
Proof. intro E. unfold bind. rewrite E. reflexivity. Qed.

Lemma set_cur_fields s f name t n v :
  groups (set_cur s f name t n v) = groups s /\ curFile (set_cur s f name t n v) = f /\
  curFileName (set_cur s f name t n v) = name /\
  curFileTag (set_cur s f name t n v) = t /\ curFileNum (set_cur s f name t n v) = n /\
  curFileVersion (set_cur s f name t n v) = v /\
  dir (set_cur s f name t n v) = dir s /\ inodes (set_cur s f name t n v) = inodes s /\
  nextInode (set_cur s f name t n v) = nextInode s.
Proof. destruct s; repeat split. Qed.

Lemma set_groups_fields s g :
  groups (set_groups s g) = g /\ curFile (set_groups s g) = curFile s /\
  curFileTag (set_groups s g) = curFileTag s /\
  curFileNum (set_groups s g) = curFileNum s /\
  curFileVersion (set_groups s g) = curFileVersion s /\
  dir (set_groups s g) = dir s /\ inodes (set_groups s g) = inodes s /\
  nextInode (set_groups s g) = nextInode s.
Proof. destruct s; repeat split. Qed.

Lemma fs_ok_set_groups s g : fs_ok s -> fs_ok (set_groups s g).
Proof. destruct s; exact (fun H => H). Qed.

Lemma cur_ok_set_groups desc s g : cur_ok desc s -> cur_ok desc (set_groups s g).
Proof. destruct s; exact (fun H => H). Qed.

Lemma PathNameOpenFile_spec name s :
  fs_ok s ->
  exists fd s1, PathNameOpenFile name s = Ok fd s1 /\ 0 <= fd /\ fs_ok s1 /\
    groups s1 = groups s /\ curFile s1 = curFile s /\ curFileTag s1 = curFileTag s /\
    curFileNum s1 = curFileNum s /\ curFileVersion s1 = curFileVersion s.
Proof.
  intros [Hn Hd]. unfold PathNameOpenFile.
  destruct (dir s name) as [ino|] eqn:E.
  - exists ino, s. repeat split; auto. exact (Hd _ _ E).
  - exists (nextInode s). eexists. split; [reflexivity|].
    unfold fs_ok. destruct s; unfold set_fs; cbn in *. repeat split; try lia.
    intros n ino H. destruct (FileName_eqb n name).
    + injection H; intros; subst; lia.
    + exact (Hd _ _ H).
Qed.

Lemma open_file_versions_spec tg fileNum v s :
  fs_ok s ->
  exists s', open_file_versions tg fileNum v s = Ok true s' /\ fs_ok s' /\
    groups s' = groups s /\ 0 <= curFile s' /\ curFileTag s' = curFileTag s /\
    curFileNum s' = curFileNum s /\ curFileVersion s' = Z.of_nat v.
Proof.
  intro Hfs.
  destruct (PathNameOpenFile_spec (mkFileName tg fileNum (Z.of_nat v)) s Hfs)
    as [fd [s1 [E [Hfd [Hfs1 [Hg [Hc [Ht [Hn Hv]]]]]]]]].
  assert (Hge : (fd >=? 0) = true) by (apply Z.geb_le; lia).
  exists (set_cur (set_cur s1 fd (mkFileName tg fileNum (Z.of_nat v)) (curFileTag s1)
                     (curFileNum s1) (curFileVersion s1))
            fd (mkFileName tg fileNum (Z.of_nat v)) (curFileTag s1) (curFileNum s1)
            (Z.of_nat v)).
  split.
  - destruct v; cbn [open_file_versions]; rewrite (bind_ok _ _ _ _ _ E);
      unfold get, put, bind, ret; rewrite Hge; destruct s1; reflexivity.
  - destruct s1; simpl in *. subst. repeat split; auto; apply Hfs1.
Qed.

Lemma open_file_spec desc tg fileNum s :
  0 <= version desc tg -> fs_ok s -> cur_ok desc s ->
  exists s', open_file desc tg fileNum s = Ok tt s' /\
    fs_ok s' /\ cur_ok desc s' /\ groups s' = groups s /\
    0 <= curFile s' /\ curFileTag s' = tg /\ curFileNum s' = fileNum /\
    curFileVersion s' = version desc tg /\
    ((0 <= curFile s) /\ curFileNum s = fileNum /\ curFileTag s = tg -> s' = s).
Proof.
  intros Hv Hfs Hcur. unfold open_file, bind at 1, get at 1.
  destruct ((curFile s >=? 0) && (curFileNum s =? fileNum) && (curFileTag s =? tg))
    eqn:Ec.
  - apply andb_true_iff in Ec as [Ec Ec3]. apply andb_true_iff in Ec as [Ec1 Ec2].
    apply Z.geb_le in Ec1. apply Z.eqb_eq in Ec2. apply Z.eqb_eq in Ec3.
    exists s. repeat split; auto; try apply Hfs; try lia.
    rewrite (Hcur ltac:(lia)). congruence.
  - destruct (open_file_versions_spec tg fileNum (Z.to_nat (version desc tg)) s Hfs)
      as [s1 [E [Hfs1 [Hg [Hc [Ht [Hn Hver]]]]]]].
    unfold bind. rewrite E. cbv beta iota. unfold get, put.
    assert (Hlt : (curFile s1 <? 0) = false) by (apply Z.ltb_ge; lia).
    simpl negb. rewrite Hlt. simpl orb. cbv beta iota.
    eexists. split; [reflexivity|].
    destruct s1; simpl in *. repeat split; auto; try apply Hfs1; try lia.
    unfold cur_ok, set_cur; simpl; intros _; lia.
Qed.

Lemma write_buffer_data_spec desc buf tg blkno s :
  0 <= version desc tg -> fs_ok s -> cur_ok desc s ->
  exists s', write_buffer_data desc buf tg blkno s = Ok tt s' /\
    fs_ok s' /\ cur_ok desc s' /\ groups s' = groups s /\
    0 <= curFile s' /\ curFileTag s' = tg /\ curFileNum s' = blkno / blocks_per_file desc /\
    forall x, (blkno * ORIOLEDB_BLCKSZ) mod singleFileSize desc <= x <
              (blkno * ORIOLEDB_BLCKSZ) mod singleFileSize desc + ORIOLEDB_BLCKSZ ->
      inodes s' (curFile s') x =
        buf (x - (blkno * ORIOLEDB_BLCKSZ) mod singleFileSize desc).
Proof.
  intros Hv Hfs Hcur.
  destruct (open_file_spec desc tg (blkno / blocks_per_file desc) s Hv Hfs Hcur)
    as [s1 [E [Hfs1 [Hcur1 [Hg [Hc [Ht [Hn [Hver _]]]]]]]]].
  unfold write_buffer_data, bind at 1. rewrite E. cbv beta iota.
  unfold bind, get, OFileWrite. cbv beta iota.
  rewrite Z.eqb_refl. simpl negb. cbv iota. unfold ret.
  eexists. split; [reflexivity|].
  destruct s1; simpl in *. repeat split; auto; try apply Hfs1.
  intros x Hx. rewrite Z.eqb_refl.
  replace ((blkno * ORIOLEDB_BLCKSZ) mod singleFileSize desc <=? x) with true
    by (symmetry; apply Z.leb_le; lia).
  replace (x <? (blkno * ORIOLEDB_BLCKSZ) mod singleFileSize desc + ORIOLEDB_BLCKSZ)
    with true by (symmetry; apply Z.ltb_lt; lia).
  reflexivity.
Qed.

(** read_buffer on the cached open file at the current version: the block's
    bytes come from that file and no transform runs. *)
Lemma read_buffer_cached desc b s :
  0 <= curFile s -> curFileTag s = tag b ->
  curFileNum s = blockNum b / blocks_per_file desc ->
  curFileVersion s = version desc (tag b) ->
  read_buffer desc b s =
    Ok (mkOBuffer (blockNum b) (shadowBlockNum b) (tag b) (shadowTag b) (usageCount b)
          (dirty b)
          (fun x => if (0 <=? x) && (x <? ORIOLEDB_BLCKSZ)
                    then inodes s (curFile s)
                           ((blockNum b * ORIOLEDB_BLCKSZ) mod singleFileSize desc + x)
                    else data b x)) s.
Proof.
  intros Hc Ht Hn Hv. unfold read_buffer, open_file, bind, get, ret, OFileRead.
  replace ((curFile s >=? 0) && (curFileNum s =? blockNum b / blocks_per_file desc)
           && (curFileTag s =? tag b)) with true
    by (rewrite Hn, Ht, !Z.eqb_refl; symmetry; apply andb_true_iff; split;
        [apply andb_true_iff; split; [apply Z.geb_le; lia | reflexivity] | reflexivity]).
  cbv beta iota. rewrite Hv, Z.ltb_irrefl. reflexivity.
Qed.

Lemma read_buffer_spec desc b s :
  0 <= version desc (tag b) -> fs_ok s -> cur_ok desc s ->
  exists b' s', read_buffer desc b s = Ok b' s' /\
    fs_ok s' /\ cur_ok desc s' /\ groups s' = groups s /\
    blockNum b' = blockNum b /\ tag b' = tag b /\ shadowTag b' = shadowTag b /\
    usageCount b' = usageCount b /\ dirty b' = dirty b.
Proof.
  intros Hv Hfs Hcur.
  destruct (open_file_spec desc (tag b) (blockNum b / blocks_per_file desc) s Hv Hfs Hcur)
    as [s1 [E [Hfs1 [Hcur1 [Hg [Hc [Ht [Hn [Hver _]]]]]]]]].
  assert (E1 : open_file desc (tag b) (blockNum b / blocks_per_file desc) s1 = Ok tt s1).
  { unfold open_file, bind at 1, get at 1.
    replace ((curFile s1 >=? 0) && (curFileNum s1 =? blockNum b / blocks_per_file desc)
             && (curFileTag s1 =? tag b)) with true
      by (rewrite Hn, Ht, !Z.eqb_refl; symmetry; apply andb_true_iff; split;
          [apply andb_true_iff; split; [apply Z.geb_le; lia | reflexivity]
          | reflexivity]).
    reflexivity. }
  assert (E2 : read_buffer desc b s = read_buffer desc b s1).
  { unfold read_buffer. rewrite (bind_ok _ _ _ _ _ E), (bind_ok _ _ _ _ _ E1).
    reflexivity. }
  rewrite E2, (read_buffer_cached desc b s1 Hc Ht Hn Hver).
  do 2 eexists. split; [reflexivity|]. split; [exact Hfs1|]. split; [exact Hcur1|].
  repeat split; auto.
Qed.

(** X6.  write_buffer_data(buf, tag, blkno) followed by read_buffer of a
    buffer of that tag and block returns the [ORIOLEDB_BLCKSZ] bytes just
    written, without a version transform, and never panics, provided the
    tag's version is non-negative (it is a uint32). *)
Theorem write_buffer_data_read_buffer desc buf b s
  (Hv : 0 <= version desc (tag b)) (Hfs : fs_ok s) (Hcur : cur_ok desc s) :
  exists b' s',
    (write_buffer_data desc buf (tag b) (blockNum b) ;;; read_buffer desc b) s = Ok b' s' /\
    blockNum b' = blockNum b /\ tag b' = tag b /\
    forall x, 0 <= x < ORIOLEDB_BLCKSZ -> data b' x = buf x.
Proof.
  destruct (write_buffer_data_spec desc buf (tag b) (blockNum b) s Hv Hfs Hcur)
    as [s1 [E [Hfs1 [Hcur1 [_ [Hc [Ht [Hn Hdata]]]]]]]].
  rewrite (bind_ok _ _ _ _ _ E).
  rewrite (read_buffer_cached desc b s1 Hc Ht Hn ltac:(rewrite (Hcur1 Hc), Ht; reflexivity)).
  do 2 eexists. split; [reflexivity|]. repeat split.
  intros x Hx. cbn [data].
  replace ((0 <=? x) && (x <? ORIOLEDB_BLCKSZ)) with true
    by (symmetry; apply andb_true_iff; split; [apply Z.leb_le | apply Z.ltb_lt]; lia).
  rewrite Hdata by lia. f_equal. lia.
Qed.

(** Block 3 of tag 0 of the cache of [OBuffersFacts.rt_desc], read back
    after it is written with the bytes [OBuffersFacts.rt_src]. *)
Definition rt_block : OBuffer := mkOBuffer 3 (-1) 0 0 1 false zero_bytes.

Lemma write_buffer_data_read_buffer_witness :
  0 <= version OBuffersFacts.rt_desc (tag rt_block) /\
  fs_ok OBuffersFacts.rt_init /\ cur_ok OBuffersFacts.rt_desc OBuffersFacts.rt_init /\
  exists b' s',
    (write_buffer_data OBuffersFacts.rt_desc OBuffersFacts.rt_src 0 3 ;;;
     read_buffer OBuffersFacts.rt_desc rt_block) OBuffersFacts.rt_init = Ok b' s' /\
    blockNum b' = 3 /\ tag b' = 0 /\
    forall x, 0 <= x < ORIOLEDB_BLCKSZ -> data b' x = OBuffersFacts.rt_src x.
Proof.
  assert (H1 : 0 <= version OBuffersFacts.rt_desc (tag rt_block))
    by (vm_compute; discriminate).
  assert (H2 : fs_ok OBuffersFacts.rt_init)
    by (split; [vm_compute; discriminate | intros n ino H; vm_compute in H; discriminate]).
  assert (H3 : cur_ok OBuffersFacts.rt_desc OBuffersFacts.rt_init)
    by (intro H; vm_compute in H; exfalso; apply H; reflexivity).
  split; [exact H1|]. split; [exact H2|]. split; [exact H3|].
  exact (write_buffer_data_read_buffer OBuffersFacts.rt_desc OBuffersFacts.rt_src rt_block
           OBuffersFacts.rt_init H1 H2 H3).
Defined.

(** ** Flush and sync *)

(** The buffer o_buffers_flush leaves behind in place of [b]. *)
Definition flushed (tg firstBufferNumber lastBufferNumber : Z) (b : OBuffer) : OBuffer :=
  if flush_cond tg firstBufferNumber lastBufferNumber b then set_clean b else b.

Lemma replace_nth_length {A} (l : list A) i x :
  List.length (replace_nth l i x) = List.length l.
Proof.
  revert i. induction l as [|h t IH]; intro i; destruct i; simpl; auto.
Qed.

Lemma replace_nth_middle {A} (pre post : list A) x y :
  replace_nth (pre ++ x :: post) (List.length pre) y = pre ++ y :: post.
Proof. induction pre as [|h t IH]; simpl; [reflexivity | now rewrite IH]. Qed.

Lemma replace_nth_nth {A} (l : list A) i d : replace_nth l i (nth i l d) = l.
Proof.
  revert i. induction l as [|h t IH]; intro i; destruct i; simpl; auto.
  now rewrite IH.
Qed.

Lemma replace_nth_twice {A} (l : list A) i x y :
  replace_nth (replace_nth l i x) i y = replace_nth l i y.
Proof.
  revert i. induction l as [|h t IH]; intro i; destruct i; simpl; auto.
  now rewrite IH.
Qed.

Lemma nth_replace_nth_same {A} (l : list A) i x d :
  (i < List.length l)%nat -> nth i (replace_nth l i x) d = x.
Proof.
  revert i. induction l as [|h t IH]; intros i Hi; destruct i; simpl in *; try lia.
  - reflexivity.
  - apply IH. lia.
Qed.

Lemma nth_replace_nth_other {A} (l : list A) i j x d :
  i <> j -> nth j (replace_nth l i x) d = nth j l d.
Proof.
  revert i j. induction l as [|h t IH]; intros i j Hij; destruct i, j; simpl; auto;
    try congruence.
Qed.

Lemma Forall_replace_nth {A} (P : A -> Prop) l i x :
  Forall P l -> P x -> Forall P (replace_nth l i x).
Proof.
  revert i. induction l as [|h t IH]; intros i Hl Hx; destruct i; simpl; auto;
    inversion Hl; subst; constructor; auto.
Qed.

Lemma flush_cond_tag tg f l b : flush_cond tg f l b = true -> tag b = tg.
Proof.
  unfold flush_cond. intro H.
  repeat (apply andb_true_iff in H; destruct H as [H ?]).
  apply Z.eqb_eq. assumption.
Qed.

Lemma flush_slots_spec desc tg f l i post : forall pre G s,
  0 <= version desc tg -> fs_ok s -> cur_ok desc s ->
  groups s = G -> (i < List.length G)%nat -> nth i G [] = pre ++ post ->
  exists s', flush_slots desc tg f l i (List.length pre) (List.length post) s = Ok tt s' /\
    fs_ok s' /\ cur_ok desc s' /\
    groups s' = replace_nth G i (pre ++ map (flushed tg f l) post).
Proof.
  induction post as [|b post IH]; intros pre G s Hv Hfs Hcur HG Hi Hnth.
  - exists s. split; [reflexivity|]. split; [exact Hfs|]. split; [exact Hcur|].
    cbn [map]. rewrite app_nil_r in *. rewrite <- Hnth, replace_nth_nth. exact HG.
  - cbn [flush_slots List.length].
    assert (Hload : load_buffer i (List.length pre) s = Ok b s).
    { unfold load_buffer, bind, get, ret. rewrite HG, Hnth, nth_middle. reflexivity. }
    rewrite (bind_ok _ _ _ _ _ Hload).
    destruct (flush_cond tg f l b) eqn:Ec.
    + pose proof (flush_cond_tag _ _ _ _ Ec) as Htg.
      destruct (write_buffer_data_spec desc (data b) (tag b) (blockNum b) s
                  ltac:(rewrite Htg; exact Hv) Hfs Hcur)
        as [s1 [E1 [Hfs1 [Hcur1 [Hg1 _]]]]].
      set (G2 := replace_nth G i (pre ++ set_clean b :: post)).
      assert (Est : (write_buffer desc b ;;; store_buffer i (List.length pre) (set_clean b)) s
                    = Ok tt (set_groups s1 G2)).
      { unfold write_buffer. rewrite (bind_ok _ _ _ _ _ E1).
        unfold store_buffer, bind, get, put. rewrite Hg1, HG, Hnth, replace_nth_middle.
        reflexivity. }
      rewrite (bind_ok _ _ _ _ _ Est).
      destruct (IH (pre ++ [set_clean b]) G2 (set_groups s1 G2) Hv
                  (fs_ok_set_groups _ _ Hfs1) (cur_ok_set_groups _ _ _ Hcur1)
                  ltac:(destruct s1; reflexivity)
                  ltac:(unfold G2; rewrite replace_nth_length; exact Hi)
                  ltac:(unfold G2; rewrite nth_replace_nth_same by exact Hi;
                        rewrite <- app_assoc; reflexivity))
        as [s' [E' [Hfs' [Hcur' Hg']]]].
      rewrite length_app in E'. simpl List.length in E'.
      rewrite Nat.add_1_r in E'.
      exists s'. split; [exact E'|]. split; [exact Hfs'|]. split; [exact Hcur'|].
      assert (Ef : flushed tg f l b = set_clean b) by (unfold flushed; rewrite Ec; reflexivity).
      rewrite Hg'. unfold G2. rewrite replace_nth_twice, <- app_assoc. cbn [app map].
      rewrite Ef. reflexivity.
    + rewrite (bind_ok (ret tt) _ s tt s eq_refl).
      destruct (IH (pre ++ [b]) G s Hv Hfs Hcur HG Hi
                  ltac:(rewrite Hnth, <- app_assoc; reflexivity))
        as [s' [E' [Hfs' [Hcur' Hg']]]].
      rewrite length_app in E'. simpl List.length in E'.
      rewrite Nat.add_1_r in E'.
      exists s'. split; [exact E'|]. split; [exact Hfs'|]. split; [exact Hcur'|].
      assert (Ef : flushed tg f l b = b) by (unfold flushed; rewrite Ec; reflexivity).
      rewrite Hg', <- app_assoc. cbn [app map]. rewrite Ef. reflexivity.
Qed.

Lemma flush_groups_spec desc tg f l Gpost : forall Gpre s,
  0 <= version desc tg -> fs_ok s -> cur_ok desc s ->
  groups s = Gpre ++ Gpost ->
  Forall (fun g => List.length g = Z.to_nat O_BUFFERS_PER_GROUP) Gpost ->
  exists s', flush_groups desc tg f l (List.length Gpre) (List.length Gpost) s = Ok tt s' /\
    fs_ok s' /\ cur_ok desc s' /\
    groups s' = Gpre ++ map (map (flushed tg f l)) Gpost.
Proof.
  induction Gpost as [|g rest IH]; intros Gpre s Hv Hfs Hcur HG Hlen.
  - exists s. split; [reflexivity|]. split; [exact Hfs|]. split; [exact Hcur|].
    rewrite HG. reflexivity.
  - inversion Hlen as [|? ? Hg Hrest]; subst.
    cbn [flush_groups List.length].
    destruct (flush_slots_spec desc tg f l (List.length Gpre) g [] (Gpre ++ g :: rest) s
                Hv Hfs Hcur HG
                ltac:(rewrite length_app; simpl; lia)
                ltac:(rewrite nth_middle; reflexivity))
      as [s1 [E1 [Hfs1 [Hcur1 Hg1]]]].
    simpl List.length in E1. rewrite Hg in E1.
    rewrite (bind_ok _ _ _ _ _ E1).
    rewrite replace_nth_middle in Hg1. simpl in Hg1.
    destruct (IH (Gpre ++ [map (flushed tg f l) g]) s1 Hv Hfs1 Hcur1
                ltac:(rewrite Hg1, <- app_assoc; reflexivity) Hrest)
      as [s' [E' [Hfs' [Hcur' Hg']]]].
    rewrite length_app in E'. simpl List.length in E'. rewrite Nat.add_1_r in E'.
    exists s'. split; [exact E'|]. split; [exact Hfs'|]. split; [exact Hcur'|].
    rewrite Hg', <- app_assoc. reflexivity.
Qed.

(** X7.  o_buffers_flush(tag, first, last) never panics on a cache of
    [groupsCount] groups of four buffers, and its only effect on the
    buffers is to mark clean every dirty buffer of that tag whose block is in
    [first, last] (after writing it to its file); every other buffer, and
    every field but [dirty], is left as it was. *)
Theorem o_buffers_flush_effect desc tg first last s
  (Hv : 0 <= version desc tg) (Hfs : fs_ok s) (Hcur : cur_ok desc s)
  (Hg : groups_ok desc s) :
  exists s', o_buffers_flush desc tg first last s = Ok tt s' /\
    groups s' = map (map (flushed tg first last)) (groups s) /\
    fs_ok s' /\ cur_ok desc s'.
Proof.
  destruct Hg as [Hlen Hall].
  destruct (flush_groups_spec desc tg first last (groups s) [] s Hv Hfs Hcur eq_refl Hall)
    as [s' [E [Hfs' [Hcur' Hg']]]].
  unfold o_buffers_flush. rewrite <- Hlen.
  exists s'. split; [exact E|]. split; [exact Hg'|]. split; [exact Hfs'|]. exact Hcur'.
Qed.

(** A cache of [OBuffersFacts.rt_desc] whose first buffer holds block 2 of
    tag 0, dirty. *)
Definition fl_state : OBuffersState :=
  set_groups OBuffersFacts.rt_init
    [[mkOBuffer 2 (-1) 0 0 1 true OBuffersFacts.rt_src;
      empty_buffer; empty_buffer; empty_buffer]].

Lemma fl_state_ok :
  fs_ok fl_state /\ cur_ok OBuffersFacts.rt_desc fl_state /\
  groups_ok OBuffersFacts.rt_desc fl_state.
Proof.
  split; [split; [vm_compute; discriminate | intros n ino H; vm_compute in H; discriminate]|].
  split; [intro H; vm_compute in H; exfalso; apply H; reflexivity|].
  split; [vm_compute; reflexivity | repeat constructor].
Qed.

Lemma o_buffers_flush_effect_witness :
  exists s', o_buffers_flush OBuffersFacts.rt_desc 0 0 5 fl_state = Ok tt s' /\
    groups s' = map (map (flushed 0 0 5)) (groups fl_state) /\
    dirty (nth 0 (nth 0 (groups s') []) empty_buffer) = false /\
    dirty (nth 0 (nth 0 (groups fl_state) []) empty_buffer) = true.
Proof.
  destruct fl_state_ok as [Hfs [Hcur Hg]].
  destruct (o_buffers_flush_effect OBuffersFacts.rt_desc 0 0 5 fl_state
              ltac:(vm_compute; discriminate) Hfs Hcur Hg) as [s' [E [G _]]].
  exists s'. split; [exact E|]. split; [exact G|].
  rewrite G. split; vm_compute; reflexivity.
Defined.

Lemma sync_files_spec desc tg n : forall fileNumber s,
  0 <= version desc tg -> fs_ok s -> cur_ok desc s ->
  exists s', sync_files desc tg n fileNumber s = Ok tt s' /\
    fs_ok s' /\ cur_ok desc s' /\ groups s' = groups s.
Proof.
  induction n as [|n IH]; intros fileNumber s Hv Hfs Hcur.
  - exists s. split; [reflexivity|]. split; [exact Hfs|]. split; [exact Hcur|]. reflexivity.
  - cbn [sync_files].
    destruct (open_file_spec desc tg fileNumber s Hv Hfs Hcur)
      as [s1 [E1 [Hfs1 [Hcur1 [Hg1 _]]]]].
    rewrite (bind_ok _ _ _ _ _ E1).
    rewrite (bind_ok get _ s1 s1 s1 eq_refl).
    rewrite (bind_ok (FileSync (curFile s1)) _ s1 tt s1 eq_refl).
    destruct (IH (fileNumber + 1) s1 Hv Hfs1 Hcur1) as [s' [E' [Hfs' [Hcur' Hg']]]].
    exists s'. split; [exact E'|]. split; [exact Hfs'|]. split; [exact Hcur'|].
    congruence.
Qed.

(** A buffer o_buffers_sync(tag, fromOffset, toOffset) marks clean: dirty,
    of that tag, and with its block overlapping the byte range
    [fromOffset, toOffset). *)
Definition sync_flushed (tg fromOffset toOffset : Z) (b : OBuffer) : OBuffer :=
  if dirty b && (tag b =? tg) && (fromOffset <? (blockNum b + 1) * ORIOLEDB_BLCKSZ)
     && (blockNum b * ORIOLEDB_BLCKSZ <? toOffset)
  then set_clean b else b.

Lemma flushed_sync_flushed tg fromOffset toOffset b :
  0 <= fromOffset -> 0 <= toOffset ->
  flushed tg (Z.quot fromOffset ORIOLEDB_BLCKSZ)
    (if Z.rem toOffset ORIOLEDB_BLCKSZ =? 0
     then Z.quot toOffset ORIOLEDB_BLCKSZ - 1
     else Z.quot toOffset ORIOLEDB_BLCKSZ) b =
  sync_flushed tg fromOffset toOffset b.
Proof.
  intros Hf Ht. unfold flushed, sync_flushed, flush_cond, ORIOLEDB_BLCKSZ.
  rewrite (Z.quot_div_nonneg fromOffset 8192 Hf ltac:(lia)).
  rewrite (Z.quot_div_nonneg toOffset 8192 Ht ltac:(lia)).
  rewrite (Z.rem_mod_nonneg toOffset 8192 Ht ltac:(lia)).
  assert (E1 : (blockNum b >=? fromOffset / 8192) = (fromOffset <? (blockNum b + 1) * 8192)).
  { pose proof (Z.div_mod fromOffset 8192 ltac:(lia)).
    pose proof (Z.mod_pos_bound fromOffset 8192 ltac:(lia)).
    rewrite Z.geb_leb.
    destruct (Z.leb_spec (fromOffset / 8192) (blockNum b)),
             (Z.ltb_spec fromOffset ((blockNum b + 1) * 8192)); nia. }
  assert (E2 : (blockNum b <=? (if toOffset mod 8192 =? 0 then toOffset / 8192 - 1
                                else toOffset / 8192))
               = (blockNum b * 8192 <? toOffset)).
  { pose proof (Z.div_mod toOffset 8192 ltac:(lia)).
    pose proof (Z.mod_pos_bound toOffset 8192 ltac:(lia)).
    destruct (Z.eqb_spec (toOffset mod 8192) 0);
    [destruct (Z.leb_spec (blockNum b) (toOffset / 8192 - 1)) |
     destruct (Z.leb_spec (blockNum b) (toOffset / 8192))];
    destruct (Z.ltb_spec (blockNum b * 8192) toOffset); nia. }
  rewrite E1, E2. reflexivity.
Qed.

(** X8.  o_buffers_sync(tag, fromOffset, toOffset) with non-negative
    offsets never panics on a cache of [groupsCount] groups of four
    buffers, and its only effect on the buffers is to mark clean (after
    writing it out) every dirty buffer of that tag whose block overlaps the
    byte range [fromOffset, toOffset); a block that starts at [toOffset] is
    left dirty. *)
Theorem o_buffers_sync_effect desc tg fromOffset toOffset s
  (Hfrom : 0 <= fromOffset) (Hto : 0 <= toOffset)
  (Hv : 0 <= version desc tg) (Hfs : fs_ok s) (Hcur : cur_ok desc s)
  (Hg : groups_ok desc s) :
  exists s', o_buffers_sync desc tg fromOffset toOffset s = Ok tt s' /\
    groups s' = map (map (sync_flushed tg fromOffset toOffset)) (groups s).
Proof.
  unfold o_buffers_sync. cbv zeta.
  destruct (o_buffers_flush_effect desc tg (Z.quot fromOffset ORIOLEDB_BLCKSZ)
              (if Z.rem toOffset ORIOLEDB_BLCKSZ =? 0
               then Z.quot toOffset ORIOLEDB_BLCKSZ - 1
               else Z.quot toOffset ORIOLEDB_BLCKSZ) s Hv Hfs Hcur Hg)
    as [s1 [E1 [Hg1 [Hfs1 Hcur1]]]].
  rewrite (bind_ok _ _ _ _ _ E1).
  destruct (sync_files_spec desc tg
              (Z.to_nat ((if Z.rem toOffset (singleFileSize desc) =? 0
                          then Z.quot toOffset (singleFileSize desc) - 1
                          else Z.quot toOffset (singleFileSize desc))
                         - Z.quot fromOffset (singleFileSize desc) + 1))
              (Z.quot fromOffset (singleFileSize desc)) s1 Hv Hfs1 Hcur1)
    as [s' [E' [_ [_ Hg']]]].
  exists s'. split; [exact E'|].
  rewrite Hg', Hg1. apply map_ext. intro grp. apply map_ext. intro b.
  apply flushed_sync_flushed; assumption.
Qed.

(** Blocks 1 and 2 of tag 0, both dirty, in the cache of
    [OBuffersFacts.rt_desc]. *)
Definition sy_state : OBuffersState :=
  set_groups OBuffersFacts.rt_init
    [[mkOBuffer 1 (-1) 0 0 1 true OBuffersFacts.rt_src;
      mkOBuffer 2 (-1) 0 0 1 true OBuffersFacts.rt_src;
      empty_buffer; empty_buffer]].

Lemma o_buffers_sync_effect_witness :
  exists s', o_buffers_sync OBuffersFacts.rt_desc 0 0 (2 * ORIOLEDB_BLCKSZ) sy_state
             = Ok tt s' /\
    map (map dirty) (groups s') = [[false; true; false; false]].
Proof.
  assert (Hfs : fs_ok sy_state)
    by (split; [vm_compute; discriminate | intros n ino H; vm_compute in H; discriminate]).
  assert (Hcur : cur_ok OBuffersFacts.rt_desc sy_state)
    by (intro H; vm_compute in H; exfalso; apply H; reflexivity).
  assert (Hg : groups_ok OBuffersFacts.rt_desc sy_state)
    by (split; [vm_compute; reflexivity | repeat constructor]).
  destruct (o_buffers_sync_effect OBuffersFacts.rt_desc 0 0 (2 * ORIOLEDB_BLCKSZ) sy_state
              ltac:(lia) ltac:(vm_compute; discriminate) ltac:(vm_compute; discriminate)
              Hfs Hcur Hg) as [s' [E G]].
  exists s'. split; [exact E|]. rewrite G. vm_compute. reflexivity.
Defined.

(** ** get_buffer *)

Lemma find_buffer_some grp tg blkno : forall i j,
  find_buffer grp tg blkno i = Some j ->
  (i <= j)%nat /\ (j - i < List.length grp)%nat /\
  buffer_matches (nth (j - i) grp empty_buffer) tg blkno = true.
Proof.
  induction grp as [|b rest IH]; intros i j H; simpl in H; [discriminate|].
  destruct (buffer_matches b tg blkno) eqn:Em.
  - injection H; intros; subst. rewrite Nat.sub_diag. simpl. repeat split; auto; lia.
  - destruct (IH (S i) j H) as [H1 [H2 H3]].
    replace (j - i)%nat with (S (j - S i)) by lia. simpl.
    repeat split; auto; lia.
Qed.

Lemma buffer_matches_with_usage b u tg blkno :
  buffer_matches (with_usage b u) tg blkno = buffer_matches b tg blkno.
Proof. reflexivity. Qed.

Lemma victim_scan_spec tg blkno grp : forall i v vuc,
  let '((hit, victim), grp') := victim_scan tg blkno grp i v vuc in
  List.length grp' = List.length grp /\
  (forall j, hit = Some j ->
     (i <= j)%nat /\ (j - i < List.length grp)%nat /\
     buffer_matches (nth (j - i) grp' empty_buffer) tg blkno = true) /\
  (victim = v \/ (i <= victim < i + List.length grp)%nat).
Proof.
  induction grp as [|b rest IH]; intros i v vuc; simpl.
  - repeat split; auto; intros; discriminate.
  - destruct (buffer_matches b tg blkno) eqn:Em.
    + simpl. split; [reflexivity|]. split; [|left; reflexivity].
      intros j Hj. injection Hj; intros; subst. rewrite Nat.sub_diag. simpl.
      rewrite buffer_matches_with_usage. repeat split; auto; lia.
    + destruct (if (i =? 0)%nat || (usageCount b <? vuc) then (i, usageCount b)
                else (v, vuc)) as [v' vuc'] eqn:Ev.
      specialize (IH (S i) v' vuc').
      destruct (victim_scan tg blkno rest (S i) v' vuc') as [[hit victim] grp'].
      destruct IH as [H1 [H2 H3]].
      simpl. split; [lia|]. split.
      * intros j Hj. destruct (H2 j Hj) as [A [B C]].
        replace (j - i)%nat with (S (j - S i)) by lia. simpl.
        repeat split; auto; lia.
      * assert (v' = v \/ v' = i) as Hv'
          by (destruct ((i =? 0)%nat || (usageCount b <? vuc));
              injection Ev; intros; subst; auto).
        destruct H3 as [H3 | H3]; [destruct Hv'; [left | right]; lia | right; lia].
Qed.

Lemma groupsCount_pos desc : 0 < buffersCount desc -> 0 < groupsCount desc.
Proof.
  intro H. unfold groupsCount, O_BUFFERS_PER_GROUP.
  apply Z.div_str_pos. lia.
Qed.


(** The key of a buffer: what get_buffer compares. *)
Definition buffer_key (b : OBuffer) : Z * Z := (blockNum b, tag b).

Lemma find_buffer_keys l l' tg blkno : forall i,
  map buffer_key l = map buffer_key l' ->
  find_buffer l tg blkno i = find_buffer l' tg blkno i.
Proof.
  revert l'. induction l as [|b t IH]; intros l' i Hk; destruct l' as [|b' t'];
    try discriminate; [reflexivity|].
  cbn [map] in Hk. injection Hk as Hn Htg Ht. cbn [find_buffer].
  unfold buffer_matches. rewrite Hn, Htg. rewrite (IH t' (S i) Ht). reflexivity.
Qed.

Lemma victim_scan_keys tg blkno grp : forall i v vuc,
  map buffer_key (snd (victim_scan tg blkno grp i v vuc)) = map buffer_key grp /\
  fst (fst (victim_scan tg blkno grp i v vuc)) = find_buffer grp tg blkno i.
Proof.
  induction grp as [|b rest IH]; intros i v vuc; simpl; [split; reflexivity|].
  destruct (buffer_matches b tg blkno); [split; reflexivity|].
  destruct (if (i =? 0)%nat || (usageCount b <? vuc) then (i, usageCount b)
            else (v, vuc)) as [v' vuc'].
  specialize (IH (S i) v' vuc').
  destruct (victim_scan tg blkno rest (S i) v' vuc') as [[hit victim] grp'].
  destruct IH as [H1 H2]. simpl in *. rewrite H1. split; [reflexivity | exact H2].
Qed.

Lemma map_key_replace_nth l k x d :
  buffer_key x = buffer_key (nth k l d) ->
  map buffer_key (replace_nth l k x) = map buffer_key l.
Proof.
  revert k. induction l as [|b t IH]; intros k Hk; destruct k; simpl in *; auto.
  - rewrite Hk. reflexivity.
  - rewrite (IH k Hk). reflexivity.
Qed.

Lemma find_buffer_replace_nth_miss l tg blkno x : forall i k,
  find_buffer l tg blkno i = None -> buffer_matches x tg blkno = true ->
  (k < List.length l)%nat ->
  find_buffer (replace_nth l k x) tg blkno i = Some (i + k)%nat.
Proof.
  induction l as [|b t IH]; intros i k Hn Hx Hk; simpl in *; [lia|].
  destruct (buffer_matches b tg blkno) eqn:Eb; [discriminate|].
  destruct k as [|k]; simpl.
  - rewrite Hx. f_equal. lia.
  - rewrite Eb. rewrite (IH (S i) k Hn Hx ltac:(lia)). f_equal. lia.
Qed.

(** What get_buffer leaves in the cache: the slot it returns is the first
    one of its group that holds the block. *)
Lemma get_buffer_spec desc tg blkno write s
  (Hbc : 0 < buffersCount desc) (Hblk : 0 <= blkno)
  (Hv : forall t, 0 <= version desc t)
  (Hfs : fs_ok s) (Hcur : cur_ok desc s) (Hg : groups_ok desc s) :
  exists g j s', get_buffer desc tg blkno write s = Ok (g, j) s' /\
    g = Z.to_nat (Z.rem blkno (groupsCount desc)) /\
    (j < Z.to_nat O_BUFFERS_PER_GROUP)%nat /\
    buffer_matches (nth j (nth g (groups s') []) empty_buffer) tg blkno = true /\
    find_buffer (nth g (groups s') []) tg blkno 0 = Some j /\
    groups_ok desc s' /\ fs_ok s' /\ cur_ok desc s' /\
    (forall g', g' <> g -> nth g' (groups s') [] = nth g' (groups s) []).
Proof.
  pose proof (groupsCount_pos desc Hbc) as Hgc.
  destruct Hg as [Hlen Hall].
  set (g := Z.to_nat (Z.rem blkno (groupsCount desc))).
  assert (Hgl : (g < List.length (groups s))%nat).
  { rewrite Hlen. unfold g. rewrite Z.rem_mod_nonneg by lia.
    pose proof (Z.mod_pos_bound blkno (groupsCount desc) Hgc). lia. }
  set (grp := nth g (groups s) []).
  assert (Hgrp : List.length grp = Z.to_nat O_BUFFERS_PER_GROUP).
  { rewrite Forall_forall in Hall. apply Hall. apply nth_In. exact Hgl. }
  (* storing a buffer in group [g] keeps the cache's shape *)
  assert (Hshape : forall G grp' j b,
            List.length G = List.length (groups s) ->
            Forall (fun g => List.length g = Z.to_nat O_BUFFERS_PER_GROUP) G ->
            List.length grp' = Z.to_nat O_BUFFERS_PER_GROUP ->
            groups_ok desc (set_groups s (replace_nth G g (replace_nth grp' j b)))).
  { intros G grp' j b HG HF Hl. split.
    - destruct s; simpl in *. rewrite replace_nth_length. lia.
    - destruct s; simpl in *. apply Forall_replace_nth; [exact HF|].
      rewrite replace_nth_length. exact Hl. }
  unfold get_buffer. rewrite (bind_ok get _ s s s eq_refl). cbv zeta.
  fold g. fold grp.
  destruct (find_buffer grp tg blkno 0) as [j|] eqn:Ef.
  - destruct (find_buffer_some grp tg blkno 0 j Ef) as [_ [Hj Hm]].
    rewrite Nat.sub_0_r in Hj, Hm.
    set (b := nth j grp empty_buffer) in *.
    set (s1 := set_groups s (replace_nth (groups s) g
                 (replace_nth grp j (with_usage b (uint32_inc (usageCount b)))))).
    assert (E1 : store_buffer g j (with_usage b (uint32_inc (usageCount b))) s = Ok tt s1)
      by reflexivity.
    rewrite (bind_ok _ _ _ _ _ E1).
    exists g, j, s1. split; [reflexivity|]. split; [reflexivity|].
    split; [lia|].
    split.
    { unfold s1. destruct s; simpl in *.
      rewrite nth_replace_nth_same by exact Hgl.
      rewrite nth_replace_nth_same by lia. exact Hm. }
    split.
    { unfold s1. destruct s; simpl in *.
      rewrite nth_replace_nth_same by exact Hgl.
      rewrite (find_buffer_keys _ grp tg blkno 0); [exact Ef|].
      apply (map_key_replace_nth _ _ _ empty_buffer). reflexivity. }
    split; [apply Hshape; auto|].
    split; [apply fs_ok_set_groups; exact Hfs|].
    split; [apply cur_ok_set_groups; exact Hcur|].
    intros g' Hg'. unfold s1. destruct s; simpl in *.
    apply nth_replace_nth_other. congruence.
  - pose proof (victim_scan_spec tg blkno grp 0 0 0) as Hvs.
    destruct (victim_scan tg blkno grp 0 0 0) as [[hit victim] grp'] eqn:Evs.
    destruct Hvs as [Hl' [Hhit Hvic]].
    set (s1 := set_groups s (replace_nth (groups s) g grp')).
    rewrite (bind_ok (put s1) _ s tt s1 eq_refl).
    assert (Hs1g : groups s1 = replace_nth (groups s) g grp') by (destruct s; reflexivity).
    assert (Hs1n : nth g (groups s1) [] = grp')
      by (rewrite Hs1g; apply nth_replace_nth_same; exact Hgl).
    destruct hit as [j|].
    + destruct (Hhit j eq_refl) as [_ [Hj Hm]]. rewrite Nat.sub_0_r in Hj, Hm.
      exists g, j, s1. split; [reflexivity|]. split; [reflexivity|].
      split; [lia|].
      split; [rewrite Hs1n; exact Hm|].
      split.
      { exfalso. pose proof (victim_scan_keys tg blkno grp 0 0 0) as Hk.
        rewrite Evs in Hk. simpl in Hk. destruct Hk as [_ Hk]. congruence. }
      split.
      { split; rewrite Hs1g.
        - rewrite replace_nth_length. lia.
        - apply Forall_replace_nth; [exact Hall | lia]. }
      split; [apply fs_ok_set_groups; exact Hfs|].
      split; [apply cur_ok_set_groups; exact Hcur|].
      intros g' Hg'. rewrite Hs1g. apply nth_replace_nth_other. congruence.
    + assert (Hvl : (victim < List.length grp')%nat) 
        by (rewrite Hl', Hgrp; rewrite Hgrp in Hvic;
            change (Z.to_nat O_BUFFERS_PER_GROUP) with 4%nat in *; lia).
      set (buffer := nth victim grp' empty_buffer).
      set (buffer' := mkOBuffer blkno (blockNum buffer) tg (tag buffer) 1 false
                        (data buffer)).
      set (s2 := set_groups s1 (replace_nth (groups s1) g
                                  (replace_nth grp' victim buffer'))).
      assert (E2 : store_buffer g victim buffer' s1 = Ok tt s2)
        by (unfold store_buffer, bind, get, put; rewrite Hs1n; reflexivity).
      rewrite (bind_ok _ _ _ _ _ E2).
      assert (Hfs2 : fs_ok s2)
        by (apply fs_ok_set_groups, fs_ok_set_groups; exact Hfs).
      assert (Hcur2 : cur_ok desc s2)
        by (apply cur_ok_set_groups, cur_ok_set_groups; exact Hcur).
      assert (Hw : exists s3, (if dirty buffer
                              then write_buffer_data desc (data buffer) (tag buffer)
                                     (blockNum buffer)
                              else ret tt) s2 = Ok tt s3 /\
                              fs_ok s3 /\ cur_ok desc s3 /\ groups s3 = groups s2).
      { destruct (dirty buffer).
        - destruct (write_buffer_data_spec desc (data buffer) (tag buffer)
                      (blockNum buffer) s2 (Hv _) Hfs2 Hcur2)
            as [s3 [E3 [Hfs3 [Hcur3 [Hg3 _]]]]].
          exists s3. auto.
        - exists s2. auto. }
      destruct Hw as [s3 [E3 [Hfs3 [Hcur3 Hg3]]]].
      rewrite (bind_ok _ _ _ _ _ E3).
      destruct (read_buffer_spec desc buffer' s3 (Hv _) Hfs3 Hcur3)
        as [loaded [s4 [E4 [Hfs4 [Hcur4 [Hg4 [Hbn [Htg _]]]]]]]].
      rewrite (bind_ok _ _ _ _ _ E4).
      set (X := mkOBuffer (blockNum loaded) (-1) (tag loaded) (shadowTag loaded)
                  (usageCount loaded) (dirty loaded) (data loaded)).
      assert (Hs2g : groups s2 = replace_nth (groups s) g (replace_nth grp' victim buffer')).
      { unfold s2. destruct s1; simpl in *. rewrite Hs1g, replace_nth_twice. reflexivity. }
      assert (Hs4n : nth g (groups s4) [] = replace_nth grp' victim buffer').
      { rewrite Hg4, Hg3, Hs2g. apply nth_replace_nth_same. exact Hgl. }
      set (s5 := set_groups s4 (replace_nth (groups s4) g
                                  (replace_nth (nth g (groups s4) []) victim X))).
      assert (E5 : store_buffer g victim X s4 = Ok tt s5) by reflexivity.
      rewrite (bind_ok _ _ _ _ _ E5).
      assert (Hs5g : groups s5 = replace_nth (groups s) g (replace_nth grp' victim X)).
      { unfold s5. destruct s4; simpl in *. rewrite Hs4n, replace_nth_twice.
        rewrite Hg4, Hg3, Hs2g, replace_nth_twice. reflexivity. }
      exists g, victim, s5. split; [reflexivity|]. split; [reflexivity|].
      split; [lia|].
      split.
      { rewrite Hs5g, nth_replace_nth_same by exact Hgl.
        rewrite nth_replace_nth_same by exact Hvl.
        unfold X, buffer_matches. simpl. rewrite Hbn, Htg. unfold buffer'. simpl.
        rewrite !Z.eqb_refl. reflexivity. }
      split.
      { rewrite Hs5g, nth_replace_nth_same by exact Hgl.
        apply (find_buffer_replace_nth_miss grp' tg blkno X 0 victim); [| |exact Hvl].
        - pose proof (victim_scan_keys tg blkno grp 0 0 0) as Hk.
          rewrite Evs in Hk. simpl in Hk. destruct Hk as [Hk _].
          rewrite (find_buffer_keys grp' grp tg blkno 0 Hk). exact Ef.
        - unfold X, buffer_matches. simpl. rewrite Hbn, Htg. unfold buffer'. simpl.
          rewrite !Z.eqb_refl. reflexivity. }
      split.
      { split; rewrite Hs5g.
        - rewrite replace_nth_length. lia.
        - apply Forall_replace_nth; [exact Hall|]. rewrite replace_nth_length. lia. }
      split; [apply fs_ok_set_groups; exact Hfs4|].
      split; [apply cur_ok_set_groups; exact Hcur4|].
      intros g' Hg'. rewrite Hs5g. apply nth_replace_nth_other. congruence.
Qed.

(** X9.  get_buffer(tag, blkno) with [blkno >= 0] on a cache of
    [groupsCount] groups of four buffers never panics and returns a slot
    [j] of group [blkno % groupsCount] that now holds block [blkno] of that
    tag, and is the first slot of that group to hold it; the other groups
    are left as they were and the cache keeps its shape.  A tag's version is a uint32, so it is non-negative. *)
Theorem get_buffer_holds_block desc tg blkno write s
  (Hbc : 0 < buffersCount desc) (Hblk : 0 <= blkno)
  (Hv : forall t, 0 <= version desc t)
  (Hfs : fs_ok s) (Hcur : cur_ok desc s) (Hg : groups_ok desc s) :
  exists g j s', get_buffer desc tg blkno write s = Ok (g, j) s' /\
    g = Z.to_nat (Z.rem blkno (groupsCount desc)) /\
    (j < Z.to_nat O_BUFFERS_PER_GROUP)%nat /\
    buffer_matches (nth j (nth g (groups s') []) empty_buffer) tg blkno = true /\
    find_buffer (nth g (groups s') []) tg blkno 0 = Some j /\
    groups_ok desc s' /\ fs_ok s' /\ cur_ok desc s' /\
    (forall g', g' <> g -> nth g' (groups s') [] = nth g' (groups s) []).
Proof. exact (get_buffer_spec desc tg blkno write s Hbc Hblk Hv Hfs Hcur Hg). Qed.

Lemma get_buffer_holds_block_witness :
  exists g j s', get_buffer OBuffersFacts.rt_desc 0 6 false sy_state = Ok (g, j) s' /\
    g = 0%nat /\ buffer_matches (nth j (nth g (groups s') []) empty_buffer) 0 6 = true.
Proof.
  assert (Hfs : fs_ok sy_state)
    by (split; [vm_compute; discriminate | intros n ino H; vm_compute in H; discriminate]).
  assert (Hcur : cur_ok OBuffersFacts.rt_desc sy_state)
    by (intro H; vm_compute in H; exfalso; apply H; reflexivity).
  assert (Hg : groups_ok OBuffersFacts.rt_desc sy_state)
    by (split; [vm_compute; reflexivity | repeat constructor]).
  destruct (get_buffer_holds_block OBuffersFacts.rt_desc 0 6 false sy_state
              ltac:(vm_compute; reflexivity) ltac:(lia)
              ltac:(intro t; vm_compute; discriminate) Hfs Hcur Hg)
    as [g [j [s' [E [Hgv [_ [Hm _]]]]]]].
  exists g, j, s'. split; [exact E|]. split; [rewrite Hgv; vm_compute; reflexivity|].
  exact Hm.
Defined.


(** X10.  o_buffers_write of [size > 0] bytes of [src] at [offset >= 0],
    when the range lies within one block, followed by o_buffers_read of the
    same range into [dst], never panics and yields [src] on [0 .. size - 1]
    and [dst] elsewhere: the read sees the bytes the write left in the
    cache. *)
Theorem o_buffers_write_read_block desc src dst tg offset size s
  (Hbc : 0 < buffersCount desc) (Hoff : 0 <= offset) (Hsz : 0 < size)
  (Hin : offset mod ORIOLEDB_BLCKSZ + size <= ORIOLEDB_BLCKSZ)
  (Hv : forall t, 0 <= version desc t)
  (Hfs : fs_ok s) (Hcur : cur_ok desc s) (Hg : groups_ok desc s) :
  exists s1 out s2,
    o_buffers_write desc src tg offset size s = Ok tt s1 /\
    o_buffers_read desc dst tg offset size s1 = Ok out s2 /\
    (forall x, out x = if (0 <=? x) && (x <? size) then src x else dst x).
Proof.
  assert (Hfl : (offset + size - 1) / ORIOLEDB_BLCKSZ = offset / ORIOLEDB_BLCKSZ).
  { unfold ORIOLEDB_BLCKSZ in *.
    pose proof (Z.div_mod offset 8192 ltac:(lia)).
    pose proof (Z.mod_pos_bound offset 8192 ltac:(lia)).
    symmetry. apply (Z.div_unique _ 8192 _ (offset mod 8192 + size - 1)); [left|]; lia. }
  set (blk := offset / ORIOLEDB_BLCKSZ) in *.
  assert (Hblk : 0 <= blk) by (apply Z.div_pos; unfold ORIOLEDB_BLCKSZ; lia).
  destruct (get_buffer_spec desc tg blk true s Hbc Hblk Hv Hfs Hcur Hg)
    as [g [j [s1 [E1 [Hgv [Hj [Hm [Hf [Hg1 _]]]]]]]]].
  destruct Hg1 as [Hlen1 Hall1].
  assert (Hgl : (g < List.length (groups s1))%nat).
  { rewrite Hlen1, Hgv. pose proof (groupsCount_pos desc Hbc).
    rewrite Z.rem_mod_nonneg by lia.
    pose proof (Z.mod_pos_bound blk (groupsCount desc) ltac:(lia)). lia. }
  assert (Hjl : (j < List.length (nth g (groups s1) []))%nat).
  { rewrite Forall_forall in Hall1. rewrite (Hall1 _ (nth_In _ _ Hgl)). exact Hj. }
  set (co := offset mod ORIOLEDB_BLCKSZ).
  set (b1 := nth j (nth g (groups s1) []) empty_buffer).
  set (b1' := mkOBuffer (blockNum b1) (shadowBlockNum b1) (tag b1) (shadowTag b1)
                (usageCount b1) true
                (fun x => if (co <=? x) && (x <? co + size)
                          then src (0 + (x - co)) else data b1 x)).
  set (grp1 := replace_nth (nth g (groups s1) []) j b1').
  set (s1w := set_groups s1 (replace_nth (groups s1) g grp1)).
  assert (EW : o_buffers_write desc src tg offset size s = Ok tt s1w).
  { unfold o_buffers_write, o_buffers_rw. cbv zeta. fold blk. rewrite Hfl.
    rewrite Z.sub_diag. change (Z.to_nat (0 + 1)) with 1%nat.
    cbn [rw_blocks]. rewrite Z.eqb_refl. unfold bind at 1 2. rewrite E1.
    reflexivity. }
  assert (Hn1w : nth g (groups s1w) [] = grp1)
    by (apply nth_replace_nth_same; exact Hgl).
  assert (Hb1' : nth j grp1 empty_buffer = b1')
    by (apply nth_replace_nth_same; exact Hjl).
  assert (Hf1w : find_buffer (nth g (groups s1w) []) tg blk 0 = Some j).
  { rewrite Hn1w. unfold grp1. rewrite (find_buffer_keys _ (nth g (groups s1) []) tg blk 0);
      [exact Hf|].
    apply (map_key_replace_nth _ _ _ empty_buffer). reflexivity. }
  set (bb := nth j (nth g (groups s1w) []) empty_buffer).
  set (s2 := set_groups s1w (replace_nth (groups s1w) g
               (replace_nth (nth g (groups s1w) []) j
                  (with_usage bb (uint32_inc (usageCount bb)))))).
  assert (E2 : get_buffer desc tg blk false s1w = Ok (g, j) s2).
  { unfold get_buffer. rewrite (bind_ok get _ s1w s1w s1w eq_refl). cbv zeta.
    rewrite <- Hgv. rewrite Hf1w. reflexivity. }
  assert (Hload : nth j (nth g (groups s2) []) empty_buffer
                  = with_usage bb (uint32_inc (usageCount bb))).
  { unfold s2. cbn [groups set_groups].
    rewrite nth_replace_nth_same
      by (unfold s1w; cbn [groups set_groups]; rewrite replace_nth_length; exact Hgl).
    apply nth_replace_nth_same. rewrite Hn1w. unfold grp1.
    rewrite replace_nth_length. exact Hjl. }
  assert (Hbb : bb = b1') by (unfold bb; rewrite Hn1w; exact Hb1').
  exists s1w. eexists. eexists. split; [exact EW|]. split.
  { unfold o_buffers_read, o_buffers_rw. cbv zeta. fold blk. rewrite Hfl.
    rewrite Z.sub_diag. change (Z.to_nat (0 + 1)) with 1%nat.
    cbn [rw_blocks]. rewrite Z.eqb_refl. unfold bind at 1 2. rewrite E2.
    reflexivity. }
  intro x. cbv beta. rewrite Hload, Hbb. cbn [with_usage data b1'].
  destruct ((0 <=? x) && (x <? 0 + size)) eqn:Ex;
    replace (0 + size) with size in Ex by lia; rewrite Ex; [|reflexivity].
  apply andb_true_iff in Ex. destruct Ex as [Ex1 Ex2].
  apply Z.leb_le in Ex1. apply Z.ltb_lt in Ex2. fold co.
  replace ((co <=? co + (x - 0)) && (co + (x - 0) <? co + size)) with true
    by (symmetry; apply andb_true_iff; split; [apply Z.leb_le | apply Z.ltb_lt]; lia).
  f_equal. lia.
Qed.

Lemma o_buffers_write_read_block_witness :
  exists s1 out s2,
    o_buffers_write OBuffersFacts.rt_desc (fun x => x + 100) 0 8202 5 sy_state
      = Ok tt s1 /\
    o_buffers_read OBuffersFacts.rt_desc zero_bytes 0 8202 5 s1 = Ok out s2 /\
    out 2 = 102 /\ out 7 = 0.
Proof.
  assert (Hfs : fs_ok sy_state)
    by (split; [vm_compute; discriminate | intros n ino H; vm_compute in H; discriminate]).
  assert (Hcur : cur_ok OBuffersFacts.rt_desc sy_state)
    by (intro H; vm_compute in H; exfalso; apply H; reflexivity).
  assert (Hg : groups_ok OBuffersFacts.rt_desc sy_state)
    by (split; [vm_compute; reflexivity | repeat constructor]).
  destruct (o_buffers_write_read_block OBuffersFacts.rt_desc (fun x => x + 100)
              zero_bytes 0 8202 5 sy_state
              ltac:(vm_compute; reflexivity) ltac:(lia) ltac:(lia)
              ltac:(vm_compute; discriminate)
              ltac:(intro t; vm_compute; discriminate) Hfs Hcur Hg)
    as [s1 [out [s2 [E1 [E2 Hout]]]]].
  exists s1, out, s2. split; [exact E1|]. split; [exact E2|].
  rewrite !Hout. split; reflexivity.
Defined.

End OBuffersMoreFacts.

(* ===================================================================== *)
(** * More facts about the index build comparator: src/tuple/sort.c *)
(* ===================================================================== *)

Module SortMoreFacts.
Import Sort SortFacts.

(** A comparator is antisymmetric when swapping its arguments flips the
    sign of its result. *)
Definition antisym (cmp : Datum -> Datum -> Z) : Prop :=
  forall x y, Z.sgn (cmp x y) = - Z.sgn (cmp y x).

Definition ssup_antisym (ss : SortSupport) : Prop :=
  antisym (comparator ss) /\ antisym (abbrev_full_comparator ss).

(** Comparing [a] with [b] and [b] with [a] agree: opposite signs, or the
    same unique-violation error. *)
Definition cmp_results_opposite (r1 r2 : CompareResult) : Prop :=
  match r1, r2 with
  | CmpReturn c1, CmpReturn c2 => Z.sgn c1 = - Z.sgn c2
  | CmpUniqueViolation n1, CmpUniqueViolation n2 => n1 = n2
  | _, _ => False
  end.

Lemma sgn_INVERT_COMPARE_RESULT c : Z.sgn (INVERT_COMPARE_RESULT c) = - Z.sgn c.
Proof.
  unfold INVERT_COMPARE_RESULT. destruct (Z.ltb_spec c 0).
  - rewrite (Z.sgn_neg c) by lia. reflexivity.
  - rewrite Z.sgn_opp. reflexivity.
Qed.

Lemma apply_sort_cmp_antisym cmp d1 n1 d2 n2 ss :
  antisym cmp ->
  Z.sgn (apply_sort_cmp cmp d1 n1 d2 n2 ss) = - Z.sgn (apply_sort_cmp cmp d2 n2 d1 n1 ss).
Proof.
  intro Hc. unfold apply_sort_cmp.
  destruct n1, n2, (ssup_nulls_first ss); try reflexivity.
  all: destruct (ssup_reverse ss); [rewrite !sgn_INVERT_COMPARE_RESULT|]; rewrite (Hc d1 d2); lia.
Qed.

(** Two values compare equal only when both or neither are null. *)
Lemma apply_sort_cmp_zero_nulls cmp d1 n1 d2 n2 ss :
  apply_sort_cmp cmp d1 n1 d2 n2 ss = 0 -> n1 = n2.
Proof.
  unfold apply_sort_cmp.
  destruct n1, n2, (ssup_nulls_first ss); simpl; congruence.
Qed.

Lemma sgn_zero_iff c : Z.sgn c = 0 <-> c = 0.
Proof. destruct c; simpl; split; congruence. Qed.

Lemma sort_key_antisym st k :
  Forall ssup_antisym (sortKeys st) -> ssup_antisym (sort_key st k).
Proof.
  intro H. unfold sort_key.
  destruct (Nat.lt_ge_cases k (List.length (sortKeys st))) as [Hk|Hk].
  - rewrite Forall_forall in H. apply H, nth_In, Hk.
  - rewrite nth_overflow by exact Hk.
    split; intros x y; reflexivity.
Qed.

Lemma compare_keys_antisym st ltup rtup (H : Forall ssup_antisym (sortKeys st)) n :
  forall nkey h,
  match compare_keys st ltup rtup nkey n h, compare_keys st rtup ltup nkey n h with
  | inl c1, inl c2 => Z.sgn c1 = - Z.sgn c2
  | inr e1, inr e2 => e1 = e2
  | _, _ => False
  end.
Proof.
  induction n as [|n IH]; intros nkey h; [reflexivity|].
  cbn [compare_keys].
  destruct (negb (OIgnoreColumn (arg_id st) (Z.of_nat nkey))); [|apply IH].
  destruct (ltup (ssup_attno (sort_key st nkey))) as [d1 n1].
  destruct (rtup (ssup_attno (sort_key st nkey))) as [d2 n2].
  pose proof (apply_sort_cmp_antisym (comparator (sort_key st nkey)) d1 n1 d2 n2
                (sort_key st nkey) (proj1 (sort_key_antisym st nkey H))) as Ha.
  unfold ApplySortComparator.
  destruct (apply_sort_cmp (comparator (sort_key st nkey)) d1 n1 d2 n2 (sort_key st nkey)
            =? 0) eqn:E1;
  destruct (apply_sort_cmp (comparator (sort_key st nkey)) d2 n2 d1 n1 (sort_key st nkey)
            =? 0) eqn:E2; simpl negb; cbv iota.
  - apply Z.eqb_eq in E1. rewrite (apply_sort_cmp_zero_nulls _ _ _ _ _ _ E1). apply IH.
  - apply Z.eqb_eq in E1. apply Z.eqb_neq in E2. rewrite E1 in Ha.
    exfalso. apply E2, sgn_zero_iff. simpl in Ha. lia.
  - apply Z.eqb_eq in E2. apply Z.eqb_neq in E1. rewrite E2 in Ha.
    exfalso. apply E1, sgn_zero_iff. simpl in Ha. lia.
  - exact Ha.
Qed.

(** A sort state on [uq2_index] with its key comparators. *)
Definition uq2_state : Tuplesortstate := tuplesort_begin_orioledb_index uq2_index.

Lemma int_cmp_antisym : antisym int_cmp.
Proof.
  intros x y. unfold int_cmp. rewrite (Z.compare_antisym x y).
  destruct (Z.compare x y); reflexivity.
Qed.

(** X11.  When every sort key's comparators are antisymmetric, so is
    [comparetup_orioledb_index]: comparing [b] with [a] gives the opposite
    sign of comparing [a] with [b], and a unique violation is raised in
    one order exactly when it is raised in the other (nulls compare equal
    only to nulls, so both orders see the same [equal_hasnull]). *)
Theorem comparetup_orioledb_index_antisym a b st
  (H : Forall ssup_antisym (sortKeys st)) :
  cmp_results_opposite (comparetup_orioledb_index a b st) (comparetup_orioledb_index b a st).
Proof.
  unfold comparetup_orioledb_index, cmp_results_opposite.
  set (sk0 := sort_key st 0).
  destruct (sort_key_antisym st 0 H) as [Hc Hf]. fold sk0 in Hc, Hf.
  pose proof (apply_sort_cmp_antisym (comparator sk0) (datum1 a) (isnull1 a)
                (datum1 b) (isnull1 b) sk0 Hc) as Ha.
  unfold ApplySortComparator.
  destruct (apply_sort_cmp (comparator sk0) (datum1 a) (isnull1 a) (datum1 b) (isnull1 b) sk0
            =? 0) eqn:E1;
  destruct (apply_sort_cmp (comparator sk0) (datum1 b) (isnull1 b) (datum1 a) (isnull1 a) sk0
            =? 0) eqn:E2; simpl negb; cbv iota.
  2: { apply Z.eqb_eq in E1. apply Z.eqb_neq in E2. rewrite E1 in Ha.
       exfalso. apply E2, sgn_zero_iff. simpl in Ha. lia. }
  2: { apply Z.eqb_eq in E2. apply Z.eqb_neq in E1. rewrite E2 in Ha.
       exfalso. apply E1, sgn_zero_iff. simpl in Ha. lia. }
  2: exact Ha.
  apply Z.eqb_eq in E1.
  pose proof (apply_sort_cmp_zero_nulls _ _ _ _ _ _ E1) as Hn. rewrite <- Hn.
  assert (Hfull :
    let fab := if abbrev_converter sk0 then
                 let '(d1, n1) := tuple a (ssup_attno sk0) in
                 let '(d2, n2) := tuple b (ssup_attno sk0) in
                 ApplySortAbbrevFullComparator d1 n1 d2 n2 sk0 else 0 in
    let fba := if abbrev_converter sk0 then
                 let '(d1, n1) := tuple b (ssup_attno sk0) in
                 let '(d2, n2) := tuple a (ssup_attno sk0) in
                 ApplySortAbbrevFullComparator d1 n1 d2 n2 sk0 else 0 in
    Z.sgn fab = - Z.sgn fba).
  { cbv zeta. destruct (abbrev_converter sk0); [|reflexivity].
    destruct (tuple a (ssup_attno sk0)) as [d1 n1].
    destruct (tuple b (ssup_attno sk0)) as [d2 n2].
    apply apply_sort_cmp_antisym. exact Hf. }
  cbv zeta in Hfull.
  destruct (if abbrev_converter sk0 then
              let '(d1, n1) := tuple a (ssup_attno sk0) in
              let '(d2, n2) := tuple b (ssup_attno sk0) in
              ApplySortAbbrevFullComparator d1 n1 d2 n2 sk0 else 0) as [|p|p];
  destruct (if abbrev_converter sk0 then
              let '(d1, n1) := tuple b (ssup_attno sk0) in
              let '(d2, n2) := tuple a (ssup_attno sk0) in
              ApplySortAbbrevFullComparator d1 n1 d2 n2 sk0 else 0) as [|q|q];
    simpl in Hfull; try discriminate; simpl; try reflexivity.
  pose proof (compare_keys_antisym st (tuple a) (tuple b) H
                (Z.to_nat (nKeys st - 1)) 1 (isnull1 a)) as Hk.
  destruct (compare_keys st (tuple a) (tuple b) 1 (Z.to_nat (nKeys st - 1)) (isnull1 a));
  destruct (compare_keys st (tuple b) (tuple a) 1 (Z.to_nat (nKeys st - 1)) (isnull1 a));
    try contradiction; [exact Hk|].
  subst. destruct (enforceUnique st && negb b1); reflexivity.
Qed.

Lemma comparetup_orioledb_index_antisym_witness :
  cmp_results_opposite (comparetup_orioledb_index (tup2 1 (Some 5)) (tup2 1 (Some 7)) uq2_state)
                       (comparetup_orioledb_index (tup2 1 (Some 7)) (tup2 1 (Some 5)) uq2_state) /\
  comparetup_orioledb_index (tup2 1 (Some 5)) (tup2 1 (Some 7)) uq2_state = CmpReturn (-1).
Proof.
  split; [|vm_compute; reflexivity].
  apply comparetup_orioledb_index_antisym.
  repeat constructor; intros x y; simpl; try reflexivity; apply int_cmp_antisym.
Defined.

End SortMoreFacts.


(* ===================================================================== *)
(** * More facts about the bulk build: src/btree/build.c *)
(* ===================================================================== *)

Module BuildMoreFacts.
Import Build BuildFacts.

Section RootLevel.

Variables Page OTuple SplitItems : Type.
Variable ops : PageOps Page OTuple SplitItems.
Variable fillfactor : Z.

(** The updates the builder makes keep [root_level] or (for the split of
    the root) set it. *)
Lemma root_level_stack_set (st : BuildState Page OTuple) l it :
  root_level (stack_set st l it) = root_level st.
Proof. reflexivity. Qed.

Lemma root_level_emit (st : BuildState Page OTuple) e :
  root_level (emit st e) = root_level st.
Proof. reflexivity. Qed.

Lemma root_level_inc (st : BuildState Page OTuple) :
  root_level (inc_leafPagesNum st) = root_level st.
Proof. reflexivity. Qed.

Lemma trace_inc (st : BuildState Page OTuple) :
  trace (inc_leafPagesNum st) = trace st.
Proof. reflexivity. Qed.

Lemma length_replace_nth {A} (l : list A) n x :
  List.length (replace_nth l n x) = List.length l.
Proof.
  revert n. induction l as [|h t IH]; intros [|n]; simpl; auto.
Qed.

Lemma stack_length_stack_set (st : BuildState Page OTuple) l it :
  List.length (stack (stack_set st l it)) = List.length (stack st).
Proof. apply length_replace_nth. Qed.

(** [put_item_to_stack] from [level] with [fuel] levels left keeps
    [root_level] in [0, level + fuel): it only raises it to a level it
    then goes on to visit. *)
Lemma put_item_to_stack_root_level fuel : forall level it st st',
  put_item_to_stack ops fillfactor fuel level it st = Some st' ->
  0 <= root_level st < level + Z.of_nat fuel ->
  0 <= root_level st' < level + Z.of_nat fuel /\
  List.length (stack st') = List.length (stack st).
Proof.
  induction fuel as [|fuel IH]; intros level it st st' H Hr; [discriminate|].
  cbn [put_item_to_stack] in H.
  set (cur := stack_get ops st level) in H.
  destruct (if split_not_forced ops fillfactor (img cur) it then _ else false).
  - injection H as <-. split; [exact Hr | apply stack_length_stack_set].
  - unfold stack_page_split in H.
    destruct (make_split_items ops _ it) as [items off].
    set (st1 := emit st _) in H.
    assert (H1 : root_level st1 = root_level st) by reflexivity.
    destruct (split_pages ops _ _ items _ it) as [lpage rpage].
    cbv beta iota zeta in H.
    match type of H with
    | context [if level =? root_level st1 then ?a else ?b] =>
      assert (H2 : (root_level (snd (if level =? root_level st1 then a else b)) = root_level st
                   \/ (root_level st = level /\
                       root_level (snd (if level =? root_level st1 then a else b)) = level + 1))
                   /\ List.length (stack (snd (if level =? root_level st1 then a else b)))
                      = List.length (stack st));
      [destruct (level =? root_level st1) eqn:El;
       [destruct (mark_new_root ops _ _ _); simpl; split;
        [right; apply Z.eqb_eq in El; split; [congruence | reflexivity]
        | apply length_replace_nth]
       | split; [left; exact H1 | reflexivity]]|];
      destruct (if level =? root_level st1 then a else b) as [lp st2]
    end.
    simpl in H2. destruct H2 as [H2 Hl2].
    destruct (write_page ops st2 level _) as [downlink st3] eqn:Ew.
    assert (H3 : root_level st3 = root_level st2 /\ stack st3 = stack st2)
      by (unfold write_page in Ew; injection Ew as _ <-; split; reflexivity).
    destruct H3 as [H3 Hs3].
    destruct (page_hikey ops _) as [hk hks].
    set (st4 := stack_set (if level =? 0 then inc_leafPagesNum st3 else st3) level _) in H.
    assert (H4 : root_level st4 = root_level st2)
      by (unfold st4; rewrite root_level_stack_set;
          destruct (level =? 0); [rewrite root_level_inc|]; exact H3).
    assert (Hl4 : List.length (stack st4) = List.length (stack st))
      by (unfold st4; rewrite stack_length_stack_set;
          destruct (level =? 0); simpl; rewrite Hs3; exact Hl2).
    destruct fuel as [|fuel']; [discriminate|].
    assert (Hr4 : 0 <= root_level st4 < level + 1 + Z.of_nat (S fuel')).
    { rewrite H4. destruct H2 as [H2 | [H2a H2b]]; rewrite ?H2, ?H2b; lia. }
    destruct (IH (level + 1) _ st4 st' H Hr4) as [Hr' Hl'].
    split; [lia | congruence].
Qed.

Lemma finish_loop_root_level n : forall i st st',
  finish_loop ops fillfactor i n st = Some st' ->
  0 <= root_level st < ORIOLEDB_MAX_DEPTH ->
  0 <= root_level st' < ORIOLEDB_MAX_DEPTH /\
  List.length (stack st') = List.length (stack st).
Proof.
  induction n as [|n IH]; intros i st st' H Hr.
  - injection H as <-. split; [exact Hr | reflexivity].
  - cbn [finish_loop] in H.
    set (cur := stack_get ops st i) in H.
    set (page := split_page_by_chunks ops _) in H.
    set (st1 := stack_set st i _) in H.
    destruct (write_page ops st1 i page) as [downlink st2] eqn:Ew.
    assert (H2 : root_level st2 = root_level st /\ stack st2 = stack st1)
      by (unfold write_page in Ew; injection Ew as _ <-; split; reflexivity).
    destruct H2 as [H2 Hs2].
    set (st3 := if i =? 0 then inc_leafPagesNum st2 else st2) in H.
    assert (H3 : root_level st3 = root_level st)
      by (unfold st3; destruct (i =? 0); [rewrite root_level_inc|]; exact H2).
    assert (Hl3 : List.length (stack st3) = List.length (stack st))
      by (unfold st3; destruct (i =? 0); simpl; rewrite Hs2; apply stack_length_stack_set).
    destruct (put_downlink_to_stack ops fillfactor (i + 1) downlink _ _ st3)
      as [st4|] eqn:E; [|discriminate].
    unfold put_downlink_to_stack, depth_fuel in E.
    destruct (Z_le_gt_dec (i + 1) ORIOLEDB_MAX_DEPTH) as [Hi|Hi].
    + pose proof (put_item_to_stack_root_level _ _ _ _ _ E) as H4.
      rewrite Z2Nat.id in H4 by lia. rewrite H3 in H4.
      destruct H4 as [H4 Hl4]; [unfold ORIOLEDB_MAX_DEPTH in *; lia|].
      destruct (IH _ _ _ H) as [Hr' Hl']; [unfold ORIOLEDB_MAX_DEPTH in *; lia|].
      split; [exact Hr' | congruence].
    + replace (Z.to_nat (ORIOLEDB_MAX_DEPTH - (i + 1))) with 0%nat in E by lia.
      discriminate.
Qed.

Lemma fold_add_root_level tuples : forall st st',
  fold_left (btree_build_state_add_tuple ops fillfactor) tuples (Some st) = Some st' ->
  0 <= root_level st < ORIOLEDB_MAX_DEPTH ->
  0 <= root_level st' < ORIOLEDB_MAX_DEPTH /\
  List.length (stack st') = List.length (stack st).
Proof.
  induction tuples as [|t ts IH]; intros st st' H Hr.
  - injection H as <-. split; [exact Hr | reflexivity].
  - simpl in H. unfold put_tuple_to_stack in H at 1.
    destruct (put_item_to_stack ops fillfactor _ _ _ st) as [st1|] eqn:E.
    + pose proof (put_item_to_stack_root_level _ _ _ _ _ E) as H1.
      unfold depth_fuel, ORIOLEDB_MAX_DEPTH in *. simpl in H1.
      destruct H1 as [H1 Hl1]; [lia|].
      destruct (IH _ _ H) as [Hr' Hl']; [unfold ORIOLEDB_MAX_DEPTH; lia|].
      split; [exact Hr' | congruence].
    + exfalso. clear -H. induction ts as [|t' ts IHts]; [discriminate|].
      apply IHts. exact H.
Qed.

End RootLevel.

(** X12.  A bulk build that completes ends with [0 <= root_level <
    ORIOLEDB_MAX_DEPTH], so [state->stack[state->root_level]] is an entry
    of the [ORIOLEDB_MAX_DEPTH]-entry stack, and the last page it writes
    is the root page, at [root_level], whose downlink is the header's
    [rootDownlink]. *)
Theorem build_root_written_last Page OTuple SplitItems
  (ops : PageOps Page OTuple SplitItems) (fillfactor : Z) (tuples : list OTuple) :
  match btree_write_index_data ops fillfactor tuples with
  | Some (st, h) =>
      0 <= root_level st < ORIOLEDB_MAX_DEPTH /\
      List.length (stack st) = Z.to_nat ORIOLEDB_MAX_DEPTH /\
      exists tr, trace st = tr ++ [EvPageWrite (root_level st) (rootDownlink h)]
  | None => True
  end.
Proof.
  unfold btree_write_index_data.
  destruct (fold_left _ tuples _) as [st|] eqn:E; [|exact I].
  pose proof (fold_add_root_level _ _ _ ops fillfactor tuples _ _ E
                ltac:(unfold ORIOLEDB_MAX_DEPTH; simpl; lia)) as Hst.
  destruct Hst as [Hst Hl0].
  unfold btree_build_state_finish.
  destruct (finish_loop ops fillfactor 0 _ st) as [st1|] eqn:E1; [|exact I].
  destruct (finish_loop_root_level _ _ _ ops fillfactor _ _ _ _ E1 Hst) as [H1 Hl1].
  set (root := stack_get ops st1 _).
  set (page := split_page_by_chunks ops _).
  set (st2 := stack_set st1 _ _).
  destruct (write_page ops st2 (root_level st2) page) as [downlink st3] eqn:Ew.
  unfold write_page in Ew. injection Ew as Ed Es. subst st3.
  cbv beta iota zeta.
  assert (Hrl : root_level st2 = root_level st1) by reflexivity.
  assert (Hsl : List.length (stack st2) = Z.to_nat ORIOLEDB_MAX_DEPTH).
  { unfold st2. rewrite stack_length_stack_set, Hl1, Hl0.
    unfold btree_build_state_start. cbn [stack].
    rewrite length_map, length_seq. reflexivity. }
  match goal with |- context [if ?c then _ else _] => destruct c end;
    cbn [root_level stack trace inc_leafPagesNum emit rootDownlink];
    (split; [rewrite Hrl; exact H1|]); (split; [exact Hsl|]);
    exists (trace st2); rewrite Ed, Hrl; reflexivity.
Qed.

(** X13.  On an empty input the bulk build writes exactly one page: the
    initial level-0 stack page, marked as the root, which is a leaf; the
    root level stays 0, the leaf page count is 1, and the header's root
    downlink is the downlink of that write. *)
Theorem build_empty_input Page OTuple SplitItems
  (ops : PageOps Page OTuple SplitItems) (fillfactor : Z) :
  match btree_write_index_data ops fillfactor [] with
  | Some (st, h) =>
      root_level st = 0 /\
      trace st = [EvPageWrite 0 (rootDownlink h)] /\
      hdrLeafPagesNum h = 1 /\
      rootDownlink h = perform_page_io_build ops
                         (split_page_by_chunks ops
                            (mark_root_page ops 0 (init_stack_page ops 0)))
  | None => False
  end.
Proof.
  unfold btree_write_index_data, btree_build_state_finish. simpl fold_left.
  cbn [finish_loop btree_build_state_start root_level Z.to_nat].
  unfold write_page, stack_set, emit, inc_leafPagesNum, stack_get.
  cbn. repeat split; reflexivity.
Qed.

End BuildMoreFacts.
